(** * Watermark: a shallow embedding of [apply_watermark.py]

    The Python module batch-applies a logo overlay and an outlined text
    onto images with Pillow.  This development embeds its functions
    ([find_text_file], [read_watermark_text], [load_font],
    [apply_text_watermark], [apply_watermark], [process_images]) and
    the preview of the Streamlit page [app.py], and proves properties
    of them.

    Conventions of the embedding:
    - Python [int] is [Z]; Python [float] is IEEE-754 binary64, modelled
      with the Standard Library's [spec_float] at precision 53;
    - paths, font names and anchors are [string]; the text read from a
      file is a list of Unicode code points ([pystr]);
    - the module-level dict [_font_cache] is a [gmap string Font] held
      in the [World] that every effectful function threads;
    - exceptions are explicit: an effectful function returns an
      [Outcome], [try]/[except Exception] is [try_except];
    - what Pillow and [os] do behind the calls of the module (does a
      path exist, does a font file load, what a file holds, how a
      glyph run is measured and rasterised, how an image is resampled)
      is an oracle record [Env]; theorems quantify over every oracle;
    - the oracle is the machine as one run sees it: what the run
      writes does not change what it probes, opens or globs later;
    - [print] raises when the console cannot encode the line
      ([stdout_error]); a text read from a file is first turned into
      the characters of the line ([stdout_encode]), which can fail in
      the same way;
    - running out of memory is outside the model, except in [resize],
      whose size comes from the scale factor ([resize_error]). *)

From Stdlib Require Import ZArith List Bool Ascii String Lia.
From Stdlib Require Import Floats.SpecFloat.
From stdpp Require Import base option list gmap strings pretty.

Local Open Scope Z_scope.
Local Open Scope string_scope.

(** ** Exceptions and outcomes *)

(** The exception classes the module can meet.  All of them are
    subclasses of [Exception], so [except Exception] catches each. *)
Inductive ExnClass :=
  | UnicodeDecodeError
  | UnicodeEncodeError
  | OSError
  | ValueError
  | ZeroDivisionError
  | OverflowError
  | OtherException.

Record Exn := mkExn { exn_class : ExnClass; exn_str : string }.

Inductive Outcome (A : Type) :=
  | Ok (a : A)
  | Raise (e : Exn).
Arguments Ok {A} a.
Arguments Raise {A} e.

Definition is_ok {A} (o : Outcome A) : bool :=
  match o with Ok _ => true | Raise _ => false end.

Definition is_UnicodeDecodeError (e : Exn) : bool :=
  match exn_class e with UnicodeDecodeError => true | _ => false end.

(** ** Data of the module *)

(** A Python [str] read from a file: its code points. *)
Definition pystr := list N.

(** A font resource: a FreeType face loaded from a path (or a font
    name that FreeType resolves) at a size, or Pillow's built-in
    default font. *)
Inductive Font :=
  | TrueType (path : string) (size : Z)
  | DefaultFont.

(** [class WatermarkConfig] (a dataclass with defaults). *)
Record WatermarkConfig := mkWatermarkConfig {
  image_watermark_path : option string;
  image_scale_factor : spec_float;
  image_padding : Z;
  font_name : string;
  font_size : Z;
  text_color : Z * Z * Z;
  text_outline_color : Z * Z * Z;
  text_outline_width : Z;
  text_padding : Z;
  text_position : string
}.

(** *** Images

    A pixel holds four channels in [0, 255].  Whatever the mode of an
    image, [pixel] gives the colour that [Image.convert('RGBA')]
    yields for it: a grey level [l] of mode L is [(l, l, l, 255)], an
    RGB colour has alpha 255, a palette index is its palette colour. *)
Record Pixel := mkPixel { chR : Z; chG : Z; chB : Z; chA : Z }.

(** The modes a decoded file can have.  [ModeOther] stands for CMYK,
    YCbCr, I, F and the like. *)
Inductive Mode :=
  | ModeRGBA | ModeLA | ModeL | Mode1 | ModeRGB | ModeP | ModeOther.

Record Image := mkImage {
  mode : Mode;
  width : Z;
  height : Z;
  pixel : Z -> Z -> Pixel      (* column x, row y *)
}.

Definition Color := (Z * Z * Z)%type.

(** What the process looks at in the file system: every call of
    [os.path.exists] and of [ImageFont.truetype] is recorded. *)
Inductive Probe :=
  | ProbeExists (path : string)
  | ProbeTruetype (path : string) (size : Z).

(** ** The world threaded by effectful code *)

Record World := mkWorld {
  font_cache : gmap string Font;   (* the module global [_font_cache] *)
  stdout : list string;            (* lines written by [print], oldest first *)
  probes : list Probe;             (* file-system probes, oldest first *)
  saved : list (string * Image)    (* files written by [Image.save], oldest first *)
}.

Definition empty_world : World :=
  {| font_cache := ∅; stdout := []; probes := []; saved := [] |}.

(** ** The oracle: Pillow and the operating system *)

Record Env := mkEnv {
  (* os.path.exists(path) *)
  os_path_exists : string -> bool;
  (* ImageFont.truetype(path, size): [None] when it returns a face,
     [Some e] when it raises [e] *)
  truetype_error : string -> Z -> option Exn;
  (* open(path, 'r', encoding='utf-8').read() *)
  read_text_utf8 : string -> Outcome pystr;
  (* open(path, 'r').read(), the locale's encoding *)
  read_text_default : string -> Outcome pystr;
  (* Image.open(path) together with the decoding of its pixels *)
  image_open : string -> Outcome Image;
  (* the pixels of im.resize((w, h), Image.Resampling.LANCZOS) *)
  lanczos : Image -> Z -> Z -> (Z -> Z -> Pixel);
  (* im.resize((w, h), ...) for a size that Pillow accepts: the
     exception raised when the image cannot be built (MemoryError), if
     any *)
  resize_error : Image -> Z -> Z -> option Exn;
  (* str(e) of the OverflowError raised when an int does not fit the
     C int that Pillow takes *)
  overflow_text : Z -> string;
  (* ImageDraw.Draw(im).textbbox((0, 0), text, font=font) *)
  textbbox : pystr -> Font -> Outcome (Z * Z * Z * Z);
  (* ImageDraw.Draw(im).text(xy, text, font=font, fill=fill): the
     image after the call, or the exception raised before any pixel
     is written *)
  draw_text : Image -> Z * Z -> pystr -> Font -> Color -> Outcome Image;
  (* os.path.splitext(path)[1] *)
  splitext_ext : string -> string;
  (* os.path.dirname(path) *)
  dirname : string -> string;
  (* os.makedirs(path, exist_ok=True): the exception raised, if any *)
  makedirs_error : string -> option Exn;
  (* im.save(path, quality=95): the exception raised, if any *)
  save_error : string -> Image -> option Exn;
  (* print(line): the UnicodeEncodeError raised when the encoding of
     the console lacks a character of the line, if any *)
  stdout_error : string -> option Exn
}.

(** ** A state and exception monad *)

Definition M (S A : Type) : Type := S -> Outcome A * S.

Definition ret {S A} (a : A) : M S A := fun s => (Ok a, s).

Definition bind {S A B} (m : M S A) (k : A -> M S B) : M S B :=
  fun s =>
    match m s with
    | (Ok a, s') => k a s'
    | (Raise e, s') => (Raise e, s')
    end.

Definition raise {S A} (e : Exn) : M S A := fun s => (Raise e, s).

(** The result of a call that has no effect on the state. *)
Definition lift {S A} (o : Outcome A) : M S A := fun s => (o, s).

(** [try: m  except Exception as e: h e].  The effects of [m] up to
    the exception stay. *)
Definition try_except {S A} (m : M S A) (h : Exn -> M S A) : M S A :=
  fun s =>
    match m s with
    | (Ok a, s') => (Ok a, s')
    | (Raise e, s') => h e s'
    end.

Declare Scope m_scope.
Delimit Scope m_scope with M.
Notation "'do' x <- m ; k" := (bind m (fun x => k))
  (at level 10, x name, m at level 100, k at level 200) : m_scope.
Notation "'do_' m ; k" := (bind m (fun _ => k))
  (at level 10, m at level 100, k at level 200) : m_scope.
Local Open Scope m_scope.

(** [print(line)]: the line is written, or the console refuses it
    and nothing is written. *)
Definition print (env : Env) (line : string) : M World unit :=
  fun w =>
    match stdout_error env line with
    | Some e => (Raise e, w)
    | None => (Ok tt, {| font_cache := font_cache w;
                         stdout := stdout w ++ [line];
                         probes := probes w;
                         saved := saved w |})
    end.

Definition record_probe (p : Probe) : M World unit :=
  fun w => (Ok tt, {| font_cache := font_cache w;
                      stdout := stdout w;
                      probes := probes w ++ [p];
                      saved := saved w |}).

Definition cache_lookup (key : string) : M World (option Font) :=
  fun w => (Ok (font_cache w !! key), w).

Definition cache_store (key : string) (f : Font) : M World unit :=
  fun w => (Ok tt, {| font_cache := <[key := f]> (font_cache w);
                      stdout := stdout w;
                      probes := probes w;
                      saved := saved w |}).

(** ** Strings *)

(** [str.lower()] on the ASCII range; other bytes are left alone.  The
    family names the module compares with are ASCII, and no non-ASCII
    character lowers to a letter of theirs. *)
Definition ascii_lower (c : ascii) : ascii :=
  let n := nat_of_ascii c in
  if (65 <=? n)%nat && (n <=? 90)%nat then ascii_of_nat (n + 32) else c.

Fixpoint lower (s : string) : string :=
  match s with
  | EmptyString => EmptyString
  | String c s' => String (ascii_lower c) (lower s')
  end.

(** [x in [a, b, ...]] for strings. *)
Definition str_in (x : string) (l : list string) : bool :=
  existsb (String.eqb x) l.

(** [str(n)] for an int. *)
Definition str_of_int (n : Z) : string := pretty n.

(** ** [load_font] *)

Definition times_paths : list string :=
  [ "C:/Windows/Fonts/times.ttf";
    "C:/Windows/Fonts/Times.ttf";
    "C:/Windows/Fonts/timesnewroman.ttf";
    "C:/Windows/Fonts/TimesNewRoman.ttf";
    "/usr/share/fonts/truetype/liberation/LiberationSerif-Regular.ttf";
    "/usr/share/fonts/truetype/times/Times-Roman.ttf";
    "/Library/Fonts/Times New Roman.ttf";
    "/System/Library/Fonts/Times.ttc" ].

Definition inter_paths : list string :=
  [ "C:/Windows/Fonts/Inter-Regular.ttf";
    "C:/Windows/Fonts/inter.ttf";
    "/usr/share/fonts/truetype/inter/Inter-Regular.ttf";
    "/usr/share/fonts/Inter-Regular.ttf";
    "/Library/Fonts/Inter-Regular.ttf";
    "/System/Library/Fonts/Inter-Regular.ttf";
    "fonts/Inter-Regular.ttf";
    "./Inter-Regular.ttf" ].

Definition fallback_fonts : list string :=
  [ "times.ttf"; "Times.ttf"; "arial.ttf"; "Arial.ttf";
    "DejaVuSans.ttf"; "LiberationSans-Regular.ttf" ].

Section Fonts.
Variable env : Env.

(** [os.path.exists(path)] *)
Definition path_exists (path : string) : M World bool :=
  do_ record_probe (ProbeExists path);
  ret (os_path_exists env path).

(** [ImageFont.truetype(path, size)] *)
Definition ImageFont_truetype (path : string) (size : Z) : M World Font :=
  do_ record_probe (ProbeTruetype path size);
  match truetype_error env path size with
  | None => ret (TrueType path size)
  | Some e => raise e
  end.

(** [ImageFont.load_default()] *)
Definition ImageFont_load_default : M World Font := ret DefaultFont.

(** The loop over the candidate paths of a family:
<<
    for font_path in paths:
        if os.path.exists(font_path):
            try:
                font = ImageFont.truetype(font_path, font_size)
                print(f"Loaded {label} font from: {font_path}")
                break
            except Exception as e:
                continue
>>
    [font] is the value of the variable before the loop and the
    result is its value after the loop.  The [try] block is written
    as its two statements: an exception of [truetype] leaves [font] as
    it was; an exception of [print] is caught by the same handler, but
    [font] is assigned by then, and the loop goes on to the next
    path. *)
Fixpoint try_font_paths (label : string) (paths : list string) (size : Z)
    (font : option Font) : M World (option Font) :=
  match paths with
  | [] => ret font
  | font_path :: rest =>
      do ex <- path_exists font_path;
      if ex : bool then
        do loaded <- try_except
                       (do f <- ImageFont_truetype font_path size; ret (Some f))
                       (fun _ => ret None);
        match loaded with
        | Some f =>
            do announced <-
              try_except
                (do_ print env ("Loaded " +:+ label +:+ " font from: "
                                +:+ font_path);
                 ret true)
                (fun _ => ret false);
            if announced : bool then ret (Some f)
            else try_font_paths label rest size (Some f)
        | None => try_font_paths label rest size font
        end
      else try_font_paths label rest size font
  end.

(** The loop over the fallback font names (no [os.path.exists]), with
    [font] as in [try_font_paths]. *)
Fixpoint try_fallback_fonts (names : list string) (size : Z)
    (font : option Font) : M World (option Font) :=
  match names with
  | [] => ret font
  | fallback :: rest =>
      do loaded <- try_except
                     (do f <- ImageFont_truetype fallback size; ret (Some f))
                     (fun _ => ret None);
      match loaded with
      | Some f =>
          do announced <-
            try_except
              (do_ print env ("Using fallback font: " +:+ fallback); ret true)
              (fun _ => ret false);
          if announced : bool then ret (Some f)
          else try_fallback_fonts rest size (Some f)
      | None => try_fallback_fonts rest size font
      end
  end.

Definition cache_key (font_name : string) (font_size : Z) : string :=
  font_name +:+ "_" +:+ str_of_int font_size.

Definition load_font (font_name : string) (font_size : Z) : M World Font :=
  do hit <- cache_lookup (cache_key font_name font_size);
  match hit with
  | Some f => ret f
  | None =>
      do font <-
        (if str_in (lower font_name) ["times new roman"; "times"]
         then try_font_paths "Times New Roman" times_paths font_size None
         else if String.eqb (lower font_name) "inter"
         then try_font_paths "Inter" inter_paths font_size None
         else ret None);
      do font <-
        match font with
        | Some f => ret (Some f)
        | None =>
            do_ print env ("Warning: " +:+ font_name
                           +:+ " font not found, trying fallback fonts...");
            try_fallback_fonts fallback_fonts font_size None
        end;
      do font <-
        match font with
        | Some f => ret f
        | None =>
            do_ print env ("Warning: Could not load " +:+ font_name
                           +:+ " or fallback fonts, using PIL default font");
            ImageFont_load_default
        end;
      do_ cache_store (cache_key font_name font_size) font;
      ret font
  end.
End Fonts.

(** ** [read_watermark_text] *)

(** [str.isspace] on one code point: the characters that [str.strip()]
    removes. *)
Definition isspace (c : N) : bool :=
  ((9 <=? c) && (c <=? 13) || (28 <=? c) && (c <=? 32)
   || (c =? 133) || (c =? 160) || (c =? 5760)
   || (8192 <=? c) && (c <=? 8202)
   || (c =? 8232) || (c =? 8233) || (c =? 8239) || (c =? 8287)
   || (c =? 12288))%N.

Fixpoint lstrip (s : pystr) : pystr :=
  match s with
  | c :: s' => if isspace c then lstrip s' else s
  | [] => []
  end.

Definition rstrip (s : pystr) : pystr := reverse (lstrip (reverse s)).

Definition strip (s : pystr) : pystr := rstrip (lstrip s).

(** Truth value of a [str]. *)
Definition str_truthy (s : pystr) : bool :=
  match s with [] => false | _ :: _ => true end.

(** The answer of [read_watermark_text] is well formed: [None], or a
    string that is not empty and neither starts nor ends with a
    whitespace character. *)
Definition stripped_or_none (r : option pystr) : Prop :=
  match r with
  | None => True
  | Some s =>
      s <> []
      /\ (forall c, head s = Some c -> isspace c = false)
      /\ (forall c, last s = Some c -> isspace c = false)
  end.

Section ReadText.
Variable env : Env.

(** The body shared by the two [with open(...)] blocks:
<<
    text = f.read().strip()
    return text if text else None
>> *)
Definition read_and_strip (content : Outcome pystr) : M World (option pystr) :=
  do raw <- lift content;
  let text := strip raw in
  ret (if str_truthy text then Some text else None).

Definition read_watermark_text (text_file_path : string) : M World (option pystr) :=
  try_except
    (read_and_strip (read_text_utf8 env text_file_path))
    (fun e =>
       if is_UnicodeDecodeError e then
         (* except UnicodeDecodeError: *)
         try_except
           (read_and_strip (read_text_default env text_file_path))
           (fun e' =>
              do_ print env ("Error reading text file " +:+ text_file_path
                             +:+ ": " +:+ exn_str e');
              ret None)
       else
         (* except Exception as e: *)
         do_ print env ("Error reading text file " +:+ text_file_path
                        +:+ ": " +:+ exn_str e);
         ret None).
End ReadText.

(** ** [apply_text_watermark] *)

(** [range(lo, hi)] *)
Definition range (lo hi : Z) : list Z := seqZ lo (hi - lo).

(** [for x in xs: body x], in the state and exception monad. *)
Fixpoint for_each {S A} (xs : list A) (body : A -> M S unit) : M S unit :=
  match xs with
  | [] => ret tt
  | x :: rest => do_ body x; for_each rest body
  end.

(** The origin of the text for an anchor, from the size of the image
    and of the measured text (the [if]/[elif] chain on [position]). *)
Definition text_origin (position : string) (padding : Z)
    (image_width image_height text_width text_height : Z) : Z * Z :=
  if String.eqb position "bottom-left" then
    (padding, image_height - text_height - padding)
  else if String.eqb position "bottom-right" then
    (image_width - text_width - padding, image_height - text_height - padding)
  else if String.eqb position "top-left" then
    (padding, padding)
  else if String.eqb position "top-right" then
    (image_width - text_width - padding, padding)
  else
    (padding, image_height - text_height - padding).

Section Text.
Variable env : Env.

(** [draw.text(xy, text, font=font, fill=fill)] on the image that
    the [ImageDraw] object wraps: the image is changed in place. *)
Definition ImageDraw_text (xy : Z * Z) (text : pystr) (font : Font) (fill : Color)
  : M Image unit :=
  fun image =>
    match draw_text env image xy text font fill with
    | Ok image' => (Ok tt, image')
    | Raise e => (Raise e, image)
    end.

(** The state is the image object passed as [image]; the function
    returns that same object, so its result is the final state. *)
Definition apply_text_watermark (text : pystr) (font : Font)
    (position : string) (padding : Z) (color outline_color : Color)
    (outline_width : Z) : M Image unit :=
  fun image =>
  (do bbox <- lift (textbbox env text font);
   let '(b0, b1, b2, b3) := bbox in
   let text_width := b2 - b0 in
   let text_height := b3 - b1 in
   let '(x, y) := text_origin position padding
                    (width image) (height image) text_width text_height in
   do_ for_each (range (- outline_width) (outline_width + 1)) (fun offset_x =>
         for_each (range (- outline_width) (outline_width + 1)) (fun offset_y =>
           if negb (offset_x =? 0)%Z || negb (offset_y =? 0)%Z then
             ImageDraw_text (x + offset_x, y + offset_y) text font outline_color
           else ret tt));
   ImageDraw_text (x, y) text font color) image.
End Text.

(** *** The draws of [apply_text_watermark], as a list *)

(** The offsets at which the outline is drawn: every pair of the two
    ranges except [(0, 0)], in the order of the loops. *)
Definition outline_offsets (outline_width : Z) : list (Z * Z) :=
  filter (fun d => fst d <> 0 \/ snd d <> 0)
    (list_prod (range (- outline_width) (outline_width + 1))
               (range (- outline_width) (outline_width + 1))).

(** The outline draw at an offset from the origin. *)
Definition outline_call (origin : Z * Z) (outline_color : Color) (d : Z * Z)
  : (Z * Z) * Color :=
  ((fst origin + fst d, snd origin + snd d), outline_color).

(** A sequence of [draw.text] calls on one image, first to last. *)
Definition draw_calls (env : Env) (text : pystr) (font : Font)
    (calls : list ((Z * Z) * Color)) : M Image unit :=
  for_each calls (fun c => ImageDraw_text env (fst c) text font (snd c)).

(** The four anchors that [apply_text_watermark] knows. *)
Definition anchors : list string :=
  ["bottom-left"; "bottom-right"; "top-left"; "top-right"].

(** ** Python numbers *)

(** Python's [float] is binary64. *)
Definition prec : Z := 53.
Definition emax : Z := 1024.

Definition obind {A B} (o : Outcome A) (k : A -> Outcome B) : Outcome B :=
  match o with
  | Ok a => k a
  | Raise e => Raise e
  end.

(** [float(n)] for an int, as done by [n * x] with [x] a float: the
    nearest binary64, or [OverflowError]. *)
Definition float_of_int (n : Z) : Outcome spec_float :=
  match binary_normalize prec emax n 0 false with
  | S754_infinity _ =>
      Raise (mkExn OverflowError "int too large to convert to float")
  | f => Ok f
  end.

(** [n * x] for an int [n] and a float [x]. *)
Definition int_mul_float (n : Z) (x : spec_float) : Outcome spec_float :=
  obind (float_of_int n) (fun fn => Ok (SFmul prec emax fn x)).

(** [a / b] for two ints: the binary64 nearest to the quotient. *)
Definition int_truediv (a b : Z) : Outcome spec_float :=
  if (b =? 0)%Z then Raise (mkExn ZeroDivisionError "division by zero")
  else if (a =? 0)%Z then Ok (S754_zero (b <? 0)%Z)
  else
    let '(mz, ez, lz) := SFdiv_core_binary prec emax (Z.abs a) 0 (Z.abs b) 0 in
    match binary_round_aux prec emax (xorb (a <? 0)%Z (b <? 0)%Z) mz ez lz with
    | S754_infinity _ =>
        Raise (mkExn OverflowError "integer division result too large for a float")
    | f => Ok f
    end.

(** [int(x)] for a float: truncation toward zero. *)
Definition int_of_float (x : spec_float) : Outcome Z :=
  match x with
  | S754_zero _ => Ok 0
  | S754_finite s m e =>
      Ok (cond_Zopp s (if (0 <=? e)%Z then Z.shiftl (Zpos m) e
                       else Z.shiftr (Zpos m) (- e)))
  | S754_infinity _ =>
      Raise (mkExn OverflowError "cannot convert float infinity to integer")
  | S754_nan =>
      Raise (mkExn ValueError "cannot convert float NaN to integer")
  end.

(** The exact value of a finite float, as a fraction with a positive
    denominator. *)
Definition float_ratio (x : spec_float) : option (Z * Z) :=
  match x with
  | S754_zero _ => Some (0, 1)
  | S754_finite s m e =>
      Some (if (0 <=? e)%Z then (cond_Zopp s (Zpos m * 2 ^ e), 1)
            else (cond_Zopp s (Zpos m), 2 ^ (- e)))
  | _ => None
  end.

(** The specification's [round]: [n] is an integer nearest to the
    fraction [num / den] (of positive denominator). *)
Definition rounds_to (n num den : Z) : Prop :=
  2 * Z.abs (n * den - num) <= den.

(** The state of SpecFloat's right shift ([shr]) on the mantissa of the
    fraction [N / D]: the mantissa is the floor of the fraction, and a
    set round bit means that the remainder is at least half of [D]. *)
Definition rec_ok (N D : Z) (mrs : shr_record) : Prop :=
  shr_m mrs = N / D /\ (shr_r mrs = true -> D <= 2 * (N mod D)).

(** The float literals of the module and of the specification. *)
Definition float_0_15 : spec_float := S754_finite false 5404319552844595 (-55).
Definition float_0_18 : spec_float := S754_finite false 6485183463413514 (-55).
Definition float_0_2 : spec_float := S754_finite false 7205759403792794 (-55).
Definition float_0_75 : spec_float := S754_finite false 6755399441055744 (-53).

(** ** Pillow's image operations *)

Definition mode_eqb (a b : Mode) : bool :=
  match a, b with
  | ModeRGBA, ModeRGBA | ModeLA, ModeLA | ModeL, ModeL | Mode1, Mode1
  | ModeRGB, ModeRGB | ModeP, ModeP | ModeOther, ModeOther => true
  | _, _ => false
  end.

(** [Image.new(mode, (w, h), color)] *)
Definition Image_new (m : Mode) (w h : Z) (color : Pixel) : Image :=
  {| mode := m; width := w; height := h; pixel := fun _ _ => color |}.

(** [im.convert(target)] for the two targets the module converts to:
    RGBA keeps the colour, RGB drops the alpha channel. *)
Definition convert (target : Mode) (im : Image) : Image :=
  {| mode := target; width := width im; height := height im;
     pixel := fun x y =>
       let p := pixel im x y in
       match target with
       | ModeRGBA => p
       | _ => mkPixel (chR p) (chG p) (chB p) 255
       end |}.

(** [im.split()[3]] of an RGBA image: its alpha band, of mode L. *)
Definition alpha_band (im : Image) : Image :=
  {| mode := ModeL; width := width im; height := height im;
     pixel := fun x y => let a := chA (pixel im x y) in mkPixel a a a 255 |}.

(** The macros of Pillow's [Paste.c]. *)
Definition MULDIV255 (a b : Z) : Z :=
  let tmp := a * b + 128 in Z.shiftr (Z.shiftr tmp 8 + tmp) 8.

Definition BLEND8 (mask in1 in2 : Z) : Z :=
  MULDIV255 in1 (255 - mask) + MULDIV255 in2 mask.

Definition blend_pixel (mask : Z) (out inp : Pixel) : Pixel :=
  mkPixel (BLEND8 mask (chR out) (chR inp)) (BLEND8 mask (chG out) (chG inp))
          (BLEND8 mask (chB out) (chB inp)) (BLEND8 mask (chA out) (chA inp)).

(** The matte that an image gives when it is passed as [mask]: the
    alpha channel of RGBA and LA, the grey level of L and 1; any other
    mode is refused by Pillow ("bad transparency mask"). *)
Definition mask_of (im : Image) : option (Z -> Z -> Z) :=
  match mode im with
  | ModeRGBA | ModeLA => Some (fun x y => chA (pixel im x y))
  | ModeL | Mode1 => Some (fun x y => chR (pixel im x y))
  | _ => None
  end.

(** Is [(x, y)] inside the rectangle of size [w] x [h] at [(x0, y0)]? *)
Definition in_box (x0 y0 w h x y : Z) : bool :=
  (x0 <=? x)%Z && (x <? x0 + w)%Z && (y0 <=? y)%Z && (y <? y0 + h)%Z.

(** The clipping of [ImagingPaste], along one axis: what is left of
    a side of [size] pixels placed at [d0] on an image of [out_size]
    pixels.
<<
      if (dx0 < 0) { xsize += dx0, sx0 = -dx0, dx0 = 0; }
      if (dx0 + xsize > imOut->xsize) { xsize = imOut->xsize - dx0; }
>> *)
Definition clipped_size (d0 size out_size : Z) : Z :=
  let '(size, d0) := if (d0 <? 0)%Z then (size + d0, 0) else (size, d0) in
  if (out_size <? d0 + size)%Z then out_size - d0 else size.

(** [dst.paste(src, (x0, y0), mask)].  The rectangle is clipped to
    [dst] first: when nothing of it lies on [dst] the call returns
    without looking at the mask.  Otherwise every channel inside the
    clipped rectangle is blended by the matte; [src] is first
    converted to the mode of [dst]. *)
Definition paste (dst src : Image) (box : Z * Z) (mask : Image) : Outcome Image :=
  let '(x0, y0) := box in
  if (clipped_size x0 (width src) (width dst) <=? 0)%Z
     || (clipped_size y0 (height src) (height dst) <=? 0)%Z
  then Ok dst
  else
    match mask_of mask with
    | None => Raise (mkExn ValueError "bad transparency mask")
    | Some matte =>
        let src' := if mode_eqb (mode src) (mode dst) then src
                    else convert (mode dst) src in
        Ok {| mode := mode dst; width := width dst; height := height dst;
              pixel := fun x y =>
                if in_box x0 y0 (width src) (height src) x y
                   && in_box 0 0 (width dst) (height dst) x y
                then blend_pixel (matte (x - x0) (y - y0))
                                 (pixel dst x y) (pixel src' (x - x0) (y - y0))
                else pixel dst x y |}
    end.

(** The macro of Pillow's [AlphaComposite.c]. *)
Definition SHIFTFORDIV255 (a : Z) : Z := Z.shiftr (Z.shiftr a 8 + a) 8.

Definition PRECISION_BITS : Z := 7.

Definition alpha_composite_pixel (dst src : Pixel) : Pixel :=
  if (chA src =? 0)%Z then dst
  else
    let blend := chA dst * (255 - chA src) in
    let outa255 := chA src * 255 + blend in
    let coef1 := chA src * 255 * 255 * Z.shiftl 1 PRECISION_BITS / outa255 in
    let coef2 := 255 * Z.shiftl 1 PRECISION_BITS - coef1 in
    let channel s d :=
      Z.shiftr (SHIFTFORDIV255 (s * coef1 + d * coef2
                                + Z.shiftl 128 PRECISION_BITS)) PRECISION_BITS in
    mkPixel (channel (chR src) (chR dst)) (channel (chG src) (chG dst))
            (channel (chB src) (chB dst)) (SHIFTFORDIV255 (outa255 + 128)).

(** [Image.alpha_composite(im1, im2)] *)
Definition alpha_composite (im1 im2 : Image) : Outcome Image :=
  if negb (mode_eqb (mode im1) ModeRGBA && mode_eqb (mode im2) ModeRGBA) then
    Raise (mkExn ValueError "image has wrong mode")
  else if negb ((width im1 =? width im2)%Z && (height im1 =? height im2)%Z) then
    Raise (mkExn ValueError "images do not match")
  else
    Ok {| mode := ModeRGBA; width := width im1; height := height im1;
          pixel := fun x y => alpha_composite_pixel (pixel im1 x y) (pixel im2 x y) |}.

(** ** [apply_watermark] *)

(** Run a computation on an image object and hand back the object. *)
Definition with_image {A} (image : Image) (m : M (World * Image) A) : M World Image :=
  fun w =>
    match m (w, image) with
    | (Ok _, (w', image')) => (Ok image', w')
    | (Raise e, (w', _)) => (Raise e, w')
    end.

Definition lift_world {A} (m : M World A) : M (World * Image) A :=
  fun '(w, image) => let '(r, w') := m w in (r, (w', image)).

Definition lift_image {A} (m : M Image A) : M (World * Image) A :=
  fun '(w, image) => let '(r, image') := m image in (r, (w, image')).

(** Truth value of [watermark_path] / [text_watermark]. *)
Definition path_truthy (p : option string) : bool :=
  match p with
  | Some (String _ _) => true
  | _ => false
  end.

Definition text_truthy (t : option pystr) : bool :=
  match t with
  | Some s => str_truthy s
  | None => false
  end.

(** The size of the resized watermark:
<<
      watermark_width = int(base_image.width * scale_factor)
      watermark_height = int(watermark_width * watermark.height / watermark.width)
>> *)
Definition watermark_size (base_width : Z) (scale_factor : spec_float)
    (wm_width wm_height : Z) : Outcome (Z * Z) :=
  obind (int_mul_float base_width scale_factor) (fun p =>
  obind (int_of_float p) (fun watermark_width =>
  obind (int_truediv (watermark_width * wm_height) wm_width) (fun q =>
  obind (int_of_float q) (fun watermark_height =>
  Ok (watermark_width, watermark_height))))).

(** The position of the watermark: bottom-right with padding. *)
Definition watermark_position (base : Image) (watermark_width watermark_height padding : Z)
  : Z * Z :=
  (width base - watermark_width - padding,
   height base - watermark_height - padding).

(** The transparent layer with the watermark pasted, composed over
    the output image:
<<
      transparent = Image.new('RGBA', base_image.size, (0, 0, 0, 0))
      transparent.paste(watermark, position, watermark)
      output_image = Image.alpha_composite(output_image, transparent)
>> *)
Definition composite_watermark (base_image output_image watermark : Image)
    (position : Z * Z) : Outcome Image :=
  let transparent :=
    Image_new ModeRGBA (width base_image) (height base_image) (mkPixel 0 0 0 0) in
  obind (paste transparent watermark position watermark) (fun transparent =>
  alpha_composite output_image transparent).

(** The alpha that a watermark placed at [position] contributes at
    the pixel [(x, y)] of the base: its matte inside the pasted
    rectangle, nothing outside. *)
Definition overlay_alpha (watermark : Image) (position : Z * Z) (x y : Z) : Z :=
  if in_box (fst position) (snd position) (width watermark) (height watermark) x y
  then match mask_of watermark with
       | Some matte => matte (x - fst position) (y - snd position)
       | None => 0
       end
  else 0.

(** Does the int fit a C int? *)
Definition c_int (n : Z) : bool := (- 2 ^ 31 <=? n)%Z && (n <=? 2 ^ 31 - 1)%Z.

Section Pipeline.
Variable env : Env.

(** [im.resize((w, h), Image.Resampling.LANCZOS)].  Pillow takes the
    two sizes as C ints, width first, then refuses a side below one
    pixel, then builds the image. *)
Definition resize (im : Image) (w h : Z) : Outcome Image :=
  if negb (c_int w) then Raise (mkExn OverflowError (overflow_text env w))
  else if negb (c_int h) then Raise (mkExn OverflowError (overflow_text env h))
  else if (w <? 1)%Z || (h <? 1)%Z then
    Raise (mkExn ValueError "height and width must be > 0")
  else
    match resize_error env im w h with
    | Some e => Raise e
    | None =>
        Ok {| mode := mode im; width := w; height := h;
              pixel := lanczos env im w h |}
    end.

(** The watermark file opened and resized, with its position. *)
Definition load_watermark (base_image : Image) (watermark_path : string)
    (scale_factor : spec_float) (padding : Z) : Outcome (Image * (Z * Z)) :=
  obind (image_open env watermark_path) (fun watermark =>
  obind (watermark_size (width base_image) scale_factor
                        (width watermark) (height watermark)) (fun size =>
  let '(watermark_width, watermark_height) := size in
  obind (resize watermark watermark_width watermark_height) (fun watermark =>
  Ok (watermark,
      watermark_position base_image watermark_width watermark_height padding)))).

(** The body of [if watermark_path and os.path.exists(watermark_path):]. *)
Definition apply_image_watermark (base_image output_image : Image)
    (watermark_path : string) (scale_factor : spec_float) (padding : Z)
  : Outcome Image :=
  obind (load_watermark base_image watermark_path scale_factor padding) (fun wp =>
  composite_watermark base_image output_image (fst wp) (snd wp)).

(** The body of [if text_watermark:], a [try] block. *)
Definition text_step (text_watermark : pystr) (font_size : Z)
    (text_color : Color) (text_padding : Z) (text_outline_color : Color)
    (text_outline_width : Z) : M (World * Image) unit :=
  try_except
    (do font <- lift_world (load_font env "Times New Roman" font_size);
     lift_image (apply_text_watermark env text_watermark font "bottom-left"
                   text_padding text_color text_outline_color text_outline_width))
    (fun e =>
       lift_world (print env ("Error applying text watermark: " +:+ exn_str e))).

(** The RGBA image pasted on a white RGB background, for JPEG. *)
Definition flatten_on_white (output_image : Image) : Outcome Image :=
  let final_image :=
    Image_new ModeRGB (width output_image) (height output_image)
              (mkPixel 255 255 255 255) in
  paste final_image output_image (0, 0) (alpha_band output_image).

(** [os.makedirs(path, exist_ok=True)] *)
Definition os_makedirs (path : string) : M World unit :=
  match makedirs_error env path with
  | None => ret tt
  | Some e => raise e
  end.

(** [im.save(path, quality=95)] *)
Definition Image_save (im : Image) (path : string) : M World unit :=
  match save_error env path im with
  | Some e => raise e
  | None =>
      fun w => (Ok tt, {| font_cache := font_cache w; stdout := stdout w;
                          probes := probes w;
                          saved := saved w ++ [(path, im)] |})
  end.

(** Lines 279-301: the image watermark, applied when a path is
    given and the file exists. *)
Definition image_stage (base_image output_image : Image)
    (watermark_path : option string) (scale_factor : spec_float) (padding : Z)
  : M World Image :=
  if path_truthy watermark_path then
    let p := default "" watermark_path in
    do present <- path_exists env p;
    if present : bool then
      lift (apply_image_watermark base_image output_image p scale_factor padding)
    else ret output_image
  else ret output_image.

(** Lines 303-321: the text watermark, applied when [text_watermark]
    is true. *)
Definition text_stage (output_image : Image) (text_watermark : option pystr)
    (font_size : Z) (text_color : Color) (text_padding : Z)
    (text_outline_color : Color) (text_outline_width : Z) : M World Image :=
  if text_truthy text_watermark then
    with_image output_image
      (text_step (default [] text_watermark) font_size text_color text_padding
                 text_outline_color text_outline_width)
  else ret output_image.

(** Lines 323-336: flatten for JPEG, create the directory, save. *)
Definition save_stage (output_image : Image) (output_path : string) : M World unit :=
  let output_extension := lower (splitext_ext env output_path) in
  do final_image <-
    (if str_in output_extension [".jpg"; ".jpeg"]
     then lift (flatten_on_white output_image)
     else ret output_image);
  do_ os_makedirs (dirname env output_path);
  Image_save final_image output_path.

Definition apply_watermark (image_path : string) (watermark_path : option string)
    (output_path : string) (scale_factor : spec_float) (padding : Z)
    (text_watermark : option pystr) (font_size : Z) (text_color : Color)
    (text_padding : Z) (text_outline_color : Color) (text_outline_width : Z)
  : M World unit :=
  do base_image <- lift (image_open env image_path);
  let base_image :=
    if mode_eqb (mode base_image) ModeRGBA then base_image
    else convert ModeRGBA base_image in
  let output_image := base_image in
  do output_image <-
    image_stage base_image output_image watermark_path scale_factor padding;
  do output_image <-
    text_stage output_image text_watermark font_size text_color text_padding
               text_outline_color text_outline_width;
  save_stage output_image output_path.
End Pipeline.

(** ** [find_text_file] and [process_images] *)

(** The two families of [os.path]: [posixpath] and [ntpath]. *)
Inductive Platform := Posix | Windows.

(** [os.sep] and [os.altsep]: the slash alone on POSIX, the backslash
    and the slash on Windows. *)
Definition os_sep (pf : Platform) : ascii :=
  match pf with
  | Posix => "/"%char
  | Windows => ascii_of_nat 92
  end.

Definition os_altsep (pf : Platform) : option ascii :=
  match pf with
  | Posix => None
  | Windows => Some "/"%char
  end.

(** What the batch asks of [os.path], [glob] and the console, beside
    the oracle of [apply_watermark]. *)
Record BatchEnv := mkBatchEnv {
  (* Pillow and the file system *)
  machine : Env;
  (* which [os.path] is loaded *)
  platform : Platform;
  (* os.path.join(a, *p) *)
  os_path_join : string -> list string -> string;
  (* os.path.relpath(path, start) *)
  os_path_relpath : string -> string -> Outcome string;
  (* glob.glob(pattern, recursive=True); each pattern is globbed once *)
  glob_glob : string -> list string;
  (* str.lower() of a path *)
  path_lower : string -> string;
  (* the characters that [print] writes for a str read from a file, or
     the UnicodeEncodeError of a console whose encoding lacks one of
     them *)
  stdout_encode : pystr -> Outcome string
}.

(** [p.rfind(c)], counted from [i]: the index of the last [c] in [p],
    -1 when there is none. *)
Fixpoint rfind_from (c : ascii) (p : list ascii) (i : Z) : Z :=
  match p with
  | [] => -1
  | a :: rest =>
      let later := rfind_from c rest (i + 1) in
      if (0 <=? later)%Z then later
      else if Ascii.eqb a c then i else -1
  end.

Definition rfind (c : ascii) (p : list ascii) : Z := rfind_from c p 0.

(** [p[i:j]] for [0 <= i]. *)
Definition slice {A} (i j : Z) (p : list A) : list A :=
  take (Z.to_nat (j - i)) (drop (Z.to_nat i) p).

(** The loop of [genericpath._splitext] that skips the leading dots
    of the file name: does it meet a character other than the dot?
<<
      while filenameIndex < dotIndex:
          if p[filenameIndex:filenameIndex+1] != extsep:
              return p[:dotIndex], p[dotIndex:]
          filenameIndex += 1
>> *)
Fixpoint meets_non_dot (name : list ascii) : bool :=
  match name with
  | [] => false
  | c :: rest => if Ascii.eqb c "."%char then meets_non_dot rest else true
  end.

(** [os.path.splitext(p)], which is [genericpath._splitext(p, sep,
    altsep, '.')]. *)
Definition os_path_splitext (pf : Platform) (p : string) : string * string :=
  let chars := list_ascii_of_string p in
  let sepIndex := rfind (os_sep pf) chars in
  let sepIndex :=
    match os_altsep pf with
    | Some altsep => Z.max sepIndex (rfind altsep chars)
    | None => sepIndex
    end in
  let dotIndex := rfind "."%char chars in
  if (sepIndex <? dotIndex)%Z
     && meets_non_dot (slice (sepIndex + 1) dotIndex chars)
  then (string_of_list_ascii (take (Z.to_nat dotIndex) chars),
        string_of_list_ascii (drop (Z.to_nat dotIndex) chars))
  else (p, "").

Definition image_extensions : list string :=
  [ "*.jpg"; "*.jpeg"; "*.png"; "*.bmp"; "*.tiff";
    "*.JPG"; "*.JPEG"; "*.PNG"; "*.BMP"; "*.TIFF" ].

Section Batch.
Variable benv : BatchEnv.

Definition find_text_file (image_path : string) : M World (option string) :=
  let base_path := fst (os_path_splitext (platform benv) image_path) in
  let text_file_path := base_path +:+ ".txt" in
  do present <- path_exists (machine benv) text_file_path;
  if present : bool then ret (Some text_file_path) else ret None.

(** Lines 381-387: the text of the sidecar file, announced on the
    console when there is one. *)
Definition sidecar_text (image_path rel_path : string) : M World (option pystr) :=
  do text_file_path <- find_text_file image_path;
  if path_truthy text_file_path then
    do text_watermark <-
      read_watermark_text (machine benv) (default "" text_file_path);
    if text_truthy text_watermark then
      do shown <- lift (stdout_encode benv (default [] text_watermark));
      do_ print (machine benv)
                ("Found text watermark for " +:+ rel_path +:+ ": " +:+ shown);
      ret text_watermark
    else ret text_watermark
  else ret None.

(** Lines 377-403: the body of the inner loop, for a path that was
    not processed before.  The outline colour and width are not
    passed, so the defaults of [apply_watermark] apply. *)
Definition process_image (input_folder output_folder : string)
    (watermark_path : option string) (scale_factor : spec_float) (padding : Z)
    (font_size : Z) (text_color : Color) (text_padding : Z)
    (image_path : string) : M World unit :=
  do rel_path <- lift (os_path_relpath benv image_path input_folder);
  let output_path := os_path_join benv output_folder [rel_path] in
  do text_watermark <- sidecar_text image_path rel_path;
  try_except
    (do_ apply_watermark (machine benv) image_path watermark_path output_path
           scale_factor padding text_watermark font_size text_color
           text_padding (0, 0, 0) 2;
     print (machine benv) ("Processed: " +:+ rel_path))
    (fun e =>
       print (machine benv)
             ("Error processing " +:+ rel_path +:+ ": " +:+ exn_str e)).

(** The inner loop, [for image_path in glob.glob(pattern,
    recursive=True)], with the set [processed_files] passed along. *)
Fixpoint process_paths (input_folder output_folder : string)
    (watermark_path : option string) (scale_factor : spec_float) (padding : Z)
    (font_size : Z) (text_color : Color) (text_padding : Z)
    (paths : list string) (processed_files : gset string)
  : M World (gset string) :=
  match paths with
  | [] => ret processed_files
  | image_path :: rest =>
      if decide (path_lower benv image_path ∈ processed_files) then
        process_paths input_folder output_folder watermark_path scale_factor
          padding font_size text_color text_padding rest processed_files
      else
        let processed_files := {[ path_lower benv image_path ]} ∪ processed_files in
        do_ process_image input_folder output_folder watermark_path scale_factor
              padding font_size text_color text_padding image_path;
        process_paths input_folder output_folder watermark_path scale_factor
          padding font_size text_color text_padding rest processed_files
  end.

(** The outer loop, [for extension in image_extensions]. *)
Fixpoint process_extensions (input_folder output_folder : string)
    (watermark_path : option string) (scale_factor : spec_float) (padding : Z)
    (font_size : Z) (text_color : Color) (text_padding : Z)
    (extensions : list string) (processed_files : gset string)
  : M World (gset string) :=
  match extensions with
  | [] => ret processed_files
  | extension :: rest =>
      let pattern := os_path_join benv input_folder ["**"; extension] in
      do processed_files <-
        process_paths input_folder output_folder watermark_path scale_factor
          padding font_size text_color text_padding (glob_glob benv pattern)
          processed_files;
      process_extensions input_folder output_folder watermark_path scale_factor
        padding font_size text_color text_padding rest processed_files
  end.

Definition process_images (input_folder output_folder : string)
    (watermark_path : option string) (scale_factor : spec_float) (padding : Z)
    (font_size : Z) (text_color : Color) (text_padding : Z) : M World unit :=
  do_ process_extensions input_folder output_folder watermark_path scale_factor
        padding font_size text_color text_padding image_extensions ∅;
  ret tt.

(** The script: [if __name__ == "__main__":]. *)
Definition main : M World unit :=
  process_images "input" "output" (Some "watermark.png") float_0_18 300 40
                 (255, 255, 255) 20.
End Batch.

(** ** The preview of [app.py] *)

(** [app.py], lines 164-172: the position of the logo for an anchor;
    top-left is the [else] branch. *)
Definition logo_pos (logo_position : string)
    (img_width img_height logo_width logo_height logo_padding : Z) : Z * Z :=
  if String.eqb logo_position "bottom-right" then
    (img_width - logo_width - logo_padding,
     img_height - logo_height - logo_padding)
  else if String.eqb logo_position "bottom-left" then
    (logo_padding, img_height - logo_height - logo_padding)
  else if String.eqb logo_position "top-right" then
    (img_width - logo_width - logo_padding, logo_padding)
  else
    (logo_padding, logo_padding).

(** What the page shows: the preview, and the messages of [st.error]
    in the order they were raised. *)
Record Shown := mkShown {
  preview_image : Image;
  st_errors : list string
}.

Section App.
Variable env : Env.

(** [app.py], lines 156-177: the body of the [try] of the logo step.
    [opened] is what [Image.open(uploaded_logo)] gives. *)
Definition apply_logo (opened : Outcome Image) (img_width img_height : Z)
    (watermarked_image : Image) (logo_scale : spec_float)
    (logo_position : string) (logo_padding : Z) : Outcome Image :=
  obind opened (fun logo =>
  obind (watermark_size img_width logo_scale (width logo) (height logo))
        (fun size =>
  let '(logo_width, logo_height) := size in
  obind (resize env logo logo_width logo_height) (fun logo =>
  composite_watermark watermarked_image watermarked_image logo
    (logo_pos logo_position img_width img_height logo_width logo_height
              logo_padding)))).

(** [app.py], lines 183-196: the [try] of the text step; its value is
    the message passed to [st.error], if any. *)
Definition preview_text_step (text_watermark : pystr) (font_size : Z)
    (text_position : string) (text_padding : Z)
    (text_color_rgb outline_color_rgb : Color) (outline_width : Z)
  : M (World * Image) (option string) :=
  try_except
    (do font <- lift_world (load_font env "Times New Roman" font_size);
     do_ lift_image (apply_text_watermark env text_watermark font text_position
                       text_padding text_color_rgb outline_color_rgb
                       outline_width);
     ret None)
    (fun e => ret (Some ("Error applying text: " +:+ exn_str e))).

(** [app.py], lines 146-199: the image passed to [st.image], from the
    opened upload and the values of the widgets.  [uploaded_logo] is
    [None] when no logo is uploaded. *)
Definition watermarked_preview (image : Image)
    (uploaded_logo : option (Outcome Image)) (logo_scale : spec_float)
    (logo_position : string) (logo_padding : Z)
    (text_watermark : pystr) (font_size : Z) (text_position : string)
    (text_padding : Z) (text_color_rgb outline_color_rgb : Color)
    (outline_width : Z) : M World Shown :=
  let img_width := width image in
  let img_height := height image in
  let watermarked_image :=
    if mode_eqb (mode image) ModeRGBA then image else convert ModeRGBA image in
  let after_logo :=
    match uploaded_logo with
    | Some opened =>
        match apply_logo opened img_width img_height watermarked_image
                         logo_scale logo_position logo_padding with
        | Ok marked => mkShown marked []
        | Raise e =>
            mkShown watermarked_image ["Error applying logo: " +:+ exn_str e]
        end
    | None => mkShown watermarked_image []
    end in
  if str_truthy text_watermark then
    fun w =>
      match preview_text_step text_watermark font_size text_position
              text_padding text_color_rgb outline_color_rgb outline_width
              (w, preview_image after_logo) with
      | (Ok message, (w', watermarked_image)) =>
          (Ok (mkShown watermarked_image
                 (st_errors after_logo
                  ++ match message with Some m => [m] | None => [] end)%list),
           w')
      | (Raise e, (w', _)) => (Raise e, w')
      end
  else ret after_logo.
End App.

(** ** Reference definitions for the further properties *)

(** A console that writes every line. *)
Definition console_writes (env : Env) : Prop :=
  forall line, stdout_error env line = None.

(** The content that [read_watermark_text] works on: what the UTF-8
    read returns or, when that read raises [UnicodeDecodeError], what
    the read in the default encoding returns; or the error that ends
    the reads. *)
Definition read_decoded (env : Env) (text_file_path : string) : Outcome pystr :=
  match read_text_utf8 env text_file_path with
  | Ok raw => Ok raw
  | Raise e =>
      if is_UnicodeDecodeError e then read_text_default env text_file_path
      else Raise e
  end.

(** The box that [textbbox] reports for a text drawn at [origin]: the
    box measured at (0, 0), moved by the origin
    ([ImageDraw.textbbox] adds [xy] to the box of the font). *)
Definition drawn_box (origin : Z * Z) (bbox : Z * Z * Z * Z) : Z * Z * Z * Z :=
  let '(b0, b1, b2, b3) := bbox in
  (fst origin + b0, snd origin + b1, fst origin + b2, snd origin + b3).

(** Does FreeType load the file (or the font name) at the size? *)
Definition font_loads (env : Env) (size : Z) (path : string) : bool :=
  match truetype_error env path size with
  | None => true
  | Some _ => false
  end.

(** The candidate paths that [load_font] walks for a family name. *)
Definition family_paths (font_name : string) : list string :=
  if str_in (lower font_name) ["times new roman"; "times"] then times_paths
  else if String.eqb (lower font_name) "inter" then inter_paths
  else [].

(** The font that [load_font] selects on a console that writes every
    line, as a function of the oracle alone: the first candidate of
    the family that exists and loads, else the first fallback name
    that loads, else the default font. *)
Definition resolve_font (env : Env) (font_name : string) (font_size : Z) : Font :=
  match List.find (fun p => os_path_exists env p && font_loads env font_size p)
                  (family_paths font_name) with
  | Some p => TrueType p font_size
  | None =>
      match List.find (font_loads env font_size) fallback_fonts with
      | Some p => TrueType p font_size
      | None => DefaultFont
      end
  end.

(** Every font in the cache is the one [load_font] selects for the
    request it is stored under. *)
Definition cache_consistent (env : Env) (w : World) : Prop :=
  forall font_name font_size f,
    font_cache w !! cache_key font_name font_size = Some f ->
    f = resolve_font env font_name font_size.

(** [l1] is an initial segment of [l2]: a log that only grew. *)
Definition grew {A} (l1 l2 : list A) : Prop := exists l, l2 = (l1 ++ l)%list.

(** What a loop of [load_font] may change in the world: it leaves the
    cache and the saved files alone and only appends to the logs. *)
Definition only_logs (w w' : World) : Prop :=
  font_cache w' = font_cache w /\ saved w' = saved w
  /\ grew (stdout w) (stdout w') /\ grew (probes w) (probes w').

(** A string without the character "_". *)
Fixpoint no_underscore (s : string) : Prop :=
  match s with
  | EmptyString => True
  | String c s' => c <> "_"%char /\ no_underscore s'
  end.

(** A pixel whose four channels are bytes. *)
Definition pixel_in_range (p : Pixel) : Prop :=
  0 <= chR p <= 255 /\ 0 <= chG p <= 255 /\ 0 <= chB p <= 255
  /\ 0 <= chA p <= 255.

(** A check of a property of bytes on each of the 256 bytes. *)
Definition all_bytes (f : Z -> bool) : bool := forallb f (seqZ 0 256).

(** The paths that pass the test on [processed_files]: the first path
    of each key, in order, among those whose key is not in [seen]. *)
Fixpoint first_by_key (key : string -> string) (paths : list string)
    (seen : gset string) : list string :=
  match paths with
  | [] => []
  | p :: rest =>
      if decide (key p ∈ seen) then first_by_key key rest seen
      else p :: first_by_key key rest ({[ key p ]} ∪ seen)
  end.

(** Every path that the ten patterns find, in the order of the loops. *)
Definition globbed (benv : BatchEnv) (input_folder : string) : list string :=
  flat_map (fun extension =>
              glob_glob benv (os_path_join benv input_folder ["**"; extension]))
           image_extensions.

(** The paths that [process_images] works on. *)
Definition handled_paths (benv : BatchEnv) (input_folder : string) : list string :=
  first_by_key (path_lower benv) (globbed benv input_folder) ∅.

(** The path where [find_text_file] looks for the text of an image. *)
Definition sidecar_path (benv : BatchEnv) (image_path : string) : string :=
  fst (os_path_splitext (platform benv) image_path) +:+ ".txt".

(** Is the character a path separator of the platform? *)
Definition is_separator (pf : Platform) (c : ascii) : bool :=
  Ascii.eqb c (os_sep pf)
  || match os_altsep pf with
     | Some altsep => Ascii.eqb c altsep
     | None => false
     end.

(** A file that the batch may write: at the output folder joined with
    the relative path of one of the images found. *)
Definition batch_output (benv : BatchEnv) (input_folder output_folder : string)
    (out : string * Image) : Prop :=
  exists image_path rel_path,
    image_path ∈ globbed benv input_folder
    /\ os_path_relpath benv image_path input_folder = Ok rel_path
    /\ fst out = os_path_join benv output_folder [rel_path].

(** What may stop the batch: an error of [os.path.relpath] on a path
    found, or an error of the console, on a text read from a file or
    on a line. *)
Definition console_or_path_error (benv : BatchEnv) (input_folder : string)
    (e : Exn) : Prop :=
  (exists p, p ∈ globbed benv input_folder
             /\ os_path_relpath benv p input_folder = Raise e)
  \/ (exists t, stdout_encode benv t = Raise e)
  \/ (exists line, stdout_error (machine benv) line = Some e).

(** The world after a part of the batch: the files saved are those
    saved before and some outputs of the batch. *)
Definition wrote_outputs (benv : BatchEnv) (input_folder output_folder : string)
    (w w' : World) : Prop :=
  exists outs,
    saved w' = (saved w ++ outs)%list
    /\ Forall (batch_output benv input_folder output_folder) outs.

(** ** Sample inputs

    Concrete oracles and images on which the functions are run. *)

Definition white : Color := (255, 255, 255).
Definition black : Color := (0, 0, 0).

(** The text "PROOF". *)
Definition text_PROOF : pystr := [80; 82; 79; 79; 70]%N.

(** A photograph of 1000 x 800 opaque grey pixels. *)
Definition sample_base : Image :=
  {| mode := ModeRGB; width := 1000; height := 800;
     pixel := fun _ _ => mkPixel 128 128 128 255 |}.

(** A logo of 400 x 300 pixels, red and opaque on its left half,
    fully transparent on its right half. *)
Definition sample_logo : Image :=
  {| mode := ModeRGBA; width := 400; height := 300;
     pixel := fun x _ => if (x <? 200)%Z then mkPixel 255 0 0 255
                         else mkPixel 0 0 0 0 |}.

(** The photograph once converted to RGBA. *)
Definition sample_rgba : Image := convert ModeRGBA sample_base.

(** A machine with no font file, a photograph, a logo and a sidecar
    text; glyphs are 10 x 12 blocks, resampling takes the nearest
    source pixel. *)
Definition sample_env : Env :=
  {| os_path_exists := fun p =>
       String.eqb p "input/a.png" || String.eqb p "watermark.png";
     truetype_error := fun _ _ => Some (mkExn OSError "cannot open resource");
     read_text_utf8 := fun _ => Ok text_PROOF;
     read_text_default := fun _ => Ok text_PROOF;
     image_open := fun p =>
       if String.eqb p "input/a.png" then Ok sample_base
       else if String.eqb p "watermark.png" then Ok sample_logo
       else Raise (mkExn OSError "No such file or directory");
     lanczos := fun im w h x y => pixel im (x * width im / w) (y * height im / h);
     textbbox := fun text _ => Ok (0, 0, 10 * Z.of_nat (length text), 12);
     draw_text := fun im xy text _ fill =>
       Ok {| mode := mode im; width := width im; height := height im;
             pixel := fun x y =>
               if in_box (fst xy) (snd xy) (10 * Z.of_nat (length text)) 12 x y
               then mkPixel (fst (fst fill)) (snd (fst fill)) (snd fill) 255
               else pixel im x y |};
     splitext_ext := fun _ => ".png";
     dirname := fun _ => "output";
     makedirs_error := fun _ => None;
     save_error := fun _ _ => None;
     resize_error := fun _ _ _ => None;
     overflow_text := fun _ => "signed integer is greater than maximum";
     stdout_error := fun _ => None |}.

(** The same machine, where the file "watermark.png" exists but does
    not hold an image. *)
Definition broken_logo_env : Env :=
  {| os_path_exists := os_path_exists sample_env;
     truetype_error := truetype_error sample_env;
     read_text_utf8 := read_text_utf8 sample_env;
     read_text_default := read_text_default sample_env;
     image_open := fun p =>
       if String.eqb p "watermark.png"
       then Raise (mkExn OSError "cannot identify image file")
       else image_open sample_env p;
     lanczos := lanczos sample_env;
     textbbox := textbbox sample_env;
     draw_text := draw_text sample_env;
     splitext_ext := splitext_ext sample_env;
     dirname := dirname sample_env;
     makedirs_error := makedirs_error sample_env;
     save_error := save_error sample_env;
     resize_error := resize_error sample_env;
     overflow_text := overflow_text sample_env;
     stdout_error := stdout_error sample_env |}.

(** A Linux machine: the Liberation Serif file is installed and loads,
    no other font does. *)
Definition linux_env : Env :=
  {| os_path_exists := fun p =>
       String.eqb p "/usr/share/fonts/truetype/liberation/LiberationSerif-Regular.ttf"
       || os_path_exists sample_env p;
     truetype_error := fun p _ =>
       if String.eqb p "/usr/share/fonts/truetype/liberation/LiberationSerif-Regular.ttf"
       then None else Some (mkExn OSError "cannot open resource");
     read_text_utf8 := read_text_utf8 sample_env;
     read_text_default := read_text_default sample_env;
     image_open := image_open sample_env;
     lanczos := lanczos sample_env;
     textbbox := textbbox sample_env;
     draw_text := draw_text sample_env;
     splitext_ext := splitext_ext sample_env;
     dirname := dirname sample_env;
     makedirs_error := makedirs_error sample_env;
     save_error := save_error sample_env;
     resize_error := resize_error sample_env;
     overflow_text := overflow_text sample_env;
     stdout_error := stdout_error sample_env |}.

(** The sample machine with sidecar text files: "input/a.txt" holds
    "  PROOF" and a newline, "input/blank.txt" holds only whitespace,
    "input/latin1.txt" is not valid UTF-8 but reads as "PROOF" in the
    default encoding, "input/locked.txt" cannot be read. *)
Definition sidecar_env : Env :=
  {| os_path_exists := fun p =>
       os_path_exists sample_env p
       || str_in p ["input/a.txt"; "input/blank.txt"; "input/latin1.txt";
                    "input/locked.txt"];
     truetype_error := truetype_error sample_env;
     read_text_utf8 := fun p =>
       if String.eqb p "input/a.txt" then Ok ([32; 32] ++ text_PROOF ++ [10])%N%list
       else if String.eqb p "input/blank.txt" then Ok [32; 9; 10]%N
       else if String.eqb p "input/latin1.txt"
       then Raise (mkExn UnicodeDecodeError "invalid start byte")
       else Raise (mkExn OSError "Permission denied");
     read_text_default := fun p =>
       if String.eqb p "input/latin1.txt" then Ok text_PROOF
       else Raise (mkExn OSError "Permission denied");
     image_open := image_open sample_env;
     lanczos := lanczos sample_env;
     textbbox := textbbox sample_env;
     draw_text := draw_text sample_env;
     splitext_ext := splitext_ext sample_env;
     dirname := dirname sample_env;
     makedirs_error := makedirs_error sample_env;
     save_error := save_error sample_env;
     resize_error := resize_error sample_env;
     overflow_text := overflow_text sample_env;
     stdout_error := stdout_error sample_env |}.

(** The sample machine with a font that knows Latin-1 only: measuring
    a text with a code point above 255 raises, and so does drawing in
    pure white. *)
Definition picky_env : Env :=
  {| os_path_exists := os_path_exists sample_env;
     truetype_error := truetype_error sample_env;
     read_text_utf8 := read_text_utf8 sample_env;
     read_text_default := read_text_default sample_env;
     image_open := image_open sample_env;
     lanczos := lanczos sample_env;
     textbbox := fun text font =>
       if existsb (fun c => (255 <? c)%N) text
       then Raise (mkExn OtherException "codec cannot encode character")
       else textbbox sample_env text font;
     draw_text := fun im xy text font fill =>
       if (fst (fst fill) =? 255)%Z && (snd (fst fill) =? 255)%Z
          && (snd fill =? 255)%Z
       then Raise (mkExn OtherException "cannot draw")
       else draw_text sample_env im xy text font fill;
     splitext_ext := splitext_ext sample_env;
     dirname := dirname sample_env;
     makedirs_error := makedirs_error sample_env;
     save_error := save_error sample_env;
     resize_error := resize_error sample_env;
     overflow_text := overflow_text sample_env;
     stdout_error := stdout_error sample_env |}.

(** The sample machine, where paths end in ".JPG". *)
Definition jpeg_env : Env :=
  {| os_path_exists := os_path_exists sample_env;
     truetype_error := truetype_error sample_env;
     read_text_utf8 := read_text_utf8 sample_env;
     read_text_default := read_text_default sample_env;
     image_open := image_open sample_env;
     lanczos := lanczos sample_env;
     textbbox := textbbox sample_env;
     draw_text := draw_text sample_env;
     splitext_ext := fun _ => ".JPG";
     dirname := dirname sample_env;
     makedirs_error := makedirs_error sample_env;
     save_error := save_error sample_env;
     resize_error := resize_error sample_env;
     overflow_text := overflow_text sample_env;
     stdout_error := stdout_error sample_env |}.

(** A POSIX machine with the sidecar files, where both "*.png" and
    "*.PNG" find the photograph "input/a.png" (a file system that
    ignores letter case); the console writes every text (the low byte
    of a code point stands for its encoding). *)
Definition sample_batch : BatchEnv :=
  {| machine := sidecar_env;
     platform := Posix;
     os_path_join := fun a ps => fold_left (fun acc b => acc +:+ "/" +:+ b) ps a;
     os_path_relpath := fun path start =>
       Ok (String.substring (S (String.length start))
             (String.length path - S (String.length start))%nat path);
     glob_glob := fun pattern =>
       if String.eqb pattern "input/**/*.png" then ["input/a.png"]
       else if String.eqb pattern "input/**/*.PNG" then ["input/a.png"]
       else [];
     path_lower := lower;
     stdout_encode := fun t => Ok (string_of_list_ascii (map ascii_of_N t)) |}.

(** The same machine, where "input/a.txt" holds the copyright sign
    and "PROOF". *)
Definition copyright_env : Env :=
  {| os_path_exists := os_path_exists sidecar_env;
     truetype_error := truetype_error sidecar_env;
     read_text_utf8 := fun p =>
       if String.eqb p "input/a.txt" then Ok ([169; 32] ++ text_PROOF)%N%list
       else read_text_utf8 sidecar_env p;
     read_text_default := read_text_default sidecar_env;
     image_open := image_open sidecar_env;
     lanczos := lanczos sidecar_env;
     textbbox := textbbox sidecar_env;
     draw_text := draw_text sidecar_env;
     splitext_ext := splitext_ext sidecar_env;
     dirname := dirname sidecar_env;
     makedirs_error := makedirs_error sidecar_env;
     save_error := save_error sidecar_env;
     resize_error := resize_error sidecar_env;
     overflow_text := overflow_text sidecar_env;
     stdout_error := stdout_error sidecar_env |}.

(** The batch on that machine, with a console that writes ASCII
    only. *)
Definition ascii_console_batch : BatchEnv :=
  {| machine := copyright_env;
     platform := platform sample_batch;
     os_path_join := os_path_join sample_batch;
     os_path_relpath := os_path_relpath sample_batch;
     glob_glob := glob_glob sample_batch;
     path_lower := path_lower sample_batch;
     stdout_encode := fun t =>
       if forallb (fun c => (c <? 128)%N) t
       then stdout_encode sample_batch t
       else Raise (mkExn ValueError "'ascii' codec can't encode character") |}.




(** * Properties *)

(** ** The monad *)

Lemma bind_ok {S A B} (m : M S A) (k : A -> M S B) s a s' :
  m s = (Ok a, s') -> bind m k s = k a s'.
Proof. intros H. unfold bind. now rewrite H. Qed.

Lemma bind_raise {S A B} (m : M S A) (k : A -> M S B) s e s' :
  m s = (Raise e, s') -> bind m k s = (Raise e, s').
Proof. intros H. unfold bind. now rewrite H. Qed.

(** A handler that cannot raise makes the whole [try] statement
    unable to raise. *)
Lemma try_except_total {S A} (m : M S A) (h : Exn -> M S A) :
  (forall e s, exists a s', h e s = (Ok a, s')) ->
  forall s, exists a s', try_except m h s = (Ok a, s').
Proof.
  intros Hh s. unfold try_except.
  destruct (m s) as [[a | e] s1]; [now exists a, s1 | apply Hh].
Qed.

(** ** [print] and the logs *)

Lemma print_ok env line w :
  stdout_error env line = None ->
  print env line w
  = (Ok tt, {| font_cache := font_cache w; stdout := stdout w ++ [line];
               probes := probes w; saved := saved w |}).
Proof. intros H. unfold print. now rewrite H. Qed.

Lemma print_raise env line w e :
  stdout_error env line = Some e -> print env line w = (Raise e, w).
Proof. intros H. unfold print. now rewrite H. Qed.

Lemma grew_refl {A} (l : list A) : grew l l.
Proof. exists []. now rewrite app_nil_r. Qed.

Lemma grew_app {A} (l k : list A) : grew l (l ++ k).
Proof. now exists k. Qed.

Lemma grew_trans {A} (l1 l2 l3 : list A) : grew l1 l2 -> grew l2 l3 -> grew l1 l3.
Proof. intros [a ->] [b ->]. exists (a ++ b)%list. now rewrite app_assoc. Qed.

Lemma only_logs_refl w : only_logs w w.
Proof. repeat split; apply grew_refl. Qed.

Lemma only_logs_trans w1 w2 w3 :
  only_logs w1 w2 -> only_logs w2 w3 -> only_logs w1 w3.
Proof.
  intros (A1 & A2 & A3 & A4) (B1 & B2 & B3 & B4). repeat split.
  - congruence.
  - congruence.
  - eapply grew_trans; eassumption.
  - eapply grew_trans; eassumption.
Qed.

(** Whether it writes the line or raises, [print] changes nothing but
    the output. *)
Lemma only_logs_print env line w : only_logs w (snd (print env line w)).
Proof.
  unfold print. destruct (stdout_error env line); [apply only_logs_refl |].
  repeat split; cbn; [apply grew_app | apply grew_refl].
Qed.

(** A line printed in an [except] block: the block then returns its
    value, or [print] raises and nothing is written. *)
Lemma print_then_ret {A} env line (x : A) w r w' :
  (do_ print env line; ret x) w = (r, w') ->
  only_logs w w'
  /\ match r with
     | Ok y => y = x /\ stdout_error env line = None
               /\ stdout w' = (stdout w ++ [line])%list
     | Raise e => w' = w /\ stdout_error env line = Some e
     end.
Proof.
  unfold bind, print, ret. destruct (stdout_error env line) as [e |].
  - intros [= <- <-]. split; [apply only_logs_refl | auto].
  - intros [= <- <-]. split; [| auto].
    repeat split; cbn; [apply grew_app | apply grew_refl].
Qed.

Lemma only_logs_probe p w : only_logs w (snd (record_probe p w)).
Proof. repeat split; cbn; [apply grew_refl | apply grew_app]. Qed.

(** ** [load_font] *)

Section FontFacts.
Variable env : Env.

Lemma path_exists_eq path w :
  path_exists env path w
  = (Ok (os_path_exists env path), snd (record_probe (ProbeExists path) w)).
Proof. reflexivity. Qed.

(** One attempt at a file: the probe is recorded, and the face is
    there when FreeType loads the file. *)
Lemma load_attempt path size w :
  try_except (do f <- ImageFont_truetype env path size; ret (Some f))
             (fun _ => ret None) w
  = (Ok (if font_loads env size path then Some (TrueType path size) else None),
     snd (record_probe (ProbeTruetype path size) w)).
Proof.
  unfold try_except, bind, ImageFont_truetype, bind, record_probe, font_loads.
  destruct (truetype_error env path size); reflexivity.
Qed.

(** The message about a loaded font: written, or refused and
    skipped. *)
Lemma announce line w :
  try_except (do_ print env line; ret true) (fun _ => ret false) w
  = match stdout_error env line with
    | None => (Ok true, snd (print env line w))
    | Some _ => (Ok false, w)
    end.
Proof.
  unfold try_except, bind, print. destruct (stdout_error env line); reflexivity.
Qed.

(** One turn of the loop over the candidate paths. *)
Lemma try_font_paths_cons label p rest size font w :
  try_font_paths env label (p :: rest) size font w
  = let w1 := snd (record_probe (ProbeExists p) w) in
    if os_path_exists env p then
      let w2 := snd (record_probe (ProbeTruetype p size) w1) in
      if font_loads env size p then
        match stdout_error env ("Loaded " +:+ label +:+ " font from: " +:+ p) with
        | None =>
            (Ok (Some (TrueType p size)),
             snd (print env ("Loaded " +:+ label +:+ " font from: " +:+ p) w2))
        | Some _ =>
            try_font_paths env label rest size (Some (TrueType p size)) w2
        end
      else try_font_paths env label rest size font w2
    else try_font_paths env label rest size font w1.
Proof.
  cbn [try_font_paths]. rewrite (bind_ok _ _ _ _ _ (path_exists_eq p w)).
  cbv zeta. destruct (os_path_exists env p); [| reflexivity].
  rewrite (bind_ok _ _ _ _ _ (load_attempt p size _)).
  destruct (font_loads env size p); [| reflexivity].
  unfold bind at 1. rewrite announce.
  destruct (stdout_error env _); reflexivity.
Qed.

(** One turn of the loop over the fallback names. *)
Lemma try_fallback_fonts_cons p rest size font w :
  try_fallback_fonts env (p :: rest) size font w
  = let w2 := snd (record_probe (ProbeTruetype p size) w) in
    if font_loads env size p then
      match stdout_error env ("Using fallback font: " +:+ p) with
      | None =>
          (Ok (Some (TrueType p size)),
           snd (print env ("Using fallback font: " +:+ p) w2))
      | Some _ => try_fallback_fonts env rest size (Some (TrueType p size)) w2
      end
    else try_fallback_fonts env rest size font w2.
Proof.
  cbn [try_fallback_fonts].
  rewrite (bind_ok _ _ _ _ _ (load_attempt p size _)). cbv zeta.
  destruct (font_loads env size p); [| reflexivity].
  unfold bind at 1. rewrite announce.
  destruct (stdout_error env _); reflexivity.
Qed.

(** The loops never raise and change nothing but the logs. *)
Lemma try_font_paths_total label paths size font w :
  exists r w',
    try_font_paths env label paths size font w = (Ok r, w') /\ only_logs w w'.
Proof.
  revert font w. induction paths as [| p rest IH]; intros font w.
  - exists font, w. split; [reflexivity | apply only_logs_refl].
  - rewrite try_font_paths_cons. cbv zeta.
    pose proof (only_logs_probe (ProbeExists p) w) as L1.
    set (w1 := snd (record_probe (ProbeExists p) w)) in *.
    pose proof (only_logs_probe (ProbeTruetype p size) w1) as L2.
    set (w2 := snd (record_probe (ProbeTruetype p size) w1)) in *.
    destruct (os_path_exists env p).
    + destruct (font_loads env size p).
      * pose proof (only_logs_print env
                      ("Loaded " +:+ label +:+ " font from: " +:+ p) w2) as L3.
        destruct (stdout_error env _).
        -- destruct (IH (Some (TrueType p size)) w2) as (r & w' & E & L).
           exists r, w'. split; [exact E |]. eauto using only_logs_trans.
        -- eexists _, _. split; [reflexivity |]. eauto using only_logs_trans.
      * destruct (IH font w2) as (r & w' & E & L).
        exists r, w'. split; [exact E |]. eauto using only_logs_trans.
    + destruct (IH font w1) as (r & w' & E & L).
      exists r, w'. split; [exact E |]. eauto using only_logs_trans.
Qed.

Lemma try_fallback_fonts_total names size font w :
  exists r w',
    try_fallback_fonts env names size font w = (Ok r, w') /\ only_logs w w'.
Proof.
  revert font w. induction names as [| p rest IH]; intros font w.
  - exists font, w. split; [reflexivity | apply only_logs_refl].
  - rewrite try_fallback_fonts_cons. cbv zeta.
    pose proof (only_logs_probe (ProbeTruetype p size) w) as L2.
    set (w2 := snd (record_probe (ProbeTruetype p size) w)) in *.
    destruct (font_loads env size p).
    + pose proof (only_logs_print env ("Using fallback font: " +:+ p) w2) as L3.
      destruct (stdout_error env _).
      * destruct (IH (Some (TrueType p size)) w2) as (r & w' & E & L).
        exists r, w'. split; [exact E |]. eauto using only_logs_trans.
      * eexists _, _. split; [reflexivity |]. eauto using only_logs_trans.
    + destruct (IH font w2) as (r & w' & E & L).
      exists r, w'. split; [exact E |]. eauto using only_logs_trans.
Qed.

(** On a console that writes every line, the loop over the candidate
    paths stops at the first path that exists and loads. *)
Lemma try_font_paths_find label paths size font w :
  console_writes env ->
  exists w',
    try_font_paths env label paths size font w
    = (Ok match List.find (fun p => os_path_exists env p && font_loads env size p)
                          paths with
          | Some p => Some (TrueType p size)
          | None => font
          end, w')
    /\ only_logs w w'.
Proof.
  intros Hc. revert w. induction paths as [| p rest IH]; intros w.
  - exists w. split; [reflexivity | apply only_logs_refl].
  - rewrite try_font_paths_cons. cbv zeta. cbn [List.find].
    pose proof (only_logs_probe (ProbeExists p) w) as L1.
    set (w1 := snd (record_probe (ProbeExists p) w)) in *.
    pose proof (only_logs_probe (ProbeTruetype p size) w1) as L2.
    set (w2 := snd (record_probe (ProbeTruetype p size) w1)) in *.
    destruct (os_path_exists env p); cbn [andb].
    + destruct (font_loads env size p).
      * pose proof (only_logs_print env
                      ("Loaded " +:+ label +:+ " font from: " +:+ p) w2) as L3.
        rewrite Hc. eexists. split; [reflexivity |].
        eauto using only_logs_trans.
      * destruct (IH w2) as (w' & E & L).
        exists w'. split; [exact E |]. eauto using only_logs_trans.
    + destruct (IH w1) as (w' & E & L).
      exists w'. split; [exact E |]. eauto using only_logs_trans.
Qed.

(** On such a console the loop over the fallback names stops at the
    first name that loads. *)
Lemma try_fallback_fonts_find names size font w :
  console_writes env ->
  exists w',
    try_fallback_fonts env names size font w
    = (Ok match List.find (font_loads env size) names with
          | Some p => Some (TrueType p size)
          | None => font
          end, w')
    /\ only_logs w w'.
Proof.
  intros Hc. revert w. induction names as [| p rest IH]; intros w.
  - exists w. split; [reflexivity | apply only_logs_refl].
  - rewrite try_fallback_fonts_cons. cbv zeta. cbn [List.find].
    pose proof (only_logs_probe (ProbeTruetype p size) w) as L2.
    set (w2 := snd (record_probe (ProbeTruetype p size) w)) in *.
    destruct (font_loads env size p).
    + pose proof (only_logs_print env ("Using fallback font: " +:+ p) w2) as L3.
      rewrite Hc. eexists. split; [reflexivity |]. eauto using only_logs_trans.
    + destruct (IH w2) as (w' & E & L).
      exists w'. split; [exact E |]. eauto using only_logs_trans.
Qed.

(** A hit in the cache answers at once: nothing is probed, printed
    or stored. *)
Lemma load_font_hit font_name font_size w f :
  font_cache w !! cache_key font_name font_size = Some f ->
  load_font env font_name font_size w = (Ok f, w).
Proof.
  intros H. unfold load_font, bind, cache_lookup. now rewrite H.
Qed.

(** The family loop of [load_font], whichever branch is taken. *)
Lemma family_loop_total (font_name : string) size w :
  exists r w',
    (if str_in (lower font_name) ["times new roman"; "times"]
     then try_font_paths env "Times New Roman" times_paths size None
     else if String.eqb (lower font_name) "inter"
     then try_font_paths env "Inter" inter_paths size None
     else ret None) w = (Ok r, w')
    /\ only_logs w w'.
Proof.
  destruct (str_in _ _); [apply try_font_paths_total |].
  destruct (String.eqb _ _); [apply try_font_paths_total |].
  exists None, w. split; [reflexivity | apply only_logs_refl].
Qed.

Lemma family_loop_find (font_name : string) size w :
  console_writes env ->
  exists w',
    (if str_in (lower font_name) ["times new roman"; "times"]
     then try_font_paths env "Times New Roman" times_paths size None
     else if String.eqb (lower font_name) "inter"
     then try_font_paths env "Inter" inter_paths size None
     else ret None) w
    = (Ok (option_map (fun p => TrueType p size)
             (List.find (fun p => os_path_exists env p && font_loads env size p)
                        (family_paths font_name))), w')
    /\ only_logs w w'.
Proof.
  intros Hc. unfold family_paths.
  destruct (str_in _ _).
  - destruct (try_font_paths_find "Times New Roman" times_paths size None w Hc)
      as (w' & E & L).
    exists w'. split; [| exact L]. rewrite E. now destruct (List.find _ _).
  - destruct (String.eqb _ _).
    + destruct (try_font_paths_find "Inter" inter_paths size None w Hc)
        as (w' & E & L).
      exists w'. split; [| exact L]. rewrite E. now destruct (List.find _ _).
    + exists w. split; [reflexivity | apply only_logs_refl].
Qed.

(** What a call of [load_font] may change, whether it returns or
    raises: it saves no file, only appends to the logs, and touches
    no cache entry but the one of its request, which it sets when it
    returns.  It raises only what the console raises on a warning. *)
Lemma load_font_frame font_name font_size w r w' :
  load_font env font_name font_size w = (r, w') ->
  saved w' = saved w
  /\ grew (stdout w) (stdout w') /\ grew (probes w) (probes w')
  /\ (forall k, k <> cache_key font_name font_size ->
                font_cache w' !! k = font_cache w !! k)
  /\ match r with
     | Ok f => font_cache w' !! cache_key font_name font_size = Some f
     | Raise e =>
         font_cache w' = font_cache w
         /\ font_cache w !! cache_key font_name font_size = None
         /\ exists line, stdout_error env line = Some e
     end.
Proof.
  destruct (font_cache w !! cache_key font_name font_size) as [g |] eqn:Hk.
  - rewrite (load_font_hit _ _ _ _ Hk). intros [= <- <-].
    repeat split; try apply grew_refl; auto.
  - unfold load_font. unfold bind at 1, cache_lookup at 1. rewrite Hk.
    destruct (family_loop_total font_name font_size w) as (r1 & w1 & E1 & L1).
    rewrite (bind_ok _ _ _ _ _ E1).
    assert (Hstore : forall f u, only_logs w u ->
              forall r0 w0,
              (do_ cache_store (cache_key font_name font_size) f; ret f) u
              = (r0, w0) ->
              saved w0 = saved w
              /\ grew (stdout w) (stdout w0) /\ grew (probes w) (probes w0)
              /\ (forall k, k <> cache_key font_name font_size ->
                            font_cache w0 !! k = font_cache w !! k)
              /\ match r0 with
                 | Ok f0 =>
                     font_cache w0 !! cache_key font_name font_size = Some f0
                 | Raise e =>
                     font_cache w0 = font_cache w
                     /\ @None Font = None
                     /\ exists line, stdout_error env line = Some e
                 end).
    { intros f u (C & S & O & P) r0 w0 [= <- <-]. cbn.
      repeat split; auto.
      - intros k Hne. rewrite C. now apply lookup_insert_ne.
      - apply lookup_insert_eq. }
    assert (Hraise : forall u e line, only_logs w u ->
              stdout_error env line = Some e ->
              saved u = saved w
              /\ grew (stdout w) (stdout u) /\ grew (probes w) (probes u)
              /\ (forall k, k <> cache_key font_name font_size ->
                            font_cache u !! k = font_cache w !! k)
              /\ (font_cache u = font_cache w
                  /\ @None Font = None
                  /\ exists line, stdout_error env line = Some e)).
    { intros u e line (C & S & O & P) He. repeat split; auto.
      - intros k _. now rewrite C.
      - now exists line. }
    destruct r1 as [f1 |].
    + intros E. apply (Hstore f1 w1 L1 r w'). exact E.
    + unfold bind at 1. unfold bind at 1.
      pose proof (only_logs_print env ("Warning: " +:+ font_name
                    +:+ " font not found, trying fallback fonts...") w1) as L2.
      destruct (stdout_error env ("Warning: " +:+ font_name
                  +:+ " font not found, trying fallback fonts...")) as [e |] eqn:E2.
      * rewrite (print_raise _ _ _ _ E2). intros [= <- <-].
        eapply Hraise; eassumption.
      * destruct (print env _ w1) as [[[] | e] w2] eqn:Ep;
          [| rewrite (print_ok _ _ _ E2) in Ep; discriminate Ep].
        cbn [snd] in L2.
        destruct (try_fallback_fonts_total fallback_fonts font_size None w2)
          as (r2 & w3 & E3 & L3).
        rewrite E3.
        pose proof (only_logs_trans _ _ _ L1 (only_logs_trans _ _ _ L2 L3)) as L13.
        destruct r2 as [f2 |].
        -- intros E. apply (Hstore f2 w3 L13 r w'). exact E.
        -- unfold bind at 1. unfold bind at 1.
           pose proof (only_logs_print env ("Warning: Could not load "
                         +:+ font_name
                         +:+ " or fallback fonts, using PIL default font") w3)
             as L4.
           destruct (stdout_error env ("Warning: Could not load " +:+ font_name
                       +:+ " or fallback fonts, using PIL default font"))
             as [e |] eqn:E4.
           ++ rewrite (print_raise _ _ _ _ E4). intros [= <- <-].
              eapply Hraise; eassumption.
           ++ destruct (print env _ w3) as [[[] | e] w4] eqn:Ep4;
                [| rewrite (print_ok _ _ _ E4) in Ep4; discriminate Ep4].
              cbn [snd] in L4. intros E.
              apply (Hstore DefaultFont w4 (only_logs_trans _ _ _ L13 L4) r w').
              exact E.
Qed.

(** On a console that writes every line, a request that is not cached
    is answered by [resolve_font]; the answer is stored under the key
    of the request, nothing else in the cache changes, no file is
    saved and the logs only grow. *)
Lemma load_font_miss_resolves font_name font_size w :
  console_writes env ->
  font_cache w !! cache_key font_name font_size = None ->
  exists w',
    load_font env font_name font_size w
    = (Ok (resolve_font env font_name font_size), w')
    /\ font_cache w'
       = <[cache_key font_name font_size := resolve_font env font_name font_size]>
           (font_cache w)
    /\ saved w' = saved w
    /\ grew (stdout w) (stdout w') /\ grew (probes w) (probes w').
Proof.
  intros Hc Hmiss. unfold load_font, resolve_font.
  unfold bind at 1, cache_lookup at 1. rewrite Hmiss.
  destruct (family_loop_find font_name font_size w Hc) as (w1 & E1 & L1).
  rewrite (bind_ok _ _ _ _ _ E1).
  destruct (List.find _ (family_paths font_name)) as [p |]; cbn [option_map].
  - destruct L1 as (C1 & S1 & O1 & P1).
    unfold bind, ret, cache_store. cbn. eexists. split; [reflexivity |].
    cbn. rewrite C1. auto.
  - unfold bind at 1, bind at 1.
    pose proof (only_logs_print env ("Warning: " +:+ font_name
                  +:+ " font not found, trying fallback fonts...") w1) as L2.
    rewrite (print_ok _ _ _ (Hc _)) in *. cbn [snd] in L2.
    match type of L2 with only_logs _ ?u => set (w2 := u) in * end.
    destruct (try_fallback_fonts_find fallback_fonts font_size None w2 Hc)
      as (w3 & E3 & L3).
    rewrite E3.
    pose proof (only_logs_trans _ _ _ L1 (only_logs_trans _ _ _ L2 L3)) as L13.
    destruct (List.find _ fallback_fonts) as [p |].
    + destruct L13 as (C & S & O & P).
      unfold bind, ret, cache_store. cbn. eexists. split; [reflexivity |].
      cbn. rewrite C. auto.
    + unfold bind at 1, bind at 1.
      pose proof (only_logs_print env ("Warning: Could not load " +:+ font_name
                    +:+ " or fallback fonts, using PIL default font") w3) as L4.
      rewrite (print_ok _ _ _ (Hc _)) in *. cbn [snd] in L4.
      match type of L4 with only_logs _ ?u => set (w4 := u) in * end.
      clearbody w4.
      destruct (only_logs_trans _ _ _ L13 L4) as (C & S & O & P).
      unfold ImageFont_load_default, bind, ret, cache_store. cbn.
      eexists. split; [reflexivity |]. cbn. rewrite C. auto.
Qed.

(** On such a console every request is answered with a font, which is
    then cached under its key. *)
Lemma load_font_ok font_name font_size w :
  console_writes env ->
  exists f w1,
    load_font env font_name font_size w = (Ok f, w1)
    /\ font_cache w1 !! cache_key font_name font_size = Some f.
Proof.
  intros Hc.
  destruct (font_cache w !! cache_key font_name font_size) as [f |] eqn:Hk.
  - exists f, w. split; [now apply load_font_hit | exact Hk].
  - destruct (load_font_miss_resolves _ _ _ Hc Hk) as (w1 & E & C & _).
    eexists _, w1. split; [exact E |]. rewrite C. apply lookup_insert_eq.
Qed.


End FontFacts.



(** ** [read_watermark_text] *)

Lemma lstrip_suffix (s : pystr) : exists p, s = (p ++ lstrip s)%list.
Proof.
  induction s as [| c s IH]; simpl.
  - now exists [].
  - destruct (isspace c).
    + destruct IH as [p Hp]. exists (c :: p). simpl. now f_equal.
    + now exists [].
Qed.

Lemma lstrip_head (s : pystr) c : head (lstrip s) = Some c -> isspace c = false.
Proof.
  induction s as [| d s IH]; simpl; [discriminate |].
  destruct (isspace d) eqn:Hd; [exact IH |].
  simpl. intros [= <-]. exact Hd.
Qed.

Lemma rstrip_prefix (s : pystr) : exists q, s = (rstrip s ++ q)%list.
Proof.
  unfold rstrip. destruct (lstrip_suffix (reverse s)) as [p Hp].
  exists (reverse p). rewrite <- reverse_app, <- Hp. symmetry. apply reverse_involutive.
Qed.

Lemma rstrip_last (s : pystr) c : last (rstrip s) = Some c -> isspace c = false.
Proof.
  unfold rstrip. rewrite last_reverse. apply lstrip_head.
Qed.

Lemma strip_head (s : pystr) c : head (strip s) = Some c -> isspace c = false.
Proof.
  unfold strip. intros H. apply (lstrip_head s).
  destruct (rstrip_prefix (lstrip s)) as [q Hq]. rewrite Hq.
  destruct (rstrip (lstrip s)); [discriminate | exact H].
Qed.

Lemma strip_last (s : pystr) c : last (strip s) = Some c -> isspace c = false.
Proof. apply rstrip_last. Qed.

Section ReadTextFacts.
Variable env : Env.

Lemma read_and_strip_eq content w :
  read_and_strip content w =
  match content with
  | Ok raw => (Ok (if str_truthy (strip raw) then Some (strip raw) else None), w)
  | Raise e => (Raise e, w)
  end.
Proof. unfold read_and_strip, bind, lift, ret. now destruct content. Qed.

Lemma strip_answer_ok raw :
  stripped_or_none (if str_truthy (strip raw) then Some (strip raw) else None).
Proof.
  destruct (str_truthy (strip raw)) eqn:T; [| exact I].
  repeat split.
  - intros H. rewrite H in T. discriminate.
  - apply strip_head.
  - apply strip_last.
Qed.

(** [read_watermark_text] by cases on what the reads give: a content
    is trimmed and returned without a word; an error is printed, then
    [None] is returned. *)
Lemma read_watermark_text_cases text_file_path w :
  read_watermark_text env text_file_path w
  = match read_decoded env text_file_path with
    | Ok raw =>
        (Ok (if str_truthy (strip raw) then Some (strip raw) else None), w)
    | Raise e =>
        (do_ print env ("Error reading text file " +:+ text_file_path
                        +:+ ": " +:+ exn_str e);
         ret None) w
    end.
Proof.
  unfold read_watermark_text, read_decoded, try_except.
  rewrite read_and_strip_eq.
  destruct (read_text_utf8 env text_file_path) as [raw | e]; [reflexivity |].
  destruct (is_UnicodeDecodeError e); [| reflexivity].
  rewrite read_and_strip_eq.
  destruct (read_text_default env text_file_path); reflexivity.
Qed.

End ReadTextFacts.



(** ** [apply_text_watermark] *)

Lemma for_each_app {S A} (xs ys : list A) (body : A -> M S unit) s :
  for_each (xs ++ ys) body s = bind (for_each xs body) (fun _ => for_each ys body) s.
Proof.
  revert s. induction xs as [| x xs IH]; intros s; simpl; [reflexivity |].
  unfold bind. destruct (body x s) as [[[] | e] s1]; [| reflexivity].
  rewrite IH. reflexivity.
Qed.

Lemma elem_of_range lo hi x : x ∈ range lo hi <-> lo <= x < hi.
Proof. unfold range. rewrite elem_of_seqZ. lia. Qed.

Lemma NoDup_range lo hi : NoDup (range lo hi).
Proof. apply NoDup_seqZ. Qed.

Lemma length_range lo hi : Z.of_nat (length (range lo hi)) = Z.max 0 (hi - lo).
Proof. unfold range. rewrite length_seqZ. lia. Qed.

Lemma elem_of_list_prod {A B} (l : list A) (l' : list B) a b :
  (a, b) ∈ list_prod l l' <-> a ∈ l /\ b ∈ l'.
Proof. rewrite !list_elem_of_In. apply in_prod_iff. Qed.

Lemma NoDup_list_prod {A B} (l : list A) (l' : list B) :
  NoDup l -> NoDup l' -> NoDup (list_prod l l').
Proof.
  intros Hl Hl'. induction Hl as [| x l Hx Hl IH]; simpl; [constructor |].
  apply NoDup_app. split; [| split].
  - apply (NoDup_fmap_2 (pair x)). exact Hl'.
  - intros [a b] Hin Hin'.
    apply list_elem_of_fmap in Hin. destruct Hin as (b' & [= -> ->] & _).
    apply elem_of_list_prod in Hin'. now destruct Hin'.
  - exact IH.
Qed.

(** In a list without repetition, a filter that rejects exactly one
    member shortens the list by one. *)
Lemma filter_out_one {A} (P : A -> Prop) `{forall x, Decision (P x)} (a : A) (l : list A) :
  NoDup l -> a ∈ l -> (forall x, ~ P x <-> x = a) ->
  S (length (filter P l)) = length l.
Proof.
  intros Hnd Hin Hf. induction Hnd as [| x l Hx Hnd IH]; [inversion Hin |].
  rewrite filter_cons. destruct (decide (P x)) as [HP | HP].
  - simpl. f_equal. apply IH. apply elem_of_cons in Hin.
    destruct Hin as [-> | Hin]; [| exact Hin].
    exfalso. destruct (Hf x) as [_ Hc]. now apply Hc.
  - apply Hf in HP. subst x. simpl. f_equal.
    clear IH Hin Hnd. induction l as [| y l IH]; [reflexivity |].
    rewrite filter_cons. destruct (decide (P y)) as [HPy | HPy].
    + simpl. f_equal. apply IH. intros H'. apply Hx. now right.
    + apply Hf in HPy. subst y. exfalso. apply Hx. now left.
Qed.

Lemma elem_of_outline_offsets w dx dy :
  (dx, dy) ∈ outline_offsets w
  <-> - w <= dx <= w /\ - w <= dy <= w /\ (dx, dy) <> (0, 0).
Proof.
  unfold outline_offsets.
  rewrite list_elem_of_filter, elem_of_list_prod, !elem_of_range. simpl.
  split.
  - intros [H3 [H1 H2]]. repeat split; try lia.
    intros [= -> ->]. lia.
  - intros (H1 & H2 & H3). repeat split; try lia.
    destruct (decide (dx = 0)) as [-> |]; [| now left].
    destruct (decide (dy = 0)) as [-> |]; [| now right].
    now destruct H3.
Qed.

Lemma NoDup_outline_offsets w : NoDup (outline_offsets w).
Proof.
  unfold outline_offsets.
  apply NoDup_filter, NoDup_list_prod; apply NoDup_range.
Qed.

Lemma length_outline_offsets w :
  0 <= w -> Z.of_nat (length (outline_offsets w)) = (2 * w + 1) ^ 2 - 1.
Proof.
  intros Hw. unfold outline_offsets.
  set (R := range (- w) (w + 1)).
  assert (HR : Z.of_nat (length R) = 2 * w + 1)
    by (unfold R; rewrite length_range; lia).
  assert (S (length (filter (fun d : Z * Z => fst d <> 0 \/ snd d <> 0)
                            (list_prod R R))) = (length R * length R)%nat) as E.
  { rewrite <- length_prod. apply (filter_out_one _ (0, 0)).
    - apply NoDup_list_prod; apply NoDup_range.
    - apply elem_of_list_prod. unfold R. rewrite elem_of_range. lia.
    - intros [a b]. simpl. split.
      + intros Hf. f_equal; lia.
      + intros [= -> ->]. lia. }
  nia.
Qed.

Section TextFacts.
Variable env : Env.

(** The inner loop at a fixed [offset_x] is the sequence of outline
    draws at the kept offsets of that row. *)
Lemma inner_loop_draws text font x y outline_color offset_x ys image :
  for_each ys (fun offset_y =>
    if negb (offset_x =? 0)%Z || negb (offset_y =? 0)%Z then
      ImageDraw_text env (x + offset_x, y + offset_y) text font outline_color
    else ret tt) image
  = draw_calls env text font
      (map (outline_call (x, y) outline_color)
           (filter (fun d => fst d <> 0 \/ snd d <> 0) (map (pair offset_x) ys)))
      image.
Proof.
  revert image. induction ys as [| oy ys IH]; intros image; [reflexivity |].
  cbn [map for_each]. rewrite filter_cons. cbn [fst snd].
  destruct (decide (offset_x <> 0 \/ oy <> 0)) as [Hd | Hd].
  - replace (negb (offset_x =? 0)%Z || negb (oy =? 0)%Z) with true
      by (symmetry; apply orb_true_iff; rewrite !negb_true_iff, !Z.eqb_neq; exact Hd).
    unfold draw_calls. cbn [map for_each fst snd outline_call]. unfold bind.
    destruct (ImageDraw_text env _ text font outline_color image) as [[[] | e] i1];
      [| reflexivity].
    apply IH.
  - replace (negb (offset_x =? 0)%Z || negb (oy =? 0)%Z) with false
      by (symmetry; apply orb_false_iff; rewrite !negb_false_iff, !Z.eqb_eq; lia).
    unfold bind, ret. apply IH.
Qed.

(** The two nested loops are the sequence of outline draws at
    [outline_offsets]. *)
Lemma outline_loops_draws text font x y outline_color xs ys image :
  for_each xs (fun offset_x =>
    for_each ys (fun offset_y =>
      if negb (offset_x =? 0)%Z || negb (offset_y =? 0)%Z then
        ImageDraw_text env (x + offset_x, y + offset_y) text font outline_color
      else ret tt)) image
  = draw_calls env text font
      (map (outline_call (x, y) outline_color)
           (filter (fun d => fst d <> 0 \/ snd d <> 0) (list_prod xs ys)))
      image.
Proof.
  revert image. induction xs as [| ox xs IH]; intros image; [reflexivity |].
  cbn [for_each list_prod]. rewrite filter_app, map_app.
  unfold draw_calls. rewrite for_each_app. unfold bind.
  rewrite inner_loop_draws. unfold draw_calls.
  destruct (for_each _ _ image) as [[[] | e] i1]; [| reflexivity].
  apply IH.
Qed.

(** Once the text is measured, [apply_text_watermark] is the outline
    draws at [outline_offsets] around the origin of the anchor,
    followed by the fill draw at the origin. *)
Lemma apply_text_watermark_draws text font position padding color outline_color
    outline_width image b0 b1 b2 b3 :
  textbbox env text font = Ok (b0, b1, b2, b3) ->
  let origin := text_origin position padding (width image) (height image)
                            (b2 - b0) (b3 - b1) in
  apply_text_watermark env text font position padding color outline_color
                       outline_width image
  = draw_calls env text font
      (map (outline_call origin outline_color) (outline_offsets outline_width)
       ++ [(origin, color)]) image.
Proof.
  intros Hb origin. unfold apply_text_watermark.
  unfold bind at 1, lift at 1. rewrite Hb. fold origin.
  destruct origin as [x y] eqn:Ho.
  unfold draw_calls. rewrite for_each_app. unfold bind.
  rewrite outline_loops_draws. unfold draw_calls, outline_offsets.
  destruct (for_each _ _ image) as [[[] | e] i1]; [| reflexivity].
  cbn [for_each fst snd]. unfold bind, ret.
  destruct (ImageDraw_text env (x, y) text font color i1) as [[[] | e] i2]; reflexivity.
Qed.

(** C3: with the measured bounding box of the text, the origin is
    [(p, p)] for top-left, [(W - tw - p, p)] for top-right,
    [(p, H - th - p)] for bottom-left and [(W - tw - p, H - th - p)]
    for bottom-right, and every other anchor string gives the
    bottom-left origin; the draws of [apply_text_watermark] are made
    around that origin. *)
Theorem C3_text_layout_origin text font padding color outline_color
    outline_width image b0 b1 b2 b3 :
  textbbox env text font = Ok (b0, b1, b2, b3) ->
  let W := width image in
  let H := height image in
  let text_width := b2 - b0 in
  let text_height := b3 - b1 in
  let laid_out position origin :=
    text_origin position padding W H text_width text_height = origin
    /\ apply_text_watermark env text font position padding color outline_color
                            outline_width image
       = draw_calls env text font
           (map (outline_call origin outline_color) (outline_offsets outline_width)
            ++ [(origin, color)]) image in
  laid_out "top-left" (padding, padding)
  /\ laid_out "top-right" (W - text_width - padding, padding)
  /\ laid_out "bottom-left" (padding, H - text_height - padding)
  /\ laid_out "bottom-right"
              (W - text_width - padding, H - text_height - padding)
  /\ (forall position, position ∉ anchors ->
       laid_out position (padding, H - text_height - padding)).
Proof.
  intros Hb W H text_width text_height laid_out.
  assert (Hgen : forall position origin,
             text_origin position padding W H text_width text_height = origin ->
             laid_out position origin).
  { intros position origin Ho. split; [exact Ho |].
    rewrite <- Ho. now apply apply_text_watermark_draws. }
  do 4 (split; [apply Hgen; reflexivity |]).
  intros position Hn. apply Hgen. unfold text_origin, anchors in *.
  repeat match goal with
  | |- context [String.eqb ?a ?b] =>
      destruct (String.eqb_spec a b) as [-> |]; [exfalso; set_solver |]
  end.
  reflexivity.
Qed.

(** C4: the outline is drawn once at every offset [(dx, dy)] with
    [dx] and [dy] in [[-w, w]] except [(0, 0)], which makes
    [(2w+1)^2 - 1] draws in the outline colour, and the fill draw at
    the origin comes last; with [w = 0] nothing but the fill text is
    drawn. *)
Theorem C4_outline_then_fill text font position padding color outline_color
    outline_width image b0 b1 b2 b3 :
  textbbox env text font = Ok (b0, b1, b2, b3) ->
  let origin := text_origin position padding (width image) (height image)
                            (b2 - b0) (b3 - b1) in
  apply_text_watermark env text font position padding color outline_color
                       outline_width image
  = draw_calls env text font
      (map (outline_call origin outline_color) (outline_offsets outline_width)
       ++ [(origin, color)]) image
  /\ (0 < outline_width ->
      Z.of_nat (length (outline_offsets outline_width))
      = (2 * outline_width + 1) ^ 2 - 1)
  /\ NoDup (outline_offsets outline_width)
  /\ (forall dx dy,
        (dx, dy) ∈ outline_offsets outline_width
        <-> - outline_width <= dx <= outline_width
            /\ - outline_width <= dy <= outline_width
            /\ (dx, dy) <> (0, 0))
  /\ (outline_width = 0 ->
      outline_offsets outline_width = []
      /\ apply_text_watermark env text font position padding color outline_color
                              outline_width image
         = ImageDraw_text env origin text font color image).
Proof.
  intros Hb origin.
  pose proof (apply_text_watermark_draws text font position padding color
                outline_color outline_width image b0 b1 b2 b3 Hb) as Hd.
  cbv zeta in Hd. fold origin in Hd.
  split; [exact Hd |].
  split; [intros Hw; apply length_outline_offsets; lia |].
  split; [apply NoDup_outline_offsets |].
  split; [intros dx dy; apply elem_of_outline_offsets |].
  intros ->. assert (E0 : outline_offsets 0 = []) by (vm_compute; reflexivity).
  split; [exact E0 |].
  rewrite Hd, E0. unfold draw_calls. cbn [map app for_each fst snd].
  unfold bind, ret.
  destruct (ImageDraw_text env origin text font color image) as [[[] | e] i1];
    reflexivity.
Qed.
End TextFacts.

(** C3 on the sample machine: "PROOF" measures 50 x 12, so on the
    1000 x 800 photograph with padding 20 the bottom-right origin is
    [(930, 768)]. *)
Lemma C3_text_layout_origin_witness :
  text_origin "bottom-right" 20 1000 800 50 12 = (930, 768).
Proof.
  exact (proj1 (proj1 (proj2 (proj2 (proj2
    (C3_text_layout_origin sample_env text_PROOF DefaultFont 20 white black 2
       sample_base 0 0 50 12 eq_refl)))))).
Defined.

(** C4 on the sample machine: an outline of width 2 makes 24 draws. *)
Lemma C4_outline_then_fill_witness :
  Z.of_nat (length (outline_offsets 2)) = 24.
Proof.
  exact (proj1 (proj2
    (C4_outline_then_fill sample_env text_PROOF DefaultFont "bottom-left" 20
       white black 2 sample_base 0 0 50 12 eq_refl)) ltac:(lia)).
Defined.

(** ** The image watermark *)

Lemma MULDIV255_0_r a : MULDIV255 a 0 = 0.
Proof. unfold MULDIV255. rewrite Z.mul_0_r. reflexivity. Qed.

Lemma MULDIV255_0_l b : MULDIV255 0 b = 0.
Proof. unfold MULDIV255. rewrite Z.mul_0_l. reflexivity. Qed.

(** A matte of 0 leaves a channel of the destination that is 0 at 0. *)
Lemma BLEND8_transparent c : BLEND8 0 0 c = 0.
Proof. unfold BLEND8. now rewrite MULDIV255_0_l, MULDIV255_0_r. Qed.

(** Composing a pixel of alpha 0 over a pixel gives that pixel back. *)
Lemma alpha_composite_pixel_transparent dst src :
  chA src = 0 -> alpha_composite_pixel dst src = dst.
Proof. intros H. unfold alpha_composite_pixel. now rewrite H. Qed.

(** A rectangle that holds a pixel of the image is not clipped
    away. *)
Lemma clipped_size_pos d0 size out_size x :
  d0 <= x < d0 + size -> 0 <= x < out_size -> 0 < clipped_size d0 size out_size.
Proof.
  intros H1 H2. unfold clipped_size.
  destruct (Z.ltb_spec d0 0); cbn match;
    match goal with |- context [(?a <? ?b)%Z] => destruct (Z.ltb_spec a b) end;
    lia.
Qed.

Lemma in_boxes_not_clipped x0 y0 w h W H x y :
  in_box x0 y0 w h x y = true -> in_box 0 0 W H x y = true ->
  (clipped_size x0 w W <=? 0)%Z || (clipped_size y0 h H <=? 0)%Z = false.
Proof.
  unfold in_box. rewrite !andb_true_iff, !Z.leb_le, !Z.ltb_lt.
  intros [[[A1 A2] A3] A4] [[[B1 B2] B3] B4].
  pose proof (clipped_size_pos x0 w W x ltac:(lia) ltac:(lia)).
  pose proof (clipped_size_pos y0 h H y ltac:(lia) ltac:(lia)).
  apply orb_false_iff. rewrite !Z.leb_gt. lia.
Qed.

(** The layer built by [paste] on a transparent canvas has alpha 0
    wherever the placed watermark contributes alpha 0. *)
Lemma paste_on_transparent_alpha w h watermark position layer x y :
  paste (Image_new ModeRGBA w h (mkPixel 0 0 0 0)) watermark position watermark
    = Ok layer ->
  overlay_alpha watermark position x y = 0 ->
  chA (pixel layer x y) = 0.
Proof.
  unfold paste, overlay_alpha. destruct position as [x0 y0]. cbn [fst snd].
  destruct (_ || _); [now intros [= <-] |].
  destruct (mask_of watermark) as [matte |]; [| discriminate].
  intros [= <-] Ha. cbn [pixel Image_new width height].
  destruct (in_box x0 y0 (width watermark) (height watermark) x y);
    [| reflexivity].
  cbn [andb]. destruct (in_box 0 0 w h x y); [| reflexivity].
  rewrite Ha. cbn [blend_pixel chA]. apply BLEND8_transparent.
Qed.

(** C8: the compositing step returns an image in which every pixel
    where the placed watermark contributes alpha 0 (its matte is 0
    there, or the pixel is outside the pasted rectangle) is the pixel
    of the image it was composed over. *)
Theorem C8_transparent_overlay_keeps_base
    (base_image output_image watermark : Image) (position : Z * Z)
    (out : Image) (x y : Z) :
  composite_watermark base_image output_image watermark position = Ok out ->
  overlay_alpha watermark position x y = 0 ->
  pixel out x y = pixel output_image x y.
Proof.
  unfold composite_watermark, obind.
  destruct (paste _ watermark position watermark) as [layer | e] eqn:Hp;
    [| discriminate].
  unfold alpha_composite.
  destruct (negb _); [discriminate |].
  destruct (negb _); [discriminate |].
  intros [= <-] Ha. cbn [pixel].
  apply alpha_composite_pixel_transparent.
  eapply paste_on_transparent_alpha; eassumption.
Qed.

(** C8 on the sample logo placed at (10, 10) on the photograph: the
    pixel (0, 0) is outside the rectangle and the pixel (300, 100)
    lies under the transparent half of the logo; both keep the grey of
    the photograph. *)
Lemma C8_transparent_overlay_keeps_base_witness :
  exists out,
    composite_watermark sample_rgba sample_rgba sample_logo (10, 10) = Ok out
    /\ pixel out 0 0 = mkPixel 128 128 128 255
    /\ pixel out 300 100 = mkPixel 128 128 128 255.
Proof.
  assert (H : { out | composite_watermark sample_rgba sample_rgba sample_logo (10, 10)
                      = Ok out }) by (eexists; reflexivity).
  destruct H as [out H]. exists out. split; [exact H |]. split.
  - exact (C8_transparent_overlay_keeps_base _ _ _ _ out 0 0 H eq_refl).
  - exact (C8_transparent_overlay_keeps_base _ _ _ _ out 300 100 H eq_refl).
Defined.

Section WatermarkFacts.
Variable env : Env.


End WatermarkFacts.


(** ** [apply_watermark] *)

Section PipelineFacts.
Variable env : Env.

(** [apply_watermark] stage by stage. *)
Lemma apply_watermark_stages image_path watermark_path output_path scale_factor
    padding text_watermark font_size text_color text_padding
    text_outline_color text_outline_width w :
  apply_watermark env image_path watermark_path output_path scale_factor padding
    text_watermark font_size text_color text_padding text_outline_color
    text_outline_width w
  = match image_open env image_path with
    | Raise e => (Raise e, w)
    | Ok opened =>
        let base_image :=
          if mode_eqb (mode opened) ModeRGBA then opened
          else convert ModeRGBA opened in
        match image_stage env base_image base_image watermark_path
                          scale_factor padding w with
        | (Raise e, w1) => (Raise e, w1)
        | (Ok output_image, w1) =>
            match text_stage env output_image text_watermark font_size text_color
                             text_padding text_outline_color text_outline_width w1
            with
            | (Raise e, w2) => (Raise e, w2)
            | (Ok output_image', w2) => save_stage env output_image' output_path w2
            end
        end
    end.
Proof.
  unfold apply_watermark, bind at 1, lift at 1.
  destruct (image_open env image_path) as [opened | e]; [| reflexivity].
  cbv zeta. unfold bind. reflexivity.
Qed.

(** The image stage is skipped, without any effect but the probe,
    when no path is given or when the file does not exist. *)
Lemma image_stage_skipped base_image output_image watermark_path scale_factor
    padding w :
  match watermark_path with
  | Some p => p = "" \/ os_path_exists env p = false
  | None => True
  end ->
  exists w',
    image_stage env base_image output_image watermark_path scale_factor padding w
    = (Ok output_image, w')
    /\ font_cache w' = font_cache w /\ stdout w' = stdout w /\ saved w' = saved w.
Proof.
  intros H. unfold image_stage.
  destruct watermark_path as [[| c p] |]; simpl.
  - exists w. auto.
  - destruct H as [H | H]; [discriminate |].
    unfold bind, path_exists, bind, record_probe, ret. rewrite H.
    eexists. split; [reflexivity |]. auto.
  - exists w. auto.
Qed.

(** The text stage once the font is resolved: the image object after
    [apply_text_watermark], whether it returned or raised; an
    exception is printed and goes no further, unless the console
    refuses the line. *)
Lemma text_stage_runs output_image c s font_size text_color text_padding
    text_outline_color text_outline_width w font w1 :
  load_font env "Times New Roman" font_size w = (Ok font, w1) ->
  let run := apply_text_watermark env (c :: s) font "bottom-left" text_padding
               text_color text_outline_color text_outline_width output_image in
  text_stage env output_image (Some (c :: s)) font_size text_color text_padding
             text_outline_color text_outline_width w
  = match fst run with
    | Ok _ => (Ok (snd run), w1)
    | Raise e =>
        (do_ print env ("Error applying text watermark: " +:+ exn_str e);
         ret (snd run)) w1
    end.
Proof.
  intros Hf run. unfold text_stage. cbn [text_truthy str_truthy].
  change (default [] (Some (c :: s))) with (c :: s).
  unfold with_image, text_step, try_except, bind, lift_world. rewrite Hf.
  unfold lift_image. fold run.
  destruct run as [[[] | e] image']; [reflexivity |]. cbn [fst snd].
  destruct (print env _ w1) as [[[] | e'] w2]; reflexivity.
Qed.

(** The text stage when [load_font] raises: the error is printed and
    the image is handed on untouched. *)
Lemma text_stage_font_fails output_image c s font_size text_color text_padding
    text_outline_color text_outline_width w e w1 :
  load_font env "Times New Roman" font_size w = (Raise e, w1) ->
  text_stage env output_image (Some (c :: s)) font_size text_color text_padding
             text_outline_color text_outline_width w
  = (do_ print env ("Error applying text watermark: " +:+ exn_str e);
     ret output_image) w1.
Proof.
  intros Hf. unfold text_stage. cbn [text_truthy str_truthy].
  change (default [] (Some (c :: s))) with (c :: s).
  unfold with_image, text_step, try_except, bind, lift_world. rewrite Hf.
  destruct (print env _ w1) as [[[] | e'] w2]; reflexivity.
Qed.

(** On a console that writes every line the text stage never
    raises. *)
Lemma text_stage_total output_image text_watermark font_size text_color
    text_padding text_outline_color text_outline_width w :
  console_writes env ->
  exists image' w',
    text_stage env output_image text_watermark font_size text_color text_padding
               text_outline_color text_outline_width w = (Ok image', w').
Proof.
  intros Hc. destruct text_watermark as [[| c s] |].
  - exists output_image, w. reflexivity.
  - destruct (load_font_ok env "Times New Roman" font_size w Hc)
      as (f & w1 & Hf & _).
    rewrite (text_stage_runs _ _ _ _ _ _ _ _ _ _ _ Hf). cbv zeta.
    destruct (fst _); [eexists _, _; reflexivity |].
    unfold bind. rewrite (print_ok _ _ _ (Hc _)). eexists _, _. reflexivity.
  - exists output_image, w. reflexivity.
Qed.

(** Flattening on white cannot fail: the mask is an image of mode L. *)
Lemma flatten_on_white_ok output_image :
  exists final_image, flatten_on_white output_image = Ok final_image.
Proof.
  unfold flatten_on_white, paste. cbn.
  destruct (_ || _); eexists; reflexivity.
Qed.

(** The part of C1 that the code does keep: when the base image opens
    and no watermark file is there (no path, an empty path, or a path
    that does not exist), [apply_watermark] returns normally whenever
    the console writes every line, the directory can be made and the
    file written, whatever happens in the text stage, and the last
    file saved is the output. *)
Lemma missing_overlay_still_saves image_path watermark_path output_path
    scale_factor padding text_watermark font_size text_color text_padding
    text_outline_color text_outline_width w opened :
  console_writes env ->
  image_open env image_path = Ok opened ->
  match watermark_path with
  | Some p => p = "" \/ os_path_exists env p = false
  | None => True
  end ->
  makedirs_error env (dirname env output_path) = None ->
  (forall im, save_error env output_path im = None) ->
  exists final_image w',
    apply_watermark env image_path watermark_path output_path scale_factor padding
      text_watermark font_size text_color text_padding text_outline_color
      text_outline_width w = (Ok tt, w')
    /\ last (saved w') = Some (output_path, final_image).
Proof.
  intros Hc Ho Hp Hd Hs. rewrite apply_watermark_stages, Ho. cbv zeta.
  set (base_image := if mode_eqb (mode opened) ModeRGBA then opened
                     else convert ModeRGBA opened).
  destruct (image_stage_skipped base_image base_image watermark_path
              scale_factor padding w Hp) as (w1 & -> & _).
  destruct (text_stage_total base_image text_watermark font_size text_color
              text_padding text_outline_color text_outline_width w1 Hc)
    as (image' & w2 & ->).
  unfold save_stage, bind.
  assert (Hf : exists final_image,
             (if str_in (lower (splitext_ext env output_path)) [".jpg"; ".jpeg"]
              then lift (flatten_on_white image') else ret image') w2
             = (Ok final_image, w2)).
  { destruct (str_in _ _).
    - destruct (flatten_on_white_ok image') as [final_image Hfl].
      exists final_image. unfold lift. now rewrite Hfl.
    - now exists image'. }
  destruct Hf as [final_image ->].
  unfold os_makedirs, Image_save. rewrite Hd, Hs. cbn.
  exists final_image. eexists. split; [reflexivity |]. cbn.
  apply last_snoc.
Qed.

(** C6, as the code has it: the text stage runs exactly when
    [text_watermark] is a string that is not empty; the string is not
    trimmed.  With no text or the empty string the stage returns the
    image and the world as they are.  With any other string it is the
    [try] block of [text_step], which resolves the font: afterwards,
    on a console that writes every line, the cache holds the key of
    "Times New Roman" at the size. *)
Theorem C6_text_stage_runs_iff_text_not_empty output_image text_watermark font_size
    text_color text_padding text_outline_color text_outline_width w :
  let staged :=
    text_stage env output_image text_watermark font_size text_color text_padding
               text_outline_color text_outline_width w in
  let key := cache_key "Times New Roman" font_size in
  (text_watermark = None \/ text_watermark = Some [] ->
   staged = (Ok output_image, w))
  /\ (forall c s, text_watermark = Some (c :: s) ->
       staged = with_image output_image
                  (text_step env (c :: s) font_size text_color text_padding
                             text_outline_color text_outline_width) w
       /\ (console_writes env -> is_Some (font_cache (snd staged) !! key)))
  /\ (console_writes env ->
      font_cache w !! key = None ->
      (is_Some (font_cache (snd staged) !! key)
       <-> exists c s, text_watermark = Some (c :: s))).
Proof.
  intros staged key.
  assert (Hoff : text_watermark = None \/ text_watermark = Some [] ->
                 staged = (Ok output_image, w)).
  { intros [-> | ->]; reflexivity. }
  assert (Hon : console_writes env ->
                forall c s, text_watermark = Some (c :: s) ->
                  is_Some (font_cache (snd staged) !! key)).
  { intros Hc c s ->. subst staged.
    destruct (load_font_ok env "Times New Roman" font_size w Hc)
      as (f & w1 & Hf & Hk).
    rewrite (text_stage_runs _ _ _ _ _ _ _ _ _ _ _ Hf). cbv zeta.
    destruct (fst _); [now exists f |].
    unfold bind. rewrite (print_ok _ _ _ (Hc _)). cbn [snd font_cache ret].
    now exists f. }
  split; [exact Hoff |]. split.
  - intros c s Ht. split; [| intros Hc; now apply (Hon Hc c s)].
    subst staged. rewrite Ht. reflexivity.
  - intros Hc Hmiss. split.
    + intros Hk. destruct text_watermark as [[| c s] |].
      * rewrite Hoff in Hk by auto. cbn [snd] in Hk. rewrite Hmiss in Hk.
        now destruct Hk.
      * now exists c, s.
      * rewrite Hoff in Hk by auto. cbn [snd] in Hk. rewrite Hmiss in Hk.
        now destruct Hk.
    + intros (c & s & Ht). now apply (Hon Hc c s).
Qed.

(** C9: whatever the arguments of [apply_watermark], a text that is
    not empty is drawn by [apply_text_watermark] at the anchor
    "bottom-left" with the font that [load_font] resolves for the
    family "Times New Roman", which it does on every console that
    writes its lines; the image that goes to the save stage is the
    image object after that call, after the error of the call, if
    any, is printed.  [apply_watermark] has no parameter for an
    anchor or a family and takes no [WatermarkConfig]. *)
Theorem C9_text_bottom_left_times_new_roman image_path watermark_path output_path
    scale_factor padding c s font_size text_color text_padding
    text_outline_color text_outline_width w opened output_image w1 :
  image_open env image_path = Ok opened ->
  let base_image :=
    if mode_eqb (mode opened) ModeRGBA then opened else convert ModeRGBA opened in
  image_stage env base_image base_image watermark_path scale_factor padding w
    = (Ok output_image, w1) ->
  (console_writes env ->
   exists font w2, load_font env "Times New Roman" font_size w1 = (Ok font, w2))
  /\ forall font w2,
       load_font env "Times New Roman" font_size w1 = (Ok font, w2) ->
       let run := apply_text_watermark env (c :: s) font "bottom-left"
                    text_padding text_color text_outline_color
                    text_outline_width output_image in
       apply_watermark env image_path watermark_path output_path scale_factor
         padding (Some (c :: s)) font_size text_color text_padding
         text_outline_color text_outline_width w
       = match fst run with
         | Ok _ => save_stage env (snd run) output_path w2
         | Raise e =>
             (do_ print env ("Error applying text watermark: " +:+ exn_str e);
              save_stage env (snd run) output_path) w2
         end
       /\ forall b0 b1 b2 b3,
            textbbox env (c :: s) font = Ok (b0, b1, b2, b3) ->
            let origin :=
              (text_padding, height output_image - (b3 - b1) - text_padding) in
            run = draw_calls env (c :: s) font
                    (map (outline_call origin text_outline_color)
                         (outline_offsets text_outline_width)
                     ++ [(origin, text_color)]) output_image.
Proof.
  intros Ho base_image Hi. split.
  - intros Hc.
    destruct (load_font_ok env "Times New Roman" font_size w1 Hc)
      as (f & w2 & Hf & _).
    now exists f, w2.
  - intros f w2 Hf. cbv zeta. split.
    + rewrite apply_watermark_stages, Ho. cbv zeta. fold base_image. rewrite Hi.
      rewrite (text_stage_runs _ _ _ _ _ _ _ _ _ _ _ Hf). cbv zeta.
      destruct (fst _); [reflexivity |]. unfold bind.
      destruct (print env _ w2) as [[[] | e'] w3]; reflexivity.
    + intros b0 b1 b2 b3 Hb.
      apply (apply_text_watermark_draws env (c :: s) f "bottom-left" text_padding
               text_color text_outline_color text_outline_width output_image
               b0 b1 b2 b3 Hb).
Qed.
End PipelineFacts.

(** C1, where the code departs from it: the file "watermark.png"
    exists but is not an image.  [Image.open] raises inside the image
    stage, which no [try] guards: the exception leaves
    [apply_watermark], the text is not drawn and nothing is saved. *)
Theorem C1_unreadable_overlay_aborts :
  apply_watermark broken_logo_env "input/a.png" (Some "watermark.png")
    "output/a.png" float_0_15 10 (Some text_PROOF) 40 white 20 black 2 empty_world
  = (Raise (mkExn OSError "cannot identify image file"),
     {| font_cache := ∅; stdout := [];
        probes := [ProbeExists "watermark.png"]; saved := [] |}).
Proof. vm_compute. reflexivity. Qed.

(** C6 as stated fails: a text of one space is empty once trimmed,
    yet the text stage runs on it: the file system is probed for the
    font and the block of the glyph is drawn on the photograph. *)
Lemma C6_whitespace_text_is_drawn :
  strip [32%N] = []
  /\ let staged :=
       text_stage sample_env sample_rgba (Some [32%N]) 40 white 20 black 2
                  empty_world in
     is_ok (fst staged) = true
     /\ probes (snd staged) <> []
     /\ match fst staged with
        | Ok image' => pixel image' 20 770
        | Raise _ => pixel sample_rgba 20 770
        end <> pixel sample_rgba 20 770.
Proof.
  split; [reflexivity |]. cbv zeta.
  split; [vm_compute; reflexivity |].
  split; vm_compute; discriminate.
Qed.

(** C9 on the sample machine, with no image watermark: no font file
    loads, so the font of the text is the default font. *)
Lemma C9_text_bottom_left_times_new_roman_witness :
  exists font w2,
    load_font sample_env "Times New Roman" 40 empty_world = (Ok font, w2).
Proof.
  exact (proj1
    (C9_text_bottom_left_times_new_roman sample_env "input/a.png" None
       "output/a.png" float_0_15 10 80%N [82; 79; 79; 70]%N 40 white 20 black 2
       empty_world sample_base sample_rgba empty_world eq_refl eq_refl)
    (fun _ => eq_refl)).
Defined.

(** ** Binary64 division and truncation *)

(** The literals are the normal binary64 numbers nearest to 0.15,
    0.18 and 0.2 (within half a unit of the last place of the
    mantissa), and 0.75 exactly. *)
Lemma float_literals_nearest :
  float_ratio float_0_15 = Some (5404319552844595, 2 ^ 55)
  /\ 2 * Z.abs (20 * 5404319552844595 - 3 * 2 ^ 55) <= 20
  /\ float_ratio float_0_18 = Some (6485183463413514, 2 ^ 55)
  /\ 2 * Z.abs (50 * 6485183463413514 - 9 * 2 ^ 55) <= 50
  /\ float_ratio float_0_2 = Some (7205759403792794, 2 ^ 55)
  /\ 2 * Z.abs (5 * 7205759403792794 - 2 ^ 55) <= 5
  /\ float_ratio float_0_75 = Some (6755399441055744, 2 ^ 53)
  /\ 4 * 6755399441055744 = 3 * 2 ^ 53
  /\ valid_binary prec emax float_0_15 = true
  /\ valid_binary prec emax float_0_18 = true
  /\ valid_binary prec emax float_0_2 = true
  /\ valid_binary prec emax float_0_75 = true.
Proof. repeat split; vm_compute; congruence. Qed.

Lemma shr_1_spec m r s :
  0 <= m ->
  shr_m (shr_1 (Build_shr_record m r s)) = m / 2
  /\ shr_r (shr_1 (Build_shr_record m r s)) = Z.odd m.
Proof.
  intros Hm. destruct m as [| [p | p |] | p]; cbn [shr_1 shr_m shr_r]; try lia.
  - split; [reflexivity | reflexivity].
  - split; [| reflexivity].
    apply (Z.div_unique (Z.pos p~1) 2 (Z.pos p) 1); lia.
  - split; [| reflexivity].
    apply (Z.div_unique (Z.pos p~0) 2 (Z.pos p) 0); lia.
  - split; reflexivity.
Qed.

Lemma shr_1_ok N D mrs :
  0 <= N -> 0 < D -> rec_ok N D mrs -> rec_ok N (2 * D) (shr_1 mrs).
Proof.
  intros HN HD [Hm Hr]. destruct mrs as [m r s]. cbn [shr_m shr_r] in *.
  assert (Hm0 : 0 <= m) by (rewrite Hm; apply Z.div_pos; lia).
  destruct (shr_1_spec m r s Hm0) as [E1 E2].
  unfold rec_ok. rewrite E1, E2.
  assert (Hdiv : N / (2 * D) = m / 2)
    by (rewrite Hm, Z.div_div by lia; f_equal; lia).
  split; [now rewrite Hdiv |].
  intros Hodd.
  pose proof (Z.div_mod N D ltac:(lia)) as A1.
  pose proof (Z.mod_pos_bound N D HD) as B1.
  pose proof (Z.div_mod N (2 * D) ltac:(lia)) as A2.
  pose proof (Z.div_mod m 2 ltac:(lia)) as A3.
  rewrite Zmod_odd, Hodd in A3.
  rewrite <- Hm in A1. rewrite Hdiv in A2. nia.
Qed.

Lemma iter_pos_shr_1_ok p : forall N D mrs,
  0 <= N -> 0 < D -> rec_ok N D mrs ->
  rec_ok N (D * 2 ^ Zpos p) (SpecFloat.iter_pos shr_1 p mrs).
Proof.
  induction p as [p IH | p IH |]; intros N D mrs HN HD H; cbn [SpecFloat.iter_pos].
  - replace (D * 2 ^ Z.pos p~1) with (2 * D * 2 ^ Z.pos p * 2 ^ Z.pos p)
      by (replace (Z.pos p~1) with (Z.pos p + Z.pos p + 1) by lia;
          rewrite !Z.pow_add_r by lia; change (2 ^ 1) with 2; ring).
    apply IH; [lia | nia |]. apply IH; [lia | lia |]. now apply shr_1_ok.
  - replace (D * 2 ^ Z.pos p~0) with (D * 2 ^ Z.pos p * 2 ^ Z.pos p)
      by (replace (Z.pos p~0) with (Z.pos p + Z.pos p) by lia;
          rewrite !Z.pow_add_r by lia; ring).
    apply IH; [lia | nia |]. now apply IH.
  - replace (D * 2 ^ 1) with (2 * D) by lia. now apply shr_1_ok.
Qed.

Lemma shr_ok N D mrs e n :
  0 <= N -> 0 < D -> rec_ok N D mrs ->
  rec_ok N (D * 2 ^ Z.max 0 n) (fst (shr mrs e n))
  /\ snd (shr mrs e n) = e + Z.max 0 n.
Proof.
  intros HN HD H. unfold shr. destruct n as [| p | p]; cbn [fst snd].
  - change (Z.max 0 0) with 0. rewrite Z.mul_1_r, Z.add_0_r. auto.
  - replace (Z.max 0 (Z.pos p)) with (Z.pos p) by lia.
    split; [now apply iter_pos_shr_1_ok | reflexivity].
  - replace (Z.max 0 (Z.neg p)) with 0 by lia.
    change (2 ^ 0) with 1. rewrite Z.mul_1_r, Z.add_0_r. auto.
Qed.

Lemma shr_m_of_loc m l : shr_m (shr_record_of_loc m l) = m.
Proof. now destruct l as [| []]. Qed.

Lemma new_location_round b r m :
  0 < b -> 0 <= r < b ->
  shr_r (shr_record_of_loc m (new_location b r)) = true -> b <= 2 * r.
Proof.
  intros Hb Hr. unfold new_location, new_location_even, new_location_odd.
  destruct (Z.even b) eqn:Ev.
  - destruct (Z.eqb_spec r 0); [discriminate |].
    destruct (Z.compare_spec (2 * r) b); cbn; try discriminate; lia.
  - destruct (Z.eqb_spec r 0); [discriminate |].
    destruct (Z.compare_spec (2 * r + 1) b); cbn; try discriminate; lia.
Qed.

Lemma round_nearest_even_cases mrs :
  let m1 := round_nearest_even (shr_m mrs) (loc_of_shr_record mrs) in
  m1 = shr_m mrs \/ (m1 = shr_m mrs + 1 /\ shr_r mrs = true).
Proof.
  destruct mrs as [m [|] [|]]; cbn; auto.
  destruct (Z.even m); auto.
Qed.

Lemma digits2_pos_size p : digits2_pos p = Pos.size p.
Proof. induction p; cbn; now rewrite ?IHp. Qed.

Lemma Zdigits2_bounds m :
  0 < m -> 2 ^ (Zdigits2 m - 1) <= m < 2 ^ Zdigits2 m.
Proof.
  intros Hm. destruct m as [| p | p]; try lia. cbn [Zdigits2].
  rewrite digits2_pos_size.
  pose proof (Pos.size_gt p) as Hgt. pose proof (Pos.size_le p) as Hle.
  apply Pos2Z.pos_lt_pos in Hgt. apply Pos2Z.pos_le_pos in Hle.
  rewrite Pos2Z.inj_pow in Hgt, Hle.
  split; [| exact Hgt].
  replace (Z.pos (Pos.size p)) with (Z.pos (Pos.size p) - 1 + 1) in Hle by lia.
  rewrite Z.pow_add_r in Hle by lia. change (2 ^ 1) with 2 in Hle. lia.
Qed.

Lemma Zdigits2_le m k : 0 <= k -> 0 <= m < 2 ^ k -> 0 <= Zdigits2 m <= k.
Proof.
  intros Hk Hm. destruct (Z.eq_dec m 0) as [-> | Hne]; [cbn; lia |].
  pose proof (Zdigits2_bounds m ltac:(lia)) as [Hlo Hhi].
  assert (0 < Zdigits2 m) by (destruct m; cbn; lia).
  split; [lia |].
  destruct (Z.le_gt_cases (Zdigits2 m) k) as [| Hgt]; [assumption |].
  assert (2 ^ k <= 2 ^ (Zdigits2 m - 1)) by (apply Z.pow_le_mono_r; lia).
  lia.
Qed.

(** Rounding a quotient at scale [T] and truncating it back gives the
    floor of the quotient, when half a unit at scale [T] is less than
    [1 / b]. *)
Lemma round_then_truncate a b T q1 r m1 :
  0 < b -> 0 < T -> b < 2 * T -> 0 <= a ->
  a * T = q1 * b + r -> 0 <= r < b ->
  (m1 = q1 \/ (m1 = q1 + 1 /\ b <= 2 * r)) ->
  m1 / T = a / b.
Proof.
  intros Hb HT HbT Ha E Hr Hm.
  assert (Hq1 : q1 = a * T / b) by (apply Z.div_unique with r; lia).
  assert (HQ : q1 / T = a / b).
  { rewrite Hq1, Z.div_div, Z.div_mul_cancel_r; lia. }
  destruct Hm as [-> | [-> Hhalf]]; [exact HQ |].
  rewrite <- HQ.
  pose proof (Z.div_mod q1 T ltac:(lia)) as Dq.
  pose proof (Z.mod_pos_bound q1 T HT) as Bq.
  pose proof (Z.div_mod a b ltac:(lia)) as Da.
  pose proof (Z.mod_pos_bound a b Hb) as Ba.
  symmetry. apply Z.div_unique with (q1 mod T + 1); [| lia].
  left. split; [lia |].
  destruct (Z.eq_dec (q1 mod T) (T - 1)) as [Hbad | ]; [exfalso | lia].
  rewrite HQ in Dq. rewrite Hbad in Dq.
  assert (Hk : T * (b - a mod b) = b - r) by nia.
  assert (T <= b - r) by nia.
  lia.
Qed.

Lemma Zdigits2_pos m : 0 < m -> 0 < Zdigits2 m.
Proof. destruct m; cbn; lia. Qed.

Lemma shift_by_cases m s :
  0 <= s ->
  match s with
  | Z.pos _ => Z.shiftl m s
  | 0 => m
  | Z.neg _ => 0
  end = m * 2 ^ s.
Proof.
  intros Hs. destruct s as [| p | p]; [cbn; lia | | lia].
  apply Z.shiftl_mul_pow2. lia.
Qed.

Lemma fexp_64 e : fexp prec emax e = Z.max (e - 53) (-1074).
Proof. reflexivity. Qed.

Lemma int_truediv_floor a b :
  0 < a < 2 ^ 53 -> 0 < b < 2 ^ 53 ->
  exists f, int_truediv a b = Ok f /\ int_of_float f = Ok (a / b).
Proof.
  intros [Ha0 Ha] [Hb0 Hb]. unfold int_truediv.
  rewrite (proj2 (Z.eqb_neq b 0)), (proj2 (Z.eqb_neq a 0)) by lia.
  rewrite (proj2 (Z.ltb_ge a 0)), (proj2 (Z.ltb_ge b 0)) by lia. cbn [xorb].
  rewrite !Z.abs_eq by lia.
  pose proof (Zdigits2_bounds a Ha0) as Da.
  pose proof (Zdigits2_bounds b Hb0) as Db.
  pose proof (Zdigits2_le a 53 ltac:(lia) ltac:(lia)) as Da53.
  pose proof (Zdigits2_le b 53 ltac:(lia) ltac:(lia)) as Db53.
  pose proof (Zdigits2_pos a Ha0) as Da1.
  pose proof (Zdigits2_pos b Hb0) as Db1.
  unfold SFdiv_core_binary.
  set (d1 := Zdigits2 a) in *. set (d2 := Zdigits2 b) in *.
  rewrite fexp_64.
  replace (Z.min (Z.max (d1 + 0 - (d2 + 0) - 53) (-1074)) (0 - 0))
    with (d1 - d2 - 53) by lia.
  set (e' := d1 - d2 - 53).
  rewrite shift_by_cases by lia.
  set (s := 0 - 0 - e').
  set (N := a * 2 ^ s).
  destruct (Z.div_eucl N b) as [q r] eqn:Edq.
  assert (Hq : q = N / b) by (unfold Z.div; now rewrite Edq).
  assert (Hr : r = N mod b) by (unfold Z.modulo; now rewrite Edq).
  assert (HN : 0 <= N) by (unfold N; apply Z.mul_nonneg_nonneg; [lia | apply Z.pow_nonneg; lia]).
  pose proof (Z.mod_pos_bound N b Hb0) as Br. rewrite <- Hr in Br.
  pose proof (Z.div_mod N b ltac:(lia)) as DN. rewrite <- Hq, <- Hr in DN.
  unfold binary_round_aux, shr_fexp. rewrite !fexp_64.
  (* first shift *)
  set (mrs0 := shr_record_of_loc q (new_location b r)).
  set (n1 := Z.max (Zdigits2 q + e' - 53) (-1074) - e').
  assert (R0 : rec_ok N b mrs0).
  { split; [unfold mrs0; rewrite shr_m_of_loc; exact Hq |].
    rewrite <- Hr. apply new_location_round; lia. }
  destruct (shr_ok N b mrs0 e' n1 HN Hb0 R0) as [R1 X1].
  destruct (shr mrs0 e' n1) as [mrs1 e1] eqn:E1. cbn [fst snd] in R1, X1.
  cbv beta iota. rewrite fexp_64.
  set (k1 := Z.max 0 n1) in *.
  (* rounding *)
  pose proof (round_nearest_even_cases mrs1) as Hm1. cbv zeta in Hm1.
  set (m1 := round_nearest_even (shr_m mrs1) (loc_of_shr_record mrs1)) in *.
  (* second shift *)
  set (n2 := Z.max (Zdigits2 m1 + e1 - 53) (-1074) - e1).
  assert (Hq1 : 0 <= shr_m mrs1)
    by (destruct R1 as [-> _]; apply Z.div_pos; [lia |];
        apply Z.mul_pos_pos; [lia | apply Z.pow_pos_nonneg; lia]).
  assert (Hm1pos : 0 <= m1) by lia.
  assert (R2' : rec_ok m1 1 (shr_record_of_loc m1 loc_Exact))
    by (split; [cbn; now rewrite Z.div_1_r | discriminate]).
  destruct (shr_ok m1 1 _ e1 n2 Hm1pos ltac:(lia) R2') as [R2 X2].
  destruct (shr (shr_record_of_loc m1 loc_Exact) e1 n2) as [mrs2 e2] eqn:E2.
  cbn [fst snd] in R2, X2. set (k2 := Z.max 0 n2) in *.
  cbv beta iota.
  destruct R2 as [R2 _]. rewrite Z.mul_1_l in R2.
  (* the quotient has at most 54 bits *)
  assert (Hs : s = 53 + d2 - d1) by (unfold s, e'; lia).
  assert (HNlt : N < b * 2 ^ 54).
  { assert (N < 2 ^ (d1 + s)).
    { unfold N. rewrite Z.pow_add_r by lia.
      apply Z.mul_lt_mono_pos_r; [apply Z.pow_pos_nonneg; lia | lia]. }
    assert (2 ^ (d1 + s) = 2 ^ (d2 - 1) * 2 ^ 54)
      by (rewrite <- Z.pow_add_r by lia; f_equal; lia).
    assert (2 ^ (d2 - 1) * 2 ^ 54 <= b * 2 ^ 54)
      by (apply Z.mul_le_mono_nonneg_r; lia).
    lia. }
  assert (Hq54 : 0 <= q < 2 ^ 54).
  { rewrite Hq. split; [apply Z.div_pos; lia |].
    apply Z.div_lt_upper_bound; lia. }
  pose proof (Zdigits2_le q 54 ltac:(lia) Hq54) as Dq.
  (* the exponent after the first shift *)
  assert (He1 : e1 <= 1 - d2) by (unfold k1, n1, e' in *; lia).
  set (t := - e1). set (T := 2 ^ t).
  assert (Ht : d2 - 1 <= t) by (unfold t; lia).
  assert (HT : 0 < T) by (apply Z.pow_pos_nonneg; lia).
  assert (Hk1 : 0 <= k1) by (unfold k1; lia).
  assert (Hst : s = t + k1) by (unfold t, s; lia).
  assert (HK : 0 < 2 ^ k1) by (apply Z.pow_pos_nonneg; lia).
  assert (HNT : N = a * T * 2 ^ k1)
    by (unfold N, T; rewrite Hst, Z.pow_add_r by lia; ring).
  assert (HbT : b < 2 * T).
  { assert (2 ^ d2 <= 2 ^ (t + 1)) by (apply Z.pow_le_mono_r; lia).
    unfold T. replace (2 * 2 ^ t) with (2 ^ (t + 1))
      by (rewrite Z.pow_add_r by lia; change (2 ^ 1) with 2; ring).
    lia. }
  (* the rounded mantissa, truncated at scale T, is the floor *)
  assert (Hfloor : m1 / T = a / b).
  { destruct R1 as [Rm Rr].
    rewrite HNT, Z.div_mul_cancel_r in Rm by lia.
    rewrite HNT, Z.mul_mod_distr_r in Rr by lia.
    pose proof (Z.div_mod (a * T) b ltac:(lia)) as Dv.
    pose proof (Z.mod_pos_bound (a * T) b Hb0) as Bv.
    apply (round_then_truncate a b T (shr_m mrs1) ((a * T) mod b));
      try lia.
    destruct Hm1 as [-> | [-> Hround]]; [now left | right].
    split; [reflexivity |]. specialize (Rr Hround).
    apply (Z.mul_le_mono_pos_r _ _ (2 ^ k1)); [lia |]. lia. }
  (* the rounded mantissa has at most 53 + t bits *)
  assert (Hm1lt : m1 < 2 ^ (53 + t)).
  { assert (a / b <= a) by (apply Z.div_le_upper_bound; nia).
    pose proof (Z.div_mod m1 T ltac:(lia)) as Dm.
    pose proof (Z.mod_pos_bound m1 T HT) as Bm.
    rewrite Z.pow_add_r by lia. fold T. rewrite Hfloor in Dm. nia. }
  pose proof (Zdigits2_le m1 (53 + t) ltac:(lia) ltac:(lia)) as Dm1.
  assert (He2 : e2 <= 0) by (unfold k2, n2, t in *; lia).
  assert (Hk2 : 0 <= k2 <= t) by (unfold k2, t in *; lia).
  assert (Hm2 : shr_m mrs2 / 2 ^ (- e2) = a / b).
  { rewrite R2, Z.div_div, <- Z.pow_add_r, <- Hfloor by (try apply Z.pow_pos_nonneg; lia).
    unfold T. do 2 f_equal. unfold t. lia. }
  assert (Hm2pos : 0 <= shr_m mrs2)
    by (rewrite R2; apply Z.div_pos; [lia | apply Z.pow_pos_nonneg; lia]).
  destruct (shr_m mrs2) as [| m | m] eqn:Em2; [| | lia].
  - exists (S754_zero false). split; [reflexivity |].
    cbn [int_of_float]. f_equal. rewrite <- Hm2. now rewrite Z.div_0_l by (apply Z.pow_nonzero; lia).
  - replace (e2 <=? emax - prec)%Z with true
      by (symmetry; apply Z.leb_le; unfold emax, prec; lia).
    exists (S754_finite false m e2). split; [reflexivity |].
    cbn [int_of_float cond_Zopp]. f_equal. rewrite <- Hm2.
    destruct (Z.leb_spec 0 e2).
    + replace e2 with 0 by lia. cbn. now rewrite Z.div_1_r.
    + apply Z.shiftr_div_pow2. lia.
Qed.

Lemma int_truediv_zero b :
  b <> 0 -> int_truediv 0 b = Ok (S754_zero (b <? 0)%Z).
Proof.
  intros Hb. unfold int_truediv.
  now rewrite (proj2 (Z.eqb_neq b 0)) by assumption.
Qed.

(** [int(x)] is the exact value of [x] truncated toward zero. *)
Lemma int_of_float_quot x n :
  int_of_float x = Ok n ->
  exists num den,
    float_ratio x = Some (num, den) /\ 0 < den /\ n = Z.quot num den.
Proof.
  destruct x as [s | s | | s m e]; cbn [int_of_float float_ratio];
    try discriminate.
  - intros [= <-]. exists 0, 1. repeat split; lia.
  - intros [= <-]. destruct (Z.leb_spec 0 e) as [He | He].
    + eexists _, 1. split; [reflexivity |]. split; [lia |].
      rewrite Z.quot_1_r, Z.shiftl_mul_pow2 by lia. reflexivity.
    + eexists _, _. split; [reflexivity |].
      assert (HD : 0 < 2 ^ (- e)) by (apply Z.pow_pos_nonneg; lia).
      split; [exact HD |].
      rewrite Z.shiftr_div_pow2 by lia.
      destruct s; cbn [cond_Zopp].
      * rewrite Z.quot_opp_l by lia. f_equal.
        symmetry. apply Z.quot_div_nonneg; lia.
      * symmetry. apply Z.quot_div_nonneg; lia.
Qed.

(** C2, as the code has it: both sizes come from [int()], which
    truncates toward zero.  The width is the binary64 product of the
    base width and the scale factor, truncated; for sizes below 2^53
    the height is the floor of [width * overlay.height /
    overlay.width], so it is below the exact height by less than one
    pixel. *)
Theorem C2_sizes_are_truncated base_width scale_factor wm_width wm_height tw th :
  watermark_size base_width scale_factor wm_width wm_height = Ok (tw, th) ->
  (exists p num den,
     int_mul_float base_width scale_factor = Ok p
     /\ float_ratio p = Some (num, den) /\ 0 < den
     /\ tw = Z.quot num den)
  /\ (0 < wm_width < 2 ^ 53 -> 0 <= tw * wm_height < 2 ^ 53 ->
      th = tw * wm_height / wm_width
      /\ th * wm_width <= tw * wm_height < (th + 1) * wm_width).
Proof.
  unfold watermark_size, obind.
  destruct (int_mul_float base_width scale_factor) as [p | e]; [| discriminate].
  destruct (int_of_float p) as [w' | e] eqn:Ew; [| discriminate].
  destruct (int_truediv (w' * wm_height) wm_width) as [q | e] eqn:Eq;
    [| discriminate].
  destruct (int_of_float q) as [h' | e] eqn:Eh; [| discriminate].
  intros [= <- <-]. split.
  - destruct (int_of_float_quot p w' Ew) as (num & den & H1 & H2 & H3).
    exists p, num, den. auto.
  - intros Hw Ha.
    assert (Hh : h' = w' * wm_height / wm_width).
    { destruct (Z.eq_dec (w' * wm_height) 0) as [Hz | Hnz].
      - rewrite Hz in *. rewrite int_truediv_zero in Eq by lia.
        injection Eq as <-. cbn in Eh. injection Eh as <-.
        now rewrite Z.div_0_l by lia.
      - destruct (int_truediv_floor (w' * wm_height) wm_width ltac:(lia) Hw)
          as (f & Hf1 & Hf2).
        congruence. }
    split; [exact Hh |]. rewrite Hh.
    pose proof (Z.mul_div_le (w' * wm_height) wm_width ltac:(lia)).
    pose proof (Z.mul_succ_div_gt (w' * wm_height) wm_width ltac:(lia)).
    lia.
Qed.

(** C2 as stated fails: with a base 1000 wide, scale factor 0.2 and an
    overlay of 300 x 250, the height is 166 while 200 * 250 / 300 =
    166.67 rounds to 167; with a base 5 wide and scale factor 0.75 the
    width is 3 while 3.75 rounds to 4. *)
Lemma C2_sizes_are_not_rounded :
  watermark_size 1000 float_0_2 300 250 = Ok (200, 166)
  /\ ~ rounds_to 166 (200 * 250) 300
  /\ watermark_size 5 float_0_75 300 250 = Ok (3, 2)
  /\ float_ratio float_0_75 = Some (6755399441055744, 2 ^ 53)
  /\ ~ rounds_to 3 (5 * 6755399441055744) (2 ^ 53).
Proof.
  split; [vm_compute; reflexivity |].
  split; [unfold rounds_to; lia |].
  split; [vm_compute; reflexivity |].
  split; [reflexivity |].
  unfold rounds_to. change (2 ^ 53) with 9007199254740992. lia.
Qed.

(** C2 on the same input: the height 166 is the floor of
    200 * 250 / 300. *)
Lemma C2_sizes_are_truncated_witness : 166 = 200 * 250 / 300.
Proof.
  refine (proj1 (proj2
    (C2_sizes_are_truncated 1000 float_0_2 300 250 200 166 eq_refl) _ _));
    change (2 ^ 53) with 9007199254740992; lia.
Defined.

(** * Further properties *)

(** ** [load_font]: selection, cache and logs *)

(** ** The cache key *)

Lemma pretty_N_char_no_underscore x : pretty_N_char x <> "_"%char.
Proof. unfold pretty_N_char. repeat case_match; discriminate. Qed.

Lemma pretty_N_go_no_underscore x s :
  no_underscore s -> no_underscore (pretty_N_go x s).
Proof.
  revert s. induction (N.lt_wf_0 x) as [x _ IH]; intros s Hs.
  assert (x = 0 \/ 0 < x)%N as [-> | Hx] by lia.
  - now rewrite pretty_N_go_0.
  - rewrite pretty_N_go_step by assumption. apply IH.
    + now apply N.div_lt.
    + split; [apply pretty_N_char_no_underscore | exact Hs].
Qed.

Lemma pretty_N_no_underscore (x : N) : no_underscore (pretty x).
Proof.
  unfold pretty, pretty_N. case_decide.
  - cbn. split; [discriminate | exact I].
  - now apply pretty_N_go_no_underscore.
Qed.

Lemma str_of_int_no_underscore n : no_underscore (str_of_int n).
Proof.
  unfold str_of_int, pretty, pretty_Z. destruct n as [| p | p].
  - cbn. split; [discriminate | exact I].
  - apply pretty_N_no_underscore.
  - cbn. split; [discriminate | apply pretty_N_no_underscore].
Qed.

Lemma no_underscore_app_underscore a v : ~ no_underscore (a +:+ "_" +:+ v).
Proof.
  induction a as [| c a IH]; cbn.
  - intros [H _]. now apply H.
  - intros [_ H]. now apply IH.
Qed.

(** Two strings cut at their last "_" are equal only part by part. *)
Lemma underscore_split_inj a b u v :
  no_underscore u -> no_underscore v ->
  a +:+ "_" +:+ u = b +:+ "_" +:+ v -> a = b /\ u = v.
Proof.
  intros Hu Hv. revert b. induction a as [| c a IH]; intros [| d b]; cbn.
  - intros [= H]. change (u = v) in H. auto.
  - intros [= _ H]. change (u = b +:+ "_" +:+ v) in H. rewrite H in Hu.
    now destruct (no_underscore_app_underscore b v).
  - intros [= _ H]. change (a +:+ "_" +:+ u = v) in H. rewrite <- H in Hv.
    now destruct (no_underscore_app_underscore a u).
  - intros [= Hc H]. destruct (IH b H) as [Ha Hb]. subst. auto.
Qed.

Lemma cache_key_inj font_name1 font_size1 font_name2 font_size2 :
  cache_key font_name1 font_size1 = cache_key font_name2 font_size2 ->
  font_name1 = font_name2 /\ font_size1 = font_size2.
Proof.
  unfold cache_key. intros H.
  apply underscore_split_inj in H; try apply str_of_int_no_underscore.
  destruct H as [-> H]. split; [reflexivity |].
  unfold str_of_int in H. now apply (inj pretty) in H.
Qed.

(** X3: the cache key [f"{font_name}_{font_size}"] determines the
    request: two requests with the same key have the same family name
    and the same size, so no two requests share a cache entry. *)
Theorem X3_cache_key_inj font_name1 font_size1 font_name2 font_size2 :
  cache_key font_name1 font_size1 = cache_key font_name2 font_size2 ->
  font_name1 = font_name2 /\ font_size1 = font_size2.
Proof. apply cache_key_inj. Qed.

(** X3 on a family name that itself ends in "_4". *)
Lemma X3_cache_key_inj_witness :
  "Times_4" = "Times_4" /\ 0 = 0.
Proof.
  exact (X3_cache_key_inj "Times_4" 0 "Times_4" 0 eq_refl).
Defined.

Section FontTheorems.
Variable env : Env.

(** X1: on a console that writes every line, a request that is not
    cached is answered with the first candidate path of the family
    that exists and loads, in the order of the list; failing that with
    the first fallback name that loads; failing that with the default
    font.  Families other than "times new roman", "times" and "inter"
    (in any letter case) have no candidate path. *)
Theorem X1_load_font_selection font_name font_size w :
  console_writes env ->
  font_cache w !! cache_key font_name font_size = None ->
  exists w',
    load_font env font_name font_size w
    = (Ok (resolve_font env font_name font_size), w').
Proof.
  intros Hc H. destruct (load_font_miss_resolves env _ _ _ Hc H) as (w' & E & _).
  now exists w'.
Qed.

(** X2: [load_font] saves no file and only appends to the output and
    to the probes; it changes no cache entry but the one of its
    request, and when that entry is there it returns it and leaves the
    whole world as it is. *)
Theorem X2_load_font_frame font_name font_size w f w' :
  load_font env font_name font_size w = (Ok f, w') ->
  saved w' = saved w
  /\ grew (stdout w) (stdout w') /\ grew (probes w) (probes w')
  /\ (forall k, k <> cache_key font_name font_size ->
                font_cache w' !! k = font_cache w !! k)
  /\ (forall g, font_cache w !! cache_key font_name font_size = Some g ->
                f = g /\ w' = w).
Proof.
  intros E.
  destruct (load_font_frame env _ _ _ _ _ E) as (S & O & P & K & _).
  repeat split; try assumption;
    rewrite (load_font_hit env _ _ _ _ H) in E; congruence.
Qed.

(** X4: on a console that writes every line, when every cached font
    is the one selected for its request, as in the empty cache,
    [load_font] answers every request with the font selected for it,
    cached or not, and the cache keeps that property. *)
Theorem X4_load_font_cache_transparent font_name font_size w f w' :
  console_writes env ->
  cache_consistent env w ->
  load_font env font_name font_size w = (Ok f, w') ->
  f = resolve_font env font_name font_size /\ cache_consistent env w'.
Proof.
  intros Hw Hc E.
  destruct (font_cache w !! cache_key font_name font_size) as [g |] eqn:Hk.
  - rewrite (load_font_hit env _ _ _ _ Hk) in E. injection E as <- <-.
    split; [now apply Hc | exact Hc].
  - destruct (load_font_miss_resolves env _ _ _ Hw Hk) as (w1 & E1 & C & _).
    rewrite E1 in E. injection E as <- <-. split; [reflexivity |].
    intros n s g. rewrite C.
    destruct (decide (cache_key font_name font_size = cache_key n s)) as [Heq | Hne].
    + rewrite Heq, lookup_insert_eq. intros [= <-].
      apply cache_key_inj in Heq. now destruct Heq as [-> ->].
    + rewrite lookup_insert_ne by assumption. apply Hc.
Qed.
End FontTheorems.

(** X1 on the Linux machine: "TIMES" is served by Liberation Serif,
    the first candidate that exists there. *)
Lemma X1_load_font_selection_witness :
  exists w',
    load_font linux_env "TIMES" 40 empty_world
    = (Ok (TrueType
             "/usr/share/fonts/truetype/liberation/LiberationSerif-Regular.ttf" 40),
       w').
Proof.
  exact (X1_load_font_selection linux_env "TIMES" 40 empty_world
           (fun _ => eq_refl) eq_refl).
Defined.

(** X2 on the same request. *)
Lemma X2_load_font_frame_witness :
  saved (snd (load_font linux_env "TIMES" 40 empty_world)) = [].
Proof.
  exact (proj1 (X2_load_font_frame linux_env "TIMES" 40 empty_world
                  (TrueType
             "/usr/share/fonts/truetype/liberation/LiberationSerif-Regular.ttf" 40)
                  (snd (load_font linux_env "TIMES" 40 empty_world))
                  eq_refl)).
Defined.

Lemma cache_consistent_empty env : cache_consistent env empty_world.
Proof. intros n s f H. discriminate H. Qed.

(** X4 from the empty cache, on the sample machine, which has no font
    file: the answer is the default font. *)
Lemma X4_load_font_cache_transparent_witness :
  DefaultFont = resolve_font sample_env "Inter" 12.
Proof.
  refine (proj1 (X4_load_font_cache_transparent sample_env "Inter" 12 empty_world
                   DefaultFont (snd (load_font sample_env "Inter" 12 empty_world))
                   (fun _ => eq_refl) (cache_consistent_empty sample_env) _)).
  vm_compute. reflexivity.
Defined.

(** ** [read_watermark_text]: what is returned and what is printed *)

Lemma lstrip_decompose (s : pystr) :
  exists pre, s = (pre ++ lstrip s)%list /\ Forall (fun c => isspace c = true) pre.
Proof.
  induction s as [| c s IH]; cbn [lstrip].
  - exists []. split; [reflexivity | constructor].
  - destruct (isspace c) eqn:Hc.
    + destruct IH as (pre & Hs & Hpre). exists (c :: pre). split.
      * cbn. now f_equal.
      * now constructor.
    + exists []. split; [reflexivity | constructor].
Qed.

Lemma rstrip_decompose (s : pystr) :
  exists post, s = (rstrip s ++ post)%list /\ Forall (fun c => isspace c = true) post.
Proof.
  unfold rstrip. destruct (lstrip_decompose (reverse s)) as (pre & Hs & Hpre).
  exists (reverse pre). split.
  - rewrite <- reverse_app, <- Hs. symmetry. apply reverse_involutive.
  - now apply Forall_reverse.
Qed.

(** [strip] removes whitespace at both ends and nothing else. *)
Lemma strip_decompose (s : pystr) :
  exists pre post,
    s = (pre ++ strip s ++ post)%list
    /\ Forall (fun c => isspace c = true) pre
    /\ Forall (fun c => isspace c = true) post.
Proof.
  destruct (lstrip_decompose s) as (pre & Hs & Hpre).
  destruct (rstrip_decompose (lstrip s)) as (post & Hl & Hpost).
  exists pre, post. split; [| auto]. unfold strip. now rewrite <- Hl.
Qed.

Section ReadTextMore.
Variable env : Env.

(** X5: a text returned by [read_watermark_text] is the content of the
    file (decoded as UTF-8, or in the default encoding when it is not
    valid UTF-8) without its leading and trailing whitespace: the
    content is whitespace, then the text, then whitespace, and the
    text is not empty and neither starts nor ends with a whitespace
    character.  Nothing else is removed or changed, and nothing is
    printed. *)
Theorem X5_read_watermark_text_is_trimmed_content text_file_path w text w' :
  read_watermark_text env text_file_path w = (Ok (Some text), w') ->
  exists raw pre post,
    (read_text_utf8 env text_file_path = Ok raw
     \/ (exists e, read_text_utf8 env text_file_path = Raise e
                   /\ is_UnicodeDecodeError e = true
                   /\ read_text_default env text_file_path = Ok raw))
    /\ raw = (pre ++ text ++ post)%list
    /\ Forall (fun c => isspace c = true) pre
    /\ Forall (fun c => isspace c = true) post
    /\ text <> []
    /\ (forall c, head text = Some c -> isspace c = false)
    /\ (forall c, last text = Some c -> isspace c = false)
    /\ w' = w.
Proof.
  intros E. rewrite read_watermark_text_cases in E. unfold read_decoded in E.
  assert (Hraw : forall raw,
            (Ok (if str_truthy (strip raw) then Some (strip raw) else None), w)
            = (Ok (Some text), w') ->
            exists pre post,
              raw = (pre ++ text ++ post)%list
              /\ Forall (fun c => isspace c = true) pre
              /\ Forall (fun c => isspace c = true) post
              /\ text <> []
              /\ (forall c, head text = Some c -> isspace c = false)
              /\ (forall c, last text = Some c -> isspace c = false)
              /\ w' = w).
  { intros raw Hr. destruct (str_truthy (strip raw)) eqn:T; [| discriminate Hr].
    injection Hr as <- <-.
    destruct (strip_decompose raw) as (pre & post & D & Hpre & Hpost).
    exists pre, post. repeat split; auto.
    - intros H. rewrite H in T. discriminate T.
    - apply strip_head.
    - apply strip_last. }
  assert (Hno : forall e,
            (do_ print env ("Error reading text file " +:+ text_file_path
                            +:+ ": " +:+ exn_str e);
             ret None) w <> (Ok (Some text), w')).
  { intros e. unfold bind, ret.
    destruct (print env _ w) as [[[] | e'] w1]; discriminate. }
  destruct (read_text_utf8 env text_file_path) as [raw | e] eqn:E1.
  - destruct (Hraw raw E) as (pre & post & H). exists raw, pre, post. auto.
  - destruct (is_UnicodeDecodeError e) eqn:Hu.
    + destruct (read_text_default env text_file_path) as [raw | e'] eqn:E2.
      * destruct (Hraw raw E) as (pre & post & H). exists raw, pre, post.
        split; [right; eauto | exact H].
      * now destruct (Hno e').
    + now destruct (Hno e).
Qed.

(** X6: [read_watermark_text] touches nothing but the output.  When a
    read succeeds it returns and the world is as before: nothing is
    printed, also on a blank file.  When the read fails (or both
    reads, for a file that is not valid UTF-8) with an error, it
    prints exactly one line, "Error reading text file <path>:
    <error>", and returns [None]; on a console that refuses that line
    the exception of [print] leaves the function and nothing is
    written. *)
Theorem X6_read_watermark_text_output text_file_path w :
  (forall raw, read_decoded env text_file_path = Ok raw ->
     exists r, read_watermark_text env text_file_path w = (Ok r, w))
  /\ (forall e, read_decoded env text_file_path = Raise e ->
        let line := "Error reading text file " +:+ text_file_path
                    +:+ ": " +:+ exn_str e in
        (stdout_error env line = None ->
         read_watermark_text env text_file_path w
         = (Ok None,
            {| font_cache := font_cache w;
               stdout := stdout w ++ [line];
               probes := probes w;
               saved := saved w |}))
        /\ (forall e', stdout_error env line = Some e' ->
              read_watermark_text env text_file_path w = (Raise e', w))).
Proof.
  rewrite read_watermark_text_cases. split.
  - intros raw ->. eexists. reflexivity.
  - intros e ->. cbv zeta. split.
    + intros H. unfold bind. now rewrite (print_ok _ _ _ H).
    + intros e' H. unfold bind. now rewrite (print_raise _ _ _ _ H).
Qed.
End ReadTextMore.

(** X5 on "input/a.txt": the two spaces in front and the newline at
    the end are removed, "PROOF" is returned. *)
Lemma X5_read_watermark_text_is_trimmed_content_witness :
  exists raw pre post,
    (read_text_utf8 sidecar_env "input/a.txt" = Ok raw
     \/ (exists e, read_text_utf8 sidecar_env "input/a.txt" = Raise e
                   /\ is_UnicodeDecodeError e = true
                   /\ read_text_default sidecar_env "input/a.txt" = Ok raw))
    /\ raw = (pre ++ text_PROOF ++ post)%list
    /\ Forall (fun c => isspace c = true) pre
    /\ Forall (fun c => isspace c = true) post
    /\ text_PROOF <> []
    /\ (forall c, head text_PROOF = Some c -> isspace c = false)
    /\ (forall c, last text_PROOF = Some c -> isspace c = false)
    /\ empty_world = empty_world.
Proof.
  exact (X5_read_watermark_text_is_trimmed_content sidecar_env "input/a.txt"
           empty_world text_PROOF empty_world eq_refl).
Defined.

(** X6 on "input/locked.txt", which cannot be read: the answer is
    [None] and the one line is printed. *)
Lemma X6_read_watermark_text_output_witness :
  read_watermark_text sidecar_env "input/locked.txt" empty_world
  = (Ok None,
     {| font_cache := ∅;
        stdout := ["Error reading text file input/locked.txt: Permission denied"];
        probes := [];
        saved := [] |}).
Proof.
  exact (proj1 (proj2 (X6_read_watermark_text_output sidecar_env
                         "input/locked.txt" empty_world)
                  _ eq_refl) eq_refl).
Defined.

(** ** [apply_text_watermark]: bounds, edge widths and failures *)

(** X7: the text is measured at (0, 0) and drawn at the origin
    computed from the width and the height of that box, so the box of
    the drawn text is the box of the anchor moved by the left and top
    bearings [b0] and [b1] of the measured box.  When the text and
    twice the padding fit in the image, whatever the anchor string,
    the drawn box has the size of the measured box and lies between
    [padding + b0] and [image_width - padding + b0] across, between
    [padding + b1] and [image_height - padding + b1] down: the margin
    is the padding on every side only when both bearings are zero. *)
Theorem X7_text_box_is_anchor_box_moved_by_bearings position padding
    image_width image_height b0 b1 b2 b3 :
  0 <= padding ->
  (b2 - b0) + 2 * padding <= image_width ->
  (b3 - b1) + 2 * padding <= image_height ->
  let origin := text_origin position padding image_width image_height
                            (b2 - b0) (b3 - b1) in
  exists left top right bottom,
    drawn_box origin (b0, b1, b2, b3) = (left, top, right, bottom)
    /\ right - left = b2 - b0 /\ bottom - top = b3 - b1
    /\ padding + b0 <= left /\ right <= image_width - padding + b0
    /\ padding + b1 <= top /\ bottom <= image_height - padding + b1
    /\ (position = "bottom-right" ->
        right = image_width - padding + b0
        /\ bottom = image_height - padding + b1).
Proof.
  intros Hp Hw Hh origin. unfold drawn_box. eexists _, _, _, _.
  split; [reflexivity |]. subst origin. unfold text_origin.
  assert (Hbr : position = "bottom-right" ->
                String.eqb position "bottom-right" = true)
    by (intros ->; reflexivity).
  assert (Hne : position = "bottom-right" ->
                String.eqb position "top-right" = false
                /\ String.eqb position "bottom-left" = false
                /\ String.eqb position "top-left" = false)
    by (intros ->; auto).
  repeat match goal with
  | |- context [String.eqb position ?b] =>
      destruct (String.eqb position b) eqn:?
  end; cbn [fst snd];
  (split; [lia |]); (split; [lia |]); (split; [lia |]); (split; [lia |]);
  (split; [lia |]); (split; [lia |]);
  intros Hpos; specialize (Hbr Hpos); specialize (Hne Hpos);
  destruct Hne as (? & ? & ?); try congruence; lia.
Qed.

(** X7 on a text measured as (0, 2, 32, 10), drawn at "bottom-right"
    on 1000 x 800 with padding 20: the drawn box ends at 782, 18
    pixels from the bottom edge. *)
Lemma X7_text_box_is_anchor_box_moved_by_bearings_witness :
  drawn_box (text_origin "bottom-right" 20 1000 800 (32 - 0) (10 - 2))
            (0, 2, 32, 10)
  = (948, 774, 980, 782).
Proof.
  destruct (X7_text_box_is_anchor_box_moved_by_bearings "bottom-right" 20 1000
              800 0 2 32 10 ltac:(lia) ltac:(lia) ltac:(lia))
    as (l & t & r & b & E & _).
  vm_compute. reflexivity.
Defined.

Lemma outline_offsets_nonpos w : w <= 0 -> outline_offsets w = [].
Proof.
  intros Hw. destruct (Z.eq_dec w 0) as [-> | Hne]; [vm_compute; reflexivity |].
  unfold outline_offsets, range. now rewrite seqZ_nil by lia.
Qed.

Lemma draw_calls_app env text font calls1 calls2 image :
  draw_calls env text font (calls1 ++ calls2) image
  = bind (draw_calls env text font calls1)
         (fun _ => draw_calls env text font calls2) image.
Proof. unfold draw_calls. apply for_each_app. Qed.

Lemma draw_calls_one env text font xy fill image :
  draw_calls env text font [(xy, fill)] image
  = ImageDraw_text env xy text font fill image.
Proof.
  unfold draw_calls. cbn [for_each fst snd]. unfold bind, ret.
  destruct (ImageDraw_text env xy text font fill image) as [[[] | e] i]; reflexivity.
Qed.

Section TextMore.
Variable env : Env.

(** X8: with an outline width of zero or less both loops are empty or
    skip their only offset, and the text is drawn once, in the fill
    colour, at the origin. *)
Theorem X8_no_outline_for_nonpositive_width text font position padding color
    outline_color outline_width image b0 b1 b2 b3 :
  outline_width <= 0 ->
  textbbox env text font = Ok (b0, b1, b2, b3) ->
  apply_text_watermark env text font position padding color outline_color
                       outline_width image
  = ImageDraw_text env
      (text_origin position padding (width image) (height image)
                   (b2 - b0) (b3 - b1))
      text font color image.
Proof.
  intros Hw Hb.
  rewrite (apply_text_watermark_draws env text font position padding color
             outline_color outline_width image b0 b1 b2 b3 Hb).
  cbv zeta. rewrite (outline_offsets_nonpos _ Hw). cbn [map app].
  apply draw_calls_one.
Qed.

(** When the text cannot be measured nothing is drawn. *)
Lemma apply_text_watermark_unmeasured text font position padding color
    outline_color outline_width image e :
  textbbox env text font = Raise e ->
  apply_text_watermark env text font position padding color outline_color
                       outline_width image = (Raise e, image).
Proof.
  intros Hb. unfold apply_text_watermark, bind, lift. now rewrite Hb.
Qed.

(** A draw that raises ends the sequence; the image keeps the draws
    made before it. *)
Lemma draw_calls_stop text font calls1 xy fill calls2 image image1 e :
  draw_calls env text font calls1 image = (Ok tt, image1) ->
  draw_text env image1 xy text font fill = Raise e ->
  draw_calls env text font (calls1 ++ (xy, fill) :: calls2) image
  = (Raise e, image1).
Proof.
  intros H1 H2. rewrite draw_calls_app. unfold bind. rewrite H1.
  unfold draw_calls. cbn [for_each fst snd]. unfold bind, ImageDraw_text.
  now rewrite H2.
Qed.

(** X9: a text that cannot be measured (the font rejects it) leaves
    the image as it was; after the font is resolved the text stage
    prints "Error applying text watermark: <error>" and hands the
    untouched image on (when the console refuses the line, the
    exception of [print] leaves the stage instead). *)
Theorem X9_unmeasurable_text_leaves_image output_image c s font_size text_color
    text_padding text_outline_color text_outline_width w font w1 e :
  load_font env "Times New Roman" font_size w = (Ok font, w1) ->
  textbbox env (c :: s) font = Raise e ->
  text_stage env output_image (Some (c :: s)) font_size text_color text_padding
             text_outline_color text_outline_width w
  = (do_ print env ("Error applying text watermark: " +:+ exn_str e);
     ret output_image) w1.
Proof.
  intros Hf Hb. rewrite (text_stage_runs env _ _ _ _ _ _ _ _ _ _ _ Hf).
  cbv zeta. now rewrite (apply_text_watermark_unmeasured _ _ _ _ _ _ _ _ _ Hb).
Qed.

(** X10: when one of the draws raises, the exception goes no further
    than the text stage: the stage prints the error and hands on the
    image with the draws made before the failure, in the order outline
    first, fill last (when the console refuses the line, the exception
    of [print] leaves the stage instead). *)
Theorem X10_failed_draw_keeps_earlier_draws output_image c s font_size text_color
    text_padding text_outline_color text_outline_width w font w1
    b0 b1 b2 b3 calls1 xy fill calls2 image1 e :
  load_font env "Times New Roman" font_size w = (Ok font, w1) ->
  textbbox env (c :: s) font = Ok (b0, b1, b2, b3) ->
  let origin := text_origin "bottom-left" text_padding (width output_image)
                            (height output_image) (b2 - b0) (b3 - b1) in
  (map (outline_call origin text_outline_color) (outline_offsets text_outline_width)
     ++ [(origin, text_color)])%list = (calls1 ++ (xy, fill) :: calls2)%list ->
  draw_calls env (c :: s) font calls1 output_image = (Ok tt, image1) ->
  draw_text env image1 xy (c :: s) font fill = Raise e ->
  text_stage env output_image (Some (c :: s)) font_size text_color text_padding
             text_outline_color text_outline_width w
  = (do_ print env ("Error applying text watermark: " +:+ exn_str e);
     ret image1) w1.
Proof.
  intros Hf Hb origin Hcalls H1 H2.
  rewrite (text_stage_runs env _ _ _ _ _ _ _ _ _ _ _ Hf). cbv zeta.
  rewrite (apply_text_watermark_draws env (c :: s) font "bottom-left" text_padding
             text_color text_outline_color text_outline_width output_image
             b0 b1 b2 b3 Hb).
  cbv zeta. fold origin. rewrite Hcalls.
  now rewrite (draw_calls_stop _ _ _ _ _ _ _ _ _ H1 H2).
Qed.
End TextMore.

(** X8 on the sample machine with outline width -3. *)
Lemma X8_no_outline_for_nonpositive_width_witness :
  apply_text_watermark sample_env text_PROOF DefaultFont "top-left" 20 white black
                       (-3) sample_rgba
  = ImageDraw_text sample_env (20, 20) text_PROOF DefaultFont white sample_rgba.
Proof.
  refine (X8_no_outline_for_nonpositive_width sample_env text_PROOF DefaultFont
            "top-left" 20 white black (-3) sample_rgba 0 0 50 12 _ eq_refl).
  lia.
Defined.

(** X9 on the picky machine: the euro sign cannot be measured. *)
Lemma X9_unmeasurable_text_leaves_image_witness :
  exists w',
    text_stage picky_env sample_rgba (Some [8364%N]) 40 white 20 black 2 empty_world
    = (Ok sample_rgba, w').
Proof.
  eexists.
  refine (X9_unmeasurable_text_leaves_image picky_env sample_rgba 8364%N [] 40
            white 20 black 2 empty_world DefaultFont
            (snd (load_font picky_env "Times New Roman" 40 empty_world))
            (mkExn OtherException "codec cannot encode character") _ eq_refl).
  vm_compute. reflexivity.
Defined.

(** X10 on the picky machine: the eight outline draws of width 1 are
    made in black, the white fill draw raises, and the image with the
    outline alone is handed on. *)
Lemma X10_failed_draw_keeps_earlier_draws_witness :
  exists w',
    text_stage picky_env sample_rgba (Some text_PROOF) 40 white 20 black 1
               empty_world
    = (Ok (snd (draw_calls picky_env text_PROOF DefaultFont
                  (map (outline_call (20, 768) black) (outline_offsets 1))
                  sample_rgba)), w').
Proof.
  eexists.
  refine (X10_failed_draw_keeps_earlier_draws picky_env sample_rgba 80%N
            [82; 79; 79; 70]%N 40 white 20 black 1 empty_world DefaultFont
            (snd (load_font picky_env "Times New Roman" 40 empty_world))
            0 0 50 12
            (map (outline_call (20, 768) black) (outline_offsets 1))
            (20, 768) white [] _
            (mkExn OtherException "cannot draw") _ eq_refl eq_refl _ eq_refl).
  - vm_compute. reflexivity.
  - reflexivity.
Defined.

(** ** The image watermark: size, opaque pixels, refusals *)

Lemma all_bytes_spec f c : all_bytes f = true -> 0 <= c <= 255 -> f c = true.
Proof.
  unfold all_bytes. rewrite forallb_forall. intros H Hc. apply H.
  apply list_elem_of_In, elem_of_seqZ. lia.
Qed.

Lemma MULDIV255_255_r c : 0 <= c <= 255 -> MULDIV255 c 255 = c.
Proof.
  intros Hc. apply Z.eqb_eq.
  apply (all_bytes_spec (fun c => MULDIV255 c 255 =? c)%Z); [| exact Hc].
  vm_compute. reflexivity.
Qed.

Lemma MULDIV255_255_l c : 0 <= c <= 255 -> MULDIV255 255 c = c.
Proof.
  intros Hc. apply Z.eqb_eq.
  apply (all_bytes_spec (fun c => MULDIV255 255 c =? c)%Z); [| exact Hc].
  vm_compute. reflexivity.
Qed.

(** A matte of 255 takes the channel of the source. *)
Lemma BLEND8_opaque d c : 0 <= c <= 255 -> BLEND8 255 d c = c.
Proof.
  intros Hc. unfold BLEND8. change (255 - 255) with 0.
  now rewrite MULDIV255_0_r, MULDIV255_255_r.
Qed.

(** A matte of 0 keeps the channel of the destination. *)
Lemma BLEND8_keep d c : 0 <= d <= 255 -> BLEND8 0 d c = d.
Proof.
  intros Hd. unfold BLEND8. change (255 - 0) with 255.
  rewrite MULDIV255_0_r, MULDIV255_255_r by assumption. lia.
Qed.

(** Composing an opaque pixel over any pixel gives the opaque pixel. *)
Lemma alpha_composite_pixel_opaque dst src :
  pixel_in_range src -> chA src = 255 -> alpha_composite_pixel dst src = src.
Proof.
  intros (HR & HG & HB & _) HA. unfold alpha_composite_pixel. rewrite HA.
  cbn [Z.eqb]. change (255 - 255) with 0. rewrite Z.mul_0_r.
  change (255 * 255 + 0) with 65025.
  change (255 * 255 * 255 * Z.shiftl 1 PRECISION_BITS / 65025) with 32640.
  change (255 * Z.shiftl 1 PRECISION_BITS - 32640) with 0.
  rewrite !Z.mul_0_r, !Z.add_0_r.
  assert (Hch : forall c, 0 <= c <= 255 ->
            Z.shiftr (SHIFTFORDIV255 (c * 32640 + Z.shiftl 128 PRECISION_BITS))
                     PRECISION_BITS = c).
  { intros c Hc. apply Z.eqb_eq.
    apply (all_bytes_spec
             (fun c => Z.shiftr (SHIFTFORDIV255
                         (c * 32640 + Z.shiftl 128 PRECISION_BITS))
                         PRECISION_BITS =? c)%Z); [| exact Hc].
    vm_compute. reflexivity. }
  rewrite !Hch by assumption.
  change (SHIFTFORDIV255 (65025 + 128)) with 255.
  destruct src as [r g b a]. cbn in *. now subst a.
Qed.

(** X12: where the watermark, an RGBA image, has an opaque pixel
    (alpha 255) that falls inside the base, the result of the
    compositing step is that pixel of the watermark, whatever the
    base held there. *)
Theorem X12_opaque_overlay_replaces_base
    (base_image output_image watermark : Image) (position : Z * Z)
    (out : Image) (x y : Z) :
  composite_watermark base_image output_image watermark position = Ok out ->
  mode watermark = ModeRGBA ->
  in_box (fst position) (snd position) (width watermark) (height watermark) x y
    = true ->
  in_box 0 0 (width base_image) (height base_image) x y = true ->
  pixel_in_range (pixel watermark (x - fst position) (y - snd position)) ->
  chA (pixel watermark (x - fst position) (y - snd position)) = 255 ->
  pixel out x y = pixel watermark (x - fst position) (y - snd position).
Proof.
  unfold composite_watermark, obind, paste. destruct position as [x0 y0].
  cbn [fst snd]. unfold mask_of. intros E Hm Hin Hb Hr Ha. rewrite Hm in E.
  cbn [mode Image_new mode_eqb] in E. rewrite ?Hm in E. cbn [mode_eqb] in E.
  cbn [width height Image_new] in E.
  rewrite (in_boxes_not_clipped _ _ _ _ _ _ _ _ Hin Hb) in E.
  unfold alpha_composite in E. cbn [mode width height Image_new] in E.
  destruct (negb _); [discriminate |].
  destruct (negb _); [discriminate |].
  injection E as <-. cbn [pixel Image_new width height].
  rewrite Hin, Hb. cbn [andb]. rewrite Ha.
  set (p := pixel watermark (x - x0) (y - y0)) in *.
  destruct Hr as (HR & HG & HB & HA).
  assert (Hl : blend_pixel 255 (mkPixel 0 0 0 0) p = p).
  { unfold blend_pixel. cbn [chR chG chB chA].
    rewrite !BLEND8_opaque by assumption. now destruct p. }
  rewrite Hl. apply alpha_composite_pixel_opaque; [| exact Ha].
  repeat split; lia.
Qed.

(** X12 on the sample logo at (10, 10): the pixel (50, 50) lies under
    its red opaque half. *)
Lemma X12_opaque_overlay_replaces_base_witness :
  exists out,
    composite_watermark sample_rgba sample_rgba sample_logo (10, 10) = Ok out
    /\ pixel out 50 50 = mkPixel 255 0 0 255.
Proof.
  assert (H : { out | composite_watermark sample_rgba sample_rgba sample_logo (10, 10)
                      = Ok out }) by (eexists; reflexivity).
  destruct H as [out H]. exists out. split; [exact H |].
  refine (X12_opaque_overlay_replaces_base _ _ _ _ out 50 50 H eq_refl eq_refl
            eq_refl _ eq_refl).
  change (pixel_in_range (mkPixel 255 0 0 255)). unfold pixel_in_range.
  cbn [chR chG chB chA]. lia.
Defined.


Section StagesMore.
Variable env : Env.

(** The image stage, by cases on the path: no path or an empty path
    does nothing; otherwise the file system is probed once and the
    watermark is applied when the file exists. *)
Lemma image_stage_cases base_image output_image watermark_path scale_factor
    padding w :
  image_stage env base_image output_image watermark_path scale_factor padding w
  = match watermark_path with
    | Some (String c s) =>
        (if os_path_exists env (String c s)
         then apply_image_watermark env base_image output_image (String c s)
                scale_factor padding
         else Ok output_image,
         snd (record_probe (ProbeExists (String c s)) w))
    | _ => (Ok output_image, w)
    end.
Proof.
  unfold image_stage. destruct watermark_path as [[| c s] |]; simpl;
    try reflexivity.
  unfold bind, path_exists, bind, record_probe, ret, lift.
  destruct (os_path_exists env (String c s)); reflexivity.
Qed.

(** The compositing step returns an RGBA image of the size of the
    image it composes over. *)
Lemma composite_watermark_shape base_image output_image watermark position out :
  composite_watermark base_image output_image watermark position = Ok out ->
  mode out = ModeRGBA /\ width out = width output_image
  /\ height out = height output_image.
Proof.
  unfold composite_watermark, obind.
  destruct (paste _ watermark position watermark) as [layer | e];
    [| discriminate].
  unfold alpha_composite.
  destruct (negb _); [discriminate |].
  destruct (negb _); [discriminate |].
  intros [= <-]. auto.
Qed.

(** X11: when the image stage returns, the image it hands on is RGBA
    and has the width and the height of the image it was given; the
    stage prints nothing, stores no font and saves no file. *)
Theorem X11_image_stage_keeps_size
    (base_image output_image : Image) (watermark_path : option string)
    (scale_factor : spec_float) (padding : Z) (w w' : World) (out : Image) :
  image_stage env base_image output_image watermark_path scale_factor padding w
    = (Ok out, w') ->
  mode output_image = ModeRGBA ->
  (mode out = ModeRGBA /\ width out = width output_image
   /\ height out = height output_image)
  /\ font_cache w' = font_cache w /\ stdout w' = stdout w
  /\ saved w' = saved w.
Proof.
  rewrite image_stage_cases. intros H Hm.
  destruct watermark_path as [[| c s] |].
  - injection H as <- <-. auto.
  - destruct (os_path_exists env (String c s)).
    + unfold apply_image_watermark, obind in H.
      destruct (load_watermark env base_image (String c s) scale_factor padding)
        as [wp | e]; [| discriminate].
      destruct (composite_watermark base_image output_image (fst wp) (snd wp))
        as [out' | e] eqn:Ec; [| discriminate].
      injection H as <- <-. split; [| auto].
      eapply composite_watermark_shape; eassumption.
    + injection H as <- <-. auto.
  - injection H as <- <-. auto.
Qed.

(** An exception of the image stage leaves [apply_watermark]: the
    text stage and the save stage do not run. *)
Lemma apply_watermark_overlay_raises image_path p output_path scale_factor
    padding text_watermark font_size text_color text_padding
    text_outline_color text_outline_width w opened e :
  image_open env image_path = Ok opened ->
  p <> "" ->
  os_path_exists env p = true ->
  (let base_image := if mode_eqb (mode opened) ModeRGBA then opened
                     else convert ModeRGBA opened in
   apply_image_watermark env base_image base_image p scale_factor padding
   = Raise e) ->
  apply_watermark env image_path (Some p) output_path scale_factor padding
    text_watermark font_size text_color text_padding text_outline_color
    text_outline_width w
  = (Raise e, snd (record_probe (ProbeExists p) w)).
Proof.
  intros Ho Hp Hx Ha. rewrite apply_watermark_stages, Ho. cbv zeta in *.
  rewrite image_stage_cases. destruct p as [| c s]; [congruence |].
  rewrite Hx, Ha. reflexivity.
Qed.

Lemma width_base_image opened :
  width (if mode_eqb (mode opened) ModeRGBA then opened
         else convert ModeRGBA opened) = width opened.
Proof. now destruct (mode_eqb _ _). Qed.

Lemma height_base_image opened :
  height (if mode_eqb (mode opened) ModeRGBA then opened
          else convert ModeRGBA opened) = height opened.
Proof. now destruct (mode_eqb _ _). Qed.

(** A watermark placed by [watermark_position] keeps a part on the
    picture when the padding is below the side of the picture and
    above minus the side of the watermark. *)
Lemma placed_not_clipped side size padding :
  1 <= side -> 1 <= size -> - size < padding < side ->
  (clipped_size (side - size - padding) size side <=? 0)%Z = false.
Proof.
  intros Hd Hs Hp. apply Z.leb_gt. unfold clipped_size.
  destruct (Z.ltb_spec (side - size - padding) 0); cbn match;
    match goal with |- context [(?a <? ?b)%Z] => destruct (Z.ltb_spec a b) end;
    lia.
Qed.

(** X13: a watermark file without an alpha channel (of mode RGB, as a
    JPEG, or of mode P, as a palette PNG) that is resized (to a size
    of at least one pixel a side that fits a C int, with memory for
    it) and falls at least partly on the picture, which has at least
    one pixel a side, makes
    [apply_watermark] raise ValueError ("bad transparency mask") from
    [paste], which takes the watermark as its own mask: no text is
    drawn, nothing is printed, nothing is saved. *)
Theorem X13_overlay_without_alpha_aborts
    (image_path p output_path : string) (scale_factor : spec_float)
    (padding : Z) (text_watermark : option pystr) (font_size : Z)
    (text_color : Color) (text_padding : Z) (text_outline_color : Color)
    (text_outline_width : Z) (w : World) (opened watermark : Image)
    (tw th : Z) :
  image_open env image_path = Ok opened ->
  p <> "" ->
  os_path_exists env p = true ->
  image_open env p = Ok watermark ->
  mode watermark = ModeRGB \/ mode watermark = ModeP ->
  1 <= width opened -> 1 <= height opened ->
  watermark_size (width opened) scale_factor (width watermark) (height watermark)
    = Ok (tw, th) ->
  1 <= tw -> 1 <= th ->
  c_int tw = true -> c_int th = true ->
  resize_error env watermark tw th = None ->
  - tw < padding < width opened ->
  - th < padding < height opened ->
  let w' := snd (apply_watermark env image_path (Some p) output_path scale_factor
                   padding text_watermark font_size text_color text_padding
                   text_outline_color text_outline_width w) in
  apply_watermark env image_path (Some p) output_path scale_factor padding
    text_watermark font_size text_color text_padding text_outline_color
    text_outline_width w
  = (Raise (mkExn ValueError "bad transparency mask"), w')
  /\ saved w' = saved w /\ stdout w' = stdout w.
Proof.
  intros Ho Hp Hx Hw Hm Hbw Hbh Hs Htw Hth Hcw Hch Hre Hpw Hph.
  rewrite (apply_watermark_overlay_raises _ _ _ _ _ _ _ _ _ _ _ _ opened
             (mkExn ValueError "bad transparency mask") Ho Hp Hx).
  - cbn. auto.
  - cbv zeta. unfold apply_image_watermark, load_watermark, obind.
    rewrite Hw, width_base_image, Hs. unfold resize. rewrite Hcw, Hch.
    cbn [negb].
    replace (tw <? 1)%Z with false by (symmetry; apply Z.ltb_ge; lia).
    replace (th <? 1)%Z with false by (symmetry; apply Z.ltb_ge; lia).
    cbn [orb]. rewrite Hre. cbn [fst snd].
    unfold composite_watermark, paste, watermark_position.
    cbn [width height Image_new].
    rewrite width_base_image, height_base_image.
    rewrite (placed_not_clipped _ _ _ Hbw Htw Hpw),
      (placed_not_clipped _ _ _ Hbh Hth Hph).
    cbn [orb]. unfold mask_of. cbn [mode].
    destruct Hm as [-> | ->]; reflexivity.
Qed.

(** X14: when the computed size of the watermark, of sides that fit a
    C int, has a side below one pixel (a scale factor too small for
    the picture, or a watermark much wider than high), [resize] raises
    ValueError and [apply_watermark] with it: no text is drawn,
    nothing is printed, nothing is saved. *)
Theorem X14_empty_overlay_size_aborts
    (image_path p output_path : string) (scale_factor : spec_float)
    (padding : Z) (text_watermark : option pystr) (font_size : Z)
    (text_color : Color) (text_padding : Z) (text_outline_color : Color)
    (text_outline_width : Z) (w : World) (opened watermark : Image)
    (tw th : Z) :
  image_open env image_path = Ok opened ->
  p <> "" ->
  os_path_exists env p = true ->
  image_open env p = Ok watermark ->
  watermark_size (width opened) scale_factor (width watermark) (height watermark)
    = Ok (tw, th) ->
  c_int tw = true -> c_int th = true ->
  tw < 1 \/ th < 1 ->
  let w' := snd (apply_watermark env image_path (Some p) output_path scale_factor
                   padding text_watermark font_size text_color text_padding
                   text_outline_color text_outline_width w) in
  apply_watermark env image_path (Some p) output_path scale_factor padding
    text_watermark font_size text_color text_padding text_outline_color
    text_outline_width w
  = (Raise (mkExn ValueError "height and width must be > 0"), w')
  /\ saved w' = saved w /\ stdout w' = stdout w.
Proof.
  intros Ho Hp Hx Hw Hs Hcw Hch Hsmall.
  rewrite (apply_watermark_overlay_raises _ _ _ _ _ _ _ _ _ _ _ _ opened
             (mkExn ValueError "height and width must be > 0") Ho Hp Hx).
  - cbn. auto.
  - cbv zeta. unfold apply_image_watermark, load_watermark, obind.
    rewrite Hw, width_base_image, Hs. unfold resize. rewrite Hcw, Hch.
    cbn [negb].
    replace ((tw <? 1)%Z || (th <? 1)%Z) with true; [reflexivity |].
    symmetry. apply orb_true_iff. rewrite !Z.ltb_lt. exact Hsmall.
Qed.

(** [load_font] saves no file. *)
Lemma load_font_saved font_name font_size w r w1 :
  load_font env font_name font_size w = (r, w1) -> saved w1 = saved w.
Proof. intros E. now destruct (load_font_frame env _ _ _ _ _ E). Qed.

(** The text stage saves no file. *)
Lemma text_stage_saved output_image text_watermark font_size text_color
    text_padding text_outline_color text_outline_width w r w' :
  text_stage env output_image text_watermark font_size text_color text_padding
             text_outline_color text_outline_width w = (r, w') ->
  saved w' = saved w.
Proof.
  destruct text_watermark as [[| c s] |];
    try (now intros [= _ <-]).
  destruct (load_font env "Times New Roman" font_size w) as [[f | e] w1] eqn:Hf;
    pose proof (load_font_saved _ _ _ _ _ Hf) as Hs.
  - rewrite (text_stage_runs env _ _ _ _ _ _ _ _ _ _ _ Hf). cbv zeta.
    destruct (fst _); [now intros [= _ <-] |].
    intros E. apply print_then_ret in E as ((_ & S & _) & _). congruence.
  - rewrite (text_stage_font_fails env _ _ _ _ _ _ _ _ _ _ _ Hf).
    intros E. apply print_then_ret in E as ((_ & S & _) & _). congruence.
Qed.

(** The save stage saves the output, or raises and saves nothing. *)
Lemma save_stage_saved output_image output_path w :
  match fst (save_stage env output_image output_path w) with
  | Ok _ =>
      exists final_image,
        saved (snd (save_stage env output_image output_path w))
        = (saved w ++ [(output_path, final_image)])%list
  | Raise _ => saved (snd (save_stage env output_image output_path w)) = saved w
  end.
Proof.
  unfold save_stage, bind.
  assert (Hf : exists final_image,
             (if str_in (lower (splitext_ext env output_path)) [".jpg"; ".jpeg"]
              then lift (flatten_on_white output_image) else ret output_image) w
             = (Ok final_image, w)).
  { destruct (str_in _ _).
    - destruct (flatten_on_white_ok output_image) as [final_image Hfl].
      exists final_image. unfold lift. now rewrite Hfl.
    - now exists output_image. }
  destruct Hf as [final_image ->].
  unfold os_makedirs, Image_save.
  destruct (makedirs_error env (dirname env output_path)); [reflexivity |].
  cbn. destruct (save_error env output_path final_image); [reflexivity |].
  cbn. now exists final_image.
Qed.

(** [apply_watermark] saves the output, or raises and saves nothing. *)
Lemma apply_watermark_saved image_path watermark_path output_path scale_factor
    padding text_watermark font_size text_color text_padding
    text_outline_color text_outline_width w r w' :
  apply_watermark env image_path watermark_path output_path scale_factor padding
    text_watermark font_size text_color text_padding text_outline_color
    text_outline_width w = (r, w') ->
  match r with
  | Ok _ => exists final_image,
              saved w' = (saved w ++ [(output_path, final_image)])%list
  | Raise _ => saved w' = saved w
  end.
Proof.
  rewrite apply_watermark_stages.
  destruct (image_open env image_path) as [opened | e];
    [| now intros [= <- <-]].
  cbv zeta.
  set (base_image := if mode_eqb (mode opened) ModeRGBA then opened
                     else convert ModeRGBA opened).
  destruct (image_stage env base_image base_image watermark_path scale_factor
              padding w) as [[out | e] w1] eqn:Ei.
  - assert (H1 : saved w1 = saved w).
    { rewrite image_stage_cases in Ei.
      destruct watermark_path as [[| c s] |]; injection Ei as _ <-; reflexivity. }
    destruct (text_stage env out text_watermark font_size text_color text_padding
                text_outline_color text_outline_width w1) as [[out' | e] w2] eqn:Et.
    + pose proof (text_stage_saved _ _ _ _ _ _ _ _ _ _ Et) as H2.
      pose proof (save_stage_saved out' output_path w2) as H3.
      rewrite H2, H1 in H3. intros E. rewrite E in H3. exact H3.
    + intros [= <- <-]. rewrite (text_stage_saved _ _ _ _ _ _ _ _ _ _ Et).
      exact H1.
  - intros [= <- <-]. rewrite image_stage_cases in Ei.
    destruct watermark_path as [[| c s] |]; injection Ei as _ <-; reflexivity.
Qed.

(** X15: a call of [apply_watermark] writes at most one file, and
    only at [output_path]: when it returns, the files saved are those
    saved before and the output; when it raises, whatever the stage,
    no file has been saved. *)
Theorem X15_saves_only_the_output
    (image_path : string) (watermark_path : option string)
    (output_path : string) (scale_factor : spec_float) (padding : Z)
    (text_watermark : option pystr) (font_size : Z) (text_color : Color)
    (text_padding : Z) (text_outline_color : Color) (text_outline_width : Z)
    (w : World) :
  let r := apply_watermark env image_path watermark_path output_path scale_factor
             padding text_watermark font_size text_color text_padding
             text_outline_color text_outline_width w in
  match fst r with
  | Ok _ => exists final_image,
              saved (snd r) = (saved w ++ [(output_path, final_image)])%list
  | Raise _ => saved (snd r) = saved w
  end.
Proof.
  cbv zeta.
  destruct (apply_watermark env image_path watermark_path output_path
              scale_factor padding text_watermark font_size text_color
              text_padding text_outline_color text_outline_width w)
    as [r w'] eqn:E.
  cbn [fst snd]. eapply apply_watermark_saved. exact E.
Qed.
End StagesMore.


(** X11 on the sample machine: the logo composed on the photograph. *)
Lemma X11_image_stage_keeps_size_witness :
  match image_stage sample_env sample_rgba sample_rgba (Some "watermark.png")
                    float_0_2 10 empty_world with
  | (Ok out, w') => width out = 1000 /\ height out = 800 /\ saved w' = []
  | (Raise _, _) => False
  end.
Proof.
  destruct (image_stage sample_env sample_rgba sample_rgba (Some "watermark.png")
              float_0_2 10 empty_world) as [[out | e] w'] eqn:H.
  - destruct (X11_image_stage_keeps_size sample_env _ _ _ _ _ _ _ _ H eq_refl)
      as ((_ & Hw & Hh) & _ & _ & Hs).
    rewrite Hw, Hh, Hs. repeat split.
  - apply (f_equal (fun r => is_ok (fst r))) in H. vm_compute in H.
    discriminate.
Defined.

(** X13 on the sample machine, with the photograph itself (an RGB
    image) passed as the watermark. *)
Lemma X13_overlay_without_alpha_aborts_witness :
  fst (apply_watermark sample_env "input/a.png" (Some "input/a.png")
         "output/a.png" float_0_2 10 (Some text_PROOF) 40 white 20 black 2
         empty_world)
  = Raise (mkExn ValueError "bad transparency mask").
Proof.
  refine (f_equal fst (proj1
    (X13_overlay_without_alpha_aborts sample_env "input/a.png" "input/a.png"
       "output/a.png" float_0_2 10 (Some text_PROOF) 40 white 20 black 2
       empty_world sample_base sample_base 200 160
       eq_refl _ eq_refl eq_refl (or_introl eq_refl) _ _ _ _ _ eq_refl eq_refl
       eq_refl _ _))).
  - discriminate.
  - cbn. lia.
  - cbn. lia.
  - vm_compute. reflexivity.
  - lia.
  - lia.
  - cbn. lia.
  - cbn. lia.
Defined.

(** X14 on the sample machine, with a scale factor of 0.0. *)
Lemma X14_empty_overlay_size_aborts_witness :
  fst (apply_watermark sample_env "input/a.png" (Some "watermark.png")
         "output/a.png" (S754_zero false) 10 (Some text_PROOF) 40 white 20
         black 2 empty_world)
  = Raise (mkExn ValueError "height and width must be > 0").
Proof.
  refine (f_equal fst (proj1
    (X14_empty_overlay_size_aborts sample_env "input/a.png" "watermark.png"
       "output/a.png" (S754_zero false) 10 (Some text_PROOF) 40 white 20 black 2
       empty_world sample_base sample_logo 0 0
       eq_refl _ eq_refl eq_refl _ eq_refl eq_refl _))).
  - discriminate.
  - vm_compute. reflexivity.
  - lia.
Defined.

(** ** The save stage *)

(** The colours of the RGBA image once flattened on white, at a pixel
    inside the image. *)
Lemma flatten_on_white_pixel output_image final_image x y :
  flatten_on_white output_image = Ok final_image ->
  mode output_image = ModeRGBA ->
  in_box 0 0 (width output_image) (height output_image) x y = true ->
  let p := pixel output_image x y in
  pixel final_image x y
  = blend_pixel (chA p) (mkPixel 255 255 255 255)
                (mkPixel (chR p) (chG p) (chB p) 255).
Proof.
  unfold flatten_on_white, paste. cbn [mask_of alpha_band mode Image_new].
  intros E Hm Hin. cbn [width height Image_new] in E.
  rewrite (in_boxes_not_clipped _ _ _ _ _ _ _ _ Hin Hin) in E.
  injection E as <-. cbn [pixel width height]. rewrite Hm.
  cbn [mode_eqb convert pixel chR]. rewrite Hin. cbn [andb].
  now rewrite !Z.sub_0_r.
Qed.

Section SaveMore.
Variable env : Env.

(** X16: for an output path whose extension is .jpg or .jpeg in any
    letter case, the file saved is an RGB image of the size of the
    RGBA image: where that image is opaque (alpha 255) it keeps its
    colour, where it is fully transparent (alpha 0) it is white. *)
Theorem X16_jpeg_output_is_flattened_on_white
    (output_image : Image) (output_path : string) (w : World) :
  str_in (lower (splitext_ext env output_path)) [".jpg"; ".jpeg"] = true ->
  mode output_image = ModeRGBA ->
  makedirs_error env (dirname env output_path) = None ->
  (forall im, save_error env output_path im = None) ->
  exists final_image w',
    save_stage env output_image output_path w = (Ok tt, w')
    /\ saved w' = (saved w ++ [(output_path, final_image)])%list
    /\ mode final_image = ModeRGB
    /\ width final_image = width output_image
    /\ height final_image = height output_image
    /\ forall x y,
         in_box 0 0 (width output_image) (height output_image) x y = true ->
         pixel_in_range (pixel output_image x y) ->
         let p := pixel output_image x y in
         let q := pixel final_image x y in
         (chA p = 255 -> chR q = chR p /\ chG q = chG p /\ chB q = chB p)
         /\ (chA p = 0 -> chR q = 255 /\ chG q = 255 /\ chB q = 255).
Proof.
  intros Hext Hm Hd Hs.
  destruct (flatten_on_white_ok output_image) as [final_image Hf].
  exists final_image. eexists. split; [| split; [| split; [| split; [| split]]]].
  - unfold save_stage, bind. rewrite Hext. unfold lift. rewrite Hf.
    unfold os_makedirs, Image_save. rewrite Hd, Hs. reflexivity.
  - reflexivity.
  - unfold flatten_on_white, paste in Hf. cbn in Hf.
    destruct (_ || _) in Hf; now injection Hf as <-.
  - unfold flatten_on_white, paste in Hf. cbn in Hf.
    destruct (_ || _) in Hf; now injection Hf as <-.
  - unfold flatten_on_white, paste in Hf. cbn in Hf.
    destruct (_ || _) in Hf; now injection Hf as <-.
  - intros x y Hin (HR & HG & HB & HA). cbv zeta.
    rewrite (flatten_on_white_pixel _ _ x y Hf Hm Hin). cbv zeta.
    unfold blend_pixel. cbn [chR chG chB chA]. split; intros ->.
    + now rewrite !BLEND8_opaque.
    + rewrite !BLEND8_keep by lia. auto.
Qed.

(** X17: with no watermark file (no path, an empty path, or a path
    that does not exist), no text and an output that is not a JPEG,
    [apply_watermark] saves the picture as it was opened, converted to
    RGBA if it was not: same size, same pixels; it prints nothing. *)
Theorem X17_nothing_to_apply_saves_the_picture
    (image_path : string) (watermark_path : option string)
    (output_path : string) (scale_factor : spec_float) (padding : Z)
    (text_watermark : option pystr) (font_size : Z) (text_color : Color)
    (text_padding : Z) (text_outline_color : Color) (text_outline_width : Z)
    (w : World) (opened : Image) :
  image_open env image_path = Ok opened ->
  match watermark_path with
  | Some p => p = "" \/ os_path_exists env p = false
  | None => True
  end ->
  text_truthy text_watermark = false ->
  str_in (lower (splitext_ext env output_path)) [".jpg"; ".jpeg"] = false ->
  makedirs_error env (dirname env output_path) = None ->
  (forall im, save_error env output_path im = None) ->
  exists final_image w',
    apply_watermark env image_path watermark_path output_path scale_factor padding
      text_watermark font_size text_color text_padding text_outline_color
      text_outline_width w = (Ok tt, w')
    /\ saved w' = (saved w ++ [(output_path, final_image)])%list
    /\ stdout w' = stdout w
    /\ mode final_image = ModeRGBA
    /\ width final_image = width opened
    /\ height final_image = height opened
    /\ forall x y, pixel final_image x y = pixel opened x y.
Proof.
  intros Ho Hp Ht Hext Hd Hs.
  set (base_image := if mode_eqb (mode opened) ModeRGBA then opened
                     else convert ModeRGBA opened).
  exists base_image.
  destruct (image_stage_skipped env base_image base_image watermark_path
              scale_factor padding w Hp) as (w1 & Hi & _ & Ho1 & Hs1).
  exists {| font_cache := font_cache w1; stdout := stdout w1;
            probes := probes w1;
            saved := saved w1 ++ [(output_path, base_image)] |}.
  split; [| split; [| split; [| split; [| split; [| split]]]]].
  - rewrite apply_watermark_stages, Ho. cbv zeta. fold base_image. rewrite Hi.
    unfold text_stage. rewrite Ht. unfold ret at 1.
    unfold save_stage, bind. rewrite Hext. unfold ret at 1.
    unfold os_makedirs, Image_save. rewrite Hd, Hs. reflexivity.
  - cbn. now rewrite Hs1.
  - exact Ho1.
  - unfold base_image. destruct (mode opened) eqn:Em; cbn; auto.
  - apply width_base_image.
  - unfold base_image. now destruct (mode_eqb _ _).
  - intros x y. unfold base_image. now destruct (mode_eqb _ _).
Qed.
End SaveMore.

(** X16 on the sample logo, saved as "output/a.JPG". *)
Lemma X16_jpeg_output_is_flattened_on_white_witness :
  exists final_image w',
    save_stage jpeg_env sample_logo "output/a.JPG" empty_world = (Ok tt, w')
    /\ saved w' = [("output/a.JPG", final_image)]
    /\ chR (pixel final_image 300 100) = 255
    /\ chG (pixel final_image 100 100) = 0.
Proof.
  destruct (X16_jpeg_output_is_flattened_on_white jpeg_env sample_logo
              "output/a.JPG" empty_world eq_refl eq_refl eq_refl
              (fun _ => eq_refl))
    as (final_image & w' & Hrun & Hsaved & _ & _ & _ & Hpix).
  exists final_image, w'. split; [exact Hrun |]. split; [exact Hsaved |].
  assert (Hr : forall x y, pixel_in_range (pixel sample_logo x y)).
  { intros x y. unfold pixel_in_range. cbn. destruct (x <? 200)%Z; cbn; lia. }
  split.
  - exact (proj1 (proj2 (Hpix 300 100 eq_refl (Hr _ _)) eq_refl)).
  - exact (proj1 (proj2 (proj1 (Hpix 100 100 eq_refl (Hr _ _)) eq_refl))).
Defined.

(** X17 on the sample machine: no watermark path, no text. *)
Lemma X17_nothing_to_apply_saves_the_picture_witness :
  exists final_image w',
    apply_watermark sample_env "input/a.png" None "output/a.png" float_0_15 10
      None 40 white 20 black 2 empty_world = (Ok tt, w')
    /\ saved w' = [("output/a.png", final_image)]
    /\ pixel final_image 5 5 = mkPixel 128 128 128 255.
Proof.
  destruct (X17_nothing_to_apply_saves_the_picture sample_env "input/a.png" None
              "output/a.png" float_0_15 10 None 40 white 20 black 2 empty_world
              sample_base eq_refl I eq_refl eq_refl eq_refl (fun _ => eq_refl))
    as (final_image & w' & Hrun & Hsaved & _ & _ & _ & _ & Hpix).
  exists final_image, w'. split; [exact Hrun |]. split; [exact Hsaved |].
  exact (Hpix 5 5).
Defined.


(** ** [find_text_file] *)

Lemma list_ascii_of_string_app (a b : string) :
  list_ascii_of_string (a +:+ b)
  = (list_ascii_of_string a ++ list_ascii_of_string b)%list.
Proof.
  induction a as [| c a IH]; [reflexivity |].
  change (String c a +:+ b) with (String c (a +:+ b)).
  cbn [list_ascii_of_string app]. now rewrite IH.
Qed.

Lemma string_of_list_ascii_app (a b : list ascii) :
  string_of_list_ascii (a ++ b)
  = string_of_list_ascii a +:+ string_of_list_ascii b.
Proof.
  induction a as [| c a IH]; [reflexivity |].
  cbn [app string_of_list_ascii]. rewrite IH. reflexivity.
Qed.

(** [rfind] answers -1 or an index of the string. *)
Lemma rfind_from_range c p i :
  0 <= i ->
  rfind_from c p i = -1 \/ i <= rfind_from c p i < i + Z.of_nat (length p).
Proof.
  revert i. induction p as [| a rest IH]; intros i Hi; [now left |].
  cbn [rfind_from length]. destruct (IH (i + 1)) as [-> | Hr]; [lia | |].
  - cbn. destruct (Ascii.eqb a c); [right; lia | now left].
  - replace (0 <=? rfind_from c rest (i + 1))%Z with true
      by (symmetry; apply Z.leb_le; lia).
    right. lia.
Qed.

Lemma rfind_from_absent c p i :
  forallb (fun a => negb (Ascii.eqb a c)) p = true -> rfind_from c p i = -1.
Proof.
  revert i. induction p as [| a rest IH]; intros i H; [reflexivity |].
  cbn in H. apply andb_true_iff in H as [Ha Hrest].
  cbn [rfind_from]. rewrite (IH _ Hrest). cbn.
  now destruct (Ascii.eqb a c).
Qed.

(** Characters after the last [c] do not move it. *)
Lemma rfind_from_app_absent c p q i :
  forallb (fun a => negb (Ascii.eqb a c)) q = true ->
  rfind_from c (p ++ q) i = rfind_from c p i.
Proof.
  intros Hq. revert i. induction p as [| a rest IH]; intros i.
  - cbn. now apply rfind_from_absent.
  - cbn [app rfind_from]. now rewrite IH.
Qed.

Lemma rfind_from_last c p q i :
  0 <= i ->
  forallb (fun a => negb (Ascii.eqb a c)) q = true ->
  rfind_from c (p ++ c :: q) i = i + Z.of_nat (length p).
Proof.
  intros Hi Hq. revert i Hi. induction p as [| a rest IH]; intros i Hi.
  - cbn [app rfind_from length]. rewrite (rfind_from_absent _ _ _ Hq). cbn.
    rewrite Ascii.eqb_refl. lia.
  - cbn [app rfind_from length]. rewrite IH by lia.
    replace (0 <=? i + 1 + Z.of_nat (length rest))%Z with true
      by (symmetry; apply Z.leb_le; lia).
    lia.
Qed.

Lemma meets_non_dot_existsb name :
  meets_non_dot name = existsb (fun c => negb (Ascii.eqb c "."%char)) name.
Proof.
  induction name as [| c rest IH]; [reflexivity |].
  cbn. now destruct (Ascii.eqb c "."%char).
Qed.

(** A string without separator has neither [os.sep] nor [os.altsep]. *)
Lemma no_separator_absent pf l :
  forallb (fun c => negb (is_separator pf c)) l = true ->
  forallb (fun a => negb (Ascii.eqb a (os_sep pf))) l = true
  /\ forall altsep, os_altsep pf = Some altsep ->
       forallb (fun a => negb (Ascii.eqb a altsep)) l = true.
Proof.
  induction l as [| c rest IH]; [now split |].
  cbn [forallb]. intros H. apply andb_true_iff in H as [Hc Hrest].
  destruct (IH Hrest) as [IH1 IH2]. unfold is_separator in Hc.
  apply negb_true_iff, orb_false_iff in Hc as [Hc1 Hc2]. split.
  - now rewrite Hc1, IH1.
  - intros altsep Ha. rewrite Ha in Hc2. now rewrite Hc2, (IH2 _ Ha).
Qed.

(** The index of the last separator of [dir ++ rest], when [rest] has
    no separator, falls in [dir]. *)
Lemma last_separator_in_dir pf dir rest :
  forallb (fun c => negb (is_separator pf c)) rest = true ->
  let chars := (dir ++ rest)%list in
  let sepIndex := rfind (os_sep pf) chars in
  let sepIndex :=
    match os_altsep pf with
    | Some altsep => Z.max sepIndex (rfind altsep chars)
    | None => sepIndex
    end in
  -1 <= sepIndex < Z.of_nat (length dir).
Proof.
  intros H. destruct (no_separator_absent _ _ H) as [H1 H2]. cbv zeta.
  unfold rfind. rewrite (rfind_from_app_absent _ dir rest 0 H1).
  pose proof (rfind_from_range (os_sep pf) dir 0 ltac:(lia)) as R1.
  destruct (os_altsep pf) as [altsep |]; [| lia].
  rewrite (rfind_from_app_absent _ dir rest 0 (H2 _ eq_refl)).
  pose proof (rfind_from_range altsep dir 0 ltac:(lia)) as R2. lia.
Qed.

(** [os.path.splitext] on a path with a directory part, a file name
    that holds a character other than the dot, and an extension. *)
Lemma os_path_splitext_ext pf (dir name ext : string) :
  forallb (fun c => negb (is_separator pf c)) (list_ascii_of_string name) = true ->
  existsb (fun c => negb (Ascii.eqb c "."%char)) (list_ascii_of_string name)
    = true ->
  forallb (fun c => negb (Ascii.eqb c "."%char) && negb (is_separator pf c))
          (list_ascii_of_string ext) = true ->
  os_path_splitext pf (dir +:+ name +:+ "." +:+ ext)
  = (dir +:+ name, "." +:+ ext).
Proof.
  intros Hname Hdot Hext.
  set (D := list_ascii_of_string dir). set (N := list_ascii_of_string name) in *.
  set (E := list_ascii_of_string ext) in *.
  assert (HE1 : forallb (fun a => negb (Ascii.eqb a "."%char)) E = true).
  { clearbody E. clear -Hext. induction E as [| c r IH]; [reflexivity |].
    cbn in *. apply andb_true_iff in Hext as [Hc Hr].
    apply andb_true_iff in Hc as [Hc _]. now rewrite Hc, IH. }
  assert (HE2 : forallb (fun c => negb (is_separator pf c)) E = true).
  { clearbody E. clear -Hext. induction E as [| c r IH]; [reflexivity |].
    cbn in *. apply andb_true_iff in Hext as [Hc Hr].
    apply andb_true_iff in Hc as [_ Hc]. now rewrite Hc, IH. }
  assert (Hrest : forallb (fun c => negb (is_separator pf c))
                          (N ++ "."%char :: E) = true).
  { rewrite forallb_app. cbn [forallb]. rewrite Hname, HE2.
    now destruct pf. }
  assert (Hchars : list_ascii_of_string (dir +:+ name +:+ "." +:+ ext)
                   = (D ++ N ++ "."%char :: E)%list).
  { now rewrite !list_ascii_of_string_app. }
  unfold os_path_splitext. rewrite Hchars.
  pose proof (last_separator_in_dir pf D _ Hrest) as Hsep. cbv zeta in Hsep.
  set (sepIndex := match os_altsep pf with
                   | Some altsep =>
                       Z.max (rfind (os_sep pf) (D ++ N ++ "."%char :: E))
                             (rfind altsep (D ++ N ++ "."%char :: E))
                   | None => rfind (os_sep pf) (D ++ N ++ "."%char :: E)
                   end) in *.
  assert (Hdi : rfind "."%char (D ++ N ++ "."%char :: E)
                = Z.of_nat (length (D ++ N))).
  { unfold rfind. rewrite (app_assoc D N).
    rewrite (rfind_from_last _ _ _ 0 ltac:(lia) HE1). lia. }
  rewrite Hdi.
  replace (sepIndex <? Z.of_nat (length (D ++ N)))%Z with true
    by (symmetry; apply Z.ltb_lt; rewrite length_app; lia).
  assert (Hslice : exists X,
             slice (sepIndex + 1) (Z.of_nat (length (D ++ N)))
                   (D ++ N ++ "."%char :: E) = (X ++ N)%list).
  { exists (drop (Z.to_nat (sepIndex + 1)) D). unfold slice.
    rewrite drop_app_le by lia. rewrite app_assoc.
    apply take_app_length'. rewrite !length_app, length_drop. lia. }
  destruct Hslice as [X ->].
  rewrite meets_non_dot_existsb, existsb_app, Hdot, orb_true_r. cbn [andb].
  rewrite Nat2Z.id, (app_assoc D N).
  rewrite take_app_length, drop_app_length.
  rewrite string_of_list_ascii_app. unfold D, N.
  rewrite !string_of_list_ascii_of_string. f_equal.
  cbn. unfold E. now rewrite string_of_list_ascii_of_string.
Qed.

Section FindTextFile.
Variable benv : BatchEnv.

(** [find_text_file] probes the sidecar path once and returns it when
    it exists. *)
Lemma find_text_file_eq image_path w :
  find_text_file benv image_path w
  = (Ok (if os_path_exists (machine benv) (sidecar_path benv image_path)
         then Some (sidecar_path benv image_path) else None),
     snd (record_probe (ProbeExists (sidecar_path benv image_path)) w)).
Proof.
  unfold find_text_file, sidecar_path, bind, path_exists, bind, record_probe, ret.
  now destruct (os_path_exists (machine benv) _).
Qed.

(** X18: for an image path made of a directory part, a file name that
    holds a character other than the dot, a dot and an extension (with
    neither dot nor separator), [find_text_file] looks at one path,
    the image path with ".txt" in place of the extension, and returns
    it when it exists, [None] otherwise.  So pictures that differ only
    in their extension share one text file. *)
Theorem X18_sidecar_replaces_extension (dir name ext : string) (w : World) :
  forallb (fun c => negb (is_separator (platform benv) c))
          (list_ascii_of_string name) = true ->
  existsb (fun c => negb (Ascii.eqb c "."%char)) (list_ascii_of_string name)
    = true ->
  forallb (fun c => negb (Ascii.eqb c "."%char)
                    && negb (is_separator (platform benv) c))
          (list_ascii_of_string ext) = true ->
  find_text_file benv (dir +:+ name +:+ "." +:+ ext) w
  = (Ok (if os_path_exists (machine benv) ((dir +:+ name) +:+ ".txt")
         then Some ((dir +:+ name) +:+ ".txt") else None),
     snd (record_probe (ProbeExists ((dir +:+ name) +:+ ".txt")) w)).
Proof.
  intros Hname Hdot Hext. rewrite find_text_file_eq. unfold sidecar_path.
  now rewrite (os_path_splitext_ext _ dir name ext Hname Hdot Hext).
Qed.
End FindTextFile.

(** X18 on the sample batch: "input/a.png" and "input/a.jpeg" both
    have the text file "input/a.txt". *)
Lemma X18_sidecar_replaces_extension_witness :
  fst (find_text_file sample_batch "input/a.png" empty_world)
  = Ok (Some "input/a.txt")
  /\ fst (find_text_file sample_batch "input/a.jpeg" empty_world)
     = Ok (Some "input/a.txt").
Proof.
  split.
  - exact (f_equal fst
      (X18_sidecar_replaces_extension sample_batch "input/" "a" "png"
         empty_world eq_refl eq_refl eq_refl)).
  - exact (f_equal fst
      (X18_sidecar_replaces_extension sample_batch "input/" "a" "jpeg"
         empty_world eq_refl eq_refl eq_refl)).
Defined.


(** ** [process_images] *)

Lemma first_by_key_sublist key paths seen :
  sublist (first_by_key key paths seen) paths.
Proof.
  revert seen. induction paths as [| p rest IH]; intros seen; cbn.
  - constructor.
  - destruct (decide (key p ∈ seen)).
    + apply sublist_cons, IH.
    + apply sublist_skip, IH.
Qed.

Lemma first_by_key_fresh key paths seen p :
  p ∈ first_by_key key paths seen -> key p ∉ seen.
Proof.
  revert seen. induction paths as [| a rest IH]; intros seen; cbn.
  - intros H. inversion H.
  - destruct (decide (key a ∈ seen)) as [Hin | Hout]; [apply IH |].
    intros H. apply elem_of_cons in H as [-> | H]; [exact Hout |].
    apply IH in H. set_solver.
Qed.

Lemma first_by_key_NoDup key paths seen :
  NoDup (key <$> first_by_key key paths seen).
Proof.
  revert seen. induction paths as [| a rest IH]; intros seen; cbn.
  - constructor.
  - destruct (decide (key a ∈ seen)) as [Hin | Hout]; [apply IH |].
    cbn. constructor; [| apply IH].
    intros H. apply list_elem_of_fmap in H as (q & Hq & Hin).
    apply first_by_key_fresh in Hin. set_solver.
Qed.

Lemma first_by_key_cover key paths seen p :
  p ∈ paths ->
  key p ∈ seen \/ key p ∈ key <$> first_by_key key paths seen.
Proof.
  revert seen. induction paths as [| a rest IH]; intros seen H.
  - inversion H.
  - cbn. destruct (decide (key a ∈ seen)) as [Hin | Hout].
    + apply elem_of_cons in H as [-> | H]; [now left | now apply IH].
    + apply elem_of_cons in H as [-> | H].
      * right. cbn. left.
      * destruct (IH ({[ key a ]} ∪ seen) H) as [Hs | Hs].
        -- apply elem_of_union in Hs as [Hs | Hs]; [| now left].
           apply elem_of_singleton in Hs. right. cbn. rewrite Hs. left.
        -- right. cbn. now right.
Qed.

Lemma first_by_key_app key l1 l2 seen :
  first_by_key key (l1 ++ l2) seen
  = (first_by_key key l1 seen
     ++ first_by_key key l2 (list_to_set (key <$> l1) ∪ seen))%list.
Proof.
  revert seen. induction l1 as [| a rest IH]; intros seen; cbn.
  - f_equal. set_solver.
  - destruct (decide (key a ∈ seen)) as [Hin | Hout].
    + rewrite IH. f_equal. f_equal. set_solver.
    + cbn. rewrite IH. f_equal. f_equal. f_equal. set_solver.
Qed.

(** A loop whose steps all return, each keeping a relation on the
    state, returns and keeps the relation. *)
Lemma for_each_ok_inv {S A} (xs : list A) (body : A -> M S unit)
    (R : S -> S -> Prop) :
  (forall s, R s s) ->
  (forall a b c, R a b -> R b c -> R a c) ->
  (forall x, x ∈ xs -> forall s, exists s', body x s = (Ok tt, s') /\ R s s') ->
  forall s, exists s', for_each xs body s = (Ok tt, s') /\ R s s'.
Proof.
  intros Hrefl Htrans. induction xs as [| x rest IH]; intros Hbody s.
  - exists s. split; [reflexivity | apply Hrefl].
  - destruct (Hbody x ltac:(left) s) as (s1 & E1 & R1).
    destruct (IH (fun y Hy => Hbody y ltac:(now right)) s1) as (s2 & E2 & R2).
    exists s2. split; [| eauto].
    cbn [for_each]. unfold bind. now rewrite E1.
Qed.

(** A loop stops at the first step that raises. *)
Lemma for_each_stops {S A} (pre post : list A) (x : A) (body : A -> M S unit)
    s s1 s2 e :
  for_each pre body s = (Ok tt, s1) ->
  body x s1 = (Raise e, s2) ->
  for_each (pre ++ x :: post) body s = (Raise e, s2).
Proof.
  intros Hpre Hx. rewrite for_each_app. unfold bind at 1. rewrite Hpre.
  cbn [for_each]. unfold bind. now rewrite Hx.
Qed.

Lemma sidecar_path_truthy benv image_path :
  path_truthy (Some (sidecar_path benv image_path)) = true.
Proof.
  unfold sidecar_path.
  now destruct (fst (os_path_splitext (platform benv) image_path)).
Qed.

(** A loop keeps a relation on the state that each step keeps, and
    raises only what a step raises. *)
Lemma for_each_inv {S A} (xs : list A) (body : A -> M S unit)
    (R : S -> S -> Prop) (P : Exn -> Prop) :
  (forall s, R s s) ->
  (forall a b c, R a b -> R b c -> R a c) ->
  (forall x, x ∈ xs -> forall s r s', body x s = (r, s') ->
     R s s' /\ match r with Ok _ => True | Raise e => P e end) ->
  forall s r s', for_each xs body s = (r, s') ->
    R s s' /\ match r with Ok _ => True | Raise e => P e end.
Proof.
  intros Hrefl Htrans. induction xs as [| x rest IH]; intros Hbody s r s'.
  - intros [= <- <-]. split; [apply Hrefl | exact I].
  - cbn [for_each]. unfold bind.
    destruct (body x s) as [[[] | e] s1] eqn:E1;
      destruct (Hbody x ltac:(left) s _ s1 E1) as [R1 P1].
    + intros E2.
      destruct (IH (fun y Hy => Hbody y ltac:(now right)) s1 r s' E2)
        as [R2 P2].
      split; [eauto | exact P2].
    + intros [= <- <-]. split; [exact R1 | exact P1].
Qed.

(** [read_watermark_text] saves nothing and stores no font; it
    answers [None] or a trimmed text that is not empty, or raises what
    the console raises. *)
Lemma read_watermark_text_run env text_file_path w r w' :
  read_watermark_text env text_file_path w = (r, w') ->
  saved w' = saved w /\ font_cache w' = font_cache w
  /\ match r with
     | Ok t => stripped_or_none t /\ t <> Some []
     | Raise e => exists line, stdout_error env line = Some e
     end.
Proof.
  rewrite read_watermark_text_cases.
  destruct (read_decoded env text_file_path) as [raw | e0].
  - intros [= <- <-]. split; [reflexivity |]. split; [reflexivity |].
    split; [apply strip_answer_ok |]. destruct (strip raw); cbn; congruence.
  - intros E. apply print_then_ret in E as ((C & S & _) & H).
    split; [exact S |]. split; [exact C |]. destruct r as [t | e].
    + destruct H as (-> & _). split; [exact I | congruence].
    + destruct H as (_ & H). eauto.
Qed.

Section BatchFacts.
Variable benv : BatchEnv.
Variables input_folder output_folder : string.
Variable watermark_path : option string.
Variable scale_factor : spec_float.
Variables padding font_size : Z.
Variable text_color : Color.
Variable text_padding : Z.

Local Abbreviation body :=
  (process_image benv input_folder output_folder watermark_path scale_factor
                 padding font_size text_color text_padding).

(** The text step of the batch once the text file is looked for. *)
Lemma sidecar_text_eq image_path rel_path w :
  sidecar_text benv image_path rel_path w
  = let w0 := snd (record_probe
                     (ProbeExists (sidecar_path benv image_path)) w) in
    if os_path_exists (machine benv) (sidecar_path benv image_path)
    then
      (do text_watermark <-
         read_watermark_text (machine benv) (sidecar_path benv image_path);
       if text_truthy text_watermark then
         do shown <- lift (stdout_encode benv (default [] text_watermark));
         do_ print (machine benv)
                   ("Found text watermark for " +:+ rel_path
                    +:+ ": " +:+ shown);
         ret text_watermark
       else ret text_watermark) w0
    else (Ok None, w0).
Proof.
  unfold sidecar_text, bind at 1. rewrite find_text_file_eq. cbv zeta.
  destruct (os_path_exists (machine benv) (sidecar_path benv image_path));
    [| reflexivity].
  now rewrite sidecar_path_truthy.
Qed.

(** The text step saves nothing and stores no font; the text it hands
    on is [None] or a trimmed text that is not empty; it raises only
    what the console raises, on the text or on a line. *)
Lemma sidecar_text_outcome image_path rel_path w r w' :
  sidecar_text benv image_path rel_path w = (r, w') ->
  saved w' = saved w /\ font_cache w' = font_cache w
  /\ match r with
     | Ok t => stripped_or_none t /\ t <> Some []
     | Raise e =>
         (exists t, stdout_encode benv t = Raise e)
         \/ (exists line, stdout_error (machine benv) line = Some e)
     end.
Proof.
  rewrite sidecar_text_eq. cbv zeta.
  destruct (os_path_exists (machine benv) (sidecar_path benv image_path)).
  2: { intros [= <- <-]. cbn. repeat split. congruence. }
  unfold bind at 1.
  destruct (read_watermark_text (machine benv) (sidecar_path benv image_path) _)
    as [[t | e] w1] eqn:Er;
    apply read_watermark_text_run in Er as (S1 & C1 & H1);
    cbn [saved font_cache record_probe snd] in S1, C1.
  - destruct t as [[| c t] |].
    + now destruct (proj2 H1).
    + cbn [text_truthy str_truthy].
      change (default [] (Some (c :: t))) with (c :: t).
      unfold bind at 1, lift.
      destruct (stdout_encode benv (c :: t)) as [shown | e] eqn:Ee.
      * intros E. apply print_then_ret in E as ((C2 & S2 & _) & H2).
        split; [congruence |]. split; [congruence |].
        destruct r as [t' | e].
        -- destruct H2 as (-> & _). exact H1.
        -- right. destruct H2 as (_ & H2). eauto.
      * intros [= <- <-]. split; [exact S1 |]. split; [exact C1 |].
        left. eauto.
    + cbn [text_truthy]. intros [= <- <-]. auto.
  - intros [= <- <-]. split; [exact S1 |]. split; [exact C1 |].
    right. exact H1.
Qed.

(** One image of the batch, once its relative path is known. *)
Lemma process_image_outcome image_path rel_path w r w' :
  os_path_relpath benv image_path input_folder = Ok rel_path ->
  body image_path w = (r, w') ->
  match r with
  | Ok _ =>
      (exists final_image,
         saved w' = (saved w ++ [(os_path_join benv output_folder [rel_path],
                                  final_image)])%list
         /\ last (stdout w') = Some ("Processed: " +:+ rel_path))
      \/ (exists e,
            saved w' = saved w
            /\ last (stdout w')
               = Some ("Error processing " +:+ rel_path +:+ ": " +:+ exn_str e))
      \/ (exists final_image e,
            saved w' = (saved w ++ [(os_path_join benv output_folder [rel_path],
                                     final_image)])%list
            /\ stdout_error (machine benv) ("Processed: " +:+ rel_path) = Some e
            /\ last (stdout w')
               = Some ("Error processing " +:+ rel_path +:+ ": " +:+ exn_str e))
  | Raise e =>
      (saved w' = saved w
       /\ ((exists t, stdout_encode benv t = Raise e)
           \/ (exists line, stdout_error (machine benv) line = Some e)))
      \/ (exists final_image e0,
            saved w' = (saved w ++ [(os_path_join benv output_folder [rel_path],
                                     final_image)])%list
            /\ stdout_error (machine benv) ("Processed: " +:+ rel_path) = Some e0
            /\ stdout_error (machine benv)
                 ("Error processing " +:+ rel_path +:+ ": " +:+ exn_str e0)
               = Some e)
  end.
Proof.
  intros Hrel. unfold process_image, bind at 1, lift at 1. rewrite Hrel.
  unfold bind at 1.
  destruct (sidecar_text benv image_path rel_path w) as [[t | e] w1] eqn:Es;
    apply sidecar_text_outcome in Es as (Hs1 & _ & H1).
  - unfold try_except, bind.
    destruct (apply_watermark (machine benv) image_path watermark_path
                (os_path_join benv output_folder [rel_path]) scale_factor padding
                t font_size text_color text_padding (0, 0, 0) 2 w1)
      as [[[] | e] w2] eqn:Ea;
      pose proof (apply_watermark_saved _ _ _ _ _ _ _ _ _ _ _ _ _ _ _ Ea) as Hsv;
      cbn in Hsv.
    + destruct Hsv as [final_image Hsv]. rewrite Hs1 in Hsv.
      destruct (stdout_error (machine benv) ("Processed: " +:+ rel_path))
        as [e0 |] eqn:Ep.
      * rewrite (print_raise _ _ _ _ Ep).
        destruct (stdout_error (machine benv)
                    ("Error processing " +:+ rel_path +:+ ": " +:+ exn_str e0))
          as [e1 |] eqn:Eh.
        -- rewrite (print_raise _ _ _ _ Eh). intros [= <- <-].
           right. exists final_image, e0. auto.
        -- rewrite (print_ok _ _ _ Eh). intros [= <- <-].
           right. right. exists final_image, e0. cbn [saved stdout].
           split; [exact Hsv |]. split; [reflexivity | apply last_snoc].
      * rewrite (print_ok _ _ _ Ep). intros [= <- <-].
        left. exists final_image. cbn [saved stdout].
        split; [exact Hsv | apply last_snoc].
    + rewrite Hs1 in Hsv.
      destruct (stdout_error (machine benv)
                  ("Error processing " +:+ rel_path +:+ ": " +:+ exn_str e))
        as [e1 |] eqn:Eh.
      * rewrite (print_raise _ _ _ _ Eh). intros [= <- <-].
        left. split; [exact Hsv |]. right. eauto.
      * rewrite (print_ok _ _ _ Eh). intros [= <- <-].
        right. left. exists e. cbn [saved stdout].
        split; [exact Hsv | apply last_snoc].
  - intros [= <- <-]. left. split; [exact Hs1 | exact H1].
Qed.

Lemma process_paths_spec paths seen w :
  process_paths benv input_folder output_folder watermark_path scale_factor
    padding font_size text_color text_padding paths seen w
  = match for_each (first_by_key (path_lower benv) paths seen) body w with
    | (Ok _, w') => (Ok (list_to_set (path_lower benv <$> paths) ∪ seen), w')
    | (Raise e, w') => (Raise e, w')
    end.
Proof.
  revert seen w. induction paths as [| p rest IH]; intros seen w.
  - cbn. unfold ret. f_equal. f_equal. set_solver.
  - cbn [process_paths first_by_key].
    destruct (decide (path_lower benv p ∈ seen)) as [Hin | Hout].
    + rewrite IH. destruct (for_each _ _ w) as [[[] | e] w1]; [| reflexivity].
      f_equal. f_equal. set_solver.
    + cbn [for_each]. unfold bind.
      destruct (body p w) as [[[] | e] w1]; [| reflexivity].
      rewrite IH. destruct (for_each _ _ w1) as [[[] | e] w2]; [| reflexivity].
      f_equal. f_equal. set_solver.
Qed.

Lemma process_extensions_spec extensions seen w :
  let found :=
    flat_map (fun extension =>
                glob_glob benv (os_path_join benv input_folder ["**"; extension]))
             extensions in
  process_extensions benv input_folder output_folder watermark_path scale_factor
    padding font_size text_color text_padding extensions seen w
  = match for_each (first_by_key (path_lower benv) found seen) body w with
    | (Ok _, w') => (Ok (list_to_set (path_lower benv <$> found) ∪ seen), w')
    | (Raise e, w') => (Raise e, w')
    end.
Proof.
  cbv zeta. revert seen w.
  induction extensions as [| extension rest IH]; intros seen w.
  - cbn. unfold ret. f_equal. f_equal. set_solver.
  - cbn [process_extensions flat_map]. unfold bind.
    rewrite process_paths_spec, first_by_key_app, for_each_app. unfold bind.
    destruct (for_each _ _ w) as [[[] | e] w1]; [| reflexivity].
    rewrite IH. destruct (for_each _ _ w1) as [[[] | e] w2]; [| reflexivity].
    f_equal. f_equal. rewrite fmap_app. set_solver.
Qed.

(** The batch is the loop body run on the handled paths, in order. *)
Lemma process_images_eq w :
  process_images benv input_folder output_folder watermark_path scale_factor
    padding font_size text_color text_padding w
  = for_each (handled_paths benv input_folder) body w.
Proof.
  unfold process_images, bind. rewrite process_extensions_spec. cbv zeta.
  fold (globbed benv input_folder). fold (handled_paths benv input_folder).
  destruct (for_each _ _ w) as [[[] | e] w1]; reflexivity.
Qed.

(** X19: [process_images] runs the loop body once for each image
    found, up to letter case: on a list of paths taken in order from
    what the ten patterns find, in which no two paths have the same
    lower-case form, and which holds, for every path found, a path of
    the same lower-case form. *)
Theorem X19_batch_handles_each_image_once :
  exists handled,
    (forall w,
       process_images benv input_folder output_folder watermark_path
         scale_factor padding font_size text_color text_padding w
       = for_each handled body w)
    /\ sublist handled (globbed benv input_folder)
    /\ NoDup (path_lower benv <$> handled)
    /\ forall p, p ∈ globbed benv input_folder ->
         path_lower benv p ∈ path_lower benv <$> handled.
Proof.
  exists (handled_paths benv input_folder).
  split; [exact process_images_eq |]. unfold handled_paths.
  split; [apply first_by_key_sublist |].
  split; [apply first_by_key_NoDup |].
  intros p Hp.
  destruct (first_by_key_cover (path_lower benv) _ ∅ p Hp) as [H | H];
    [set_solver | exact H].
Qed.

Lemma wrote_outputs_refl w : wrote_outputs benv input_folder output_folder w w.
Proof. exists []. split; [now rewrite app_nil_r | constructor]. Qed.

Lemma wrote_outputs_trans a b c :
  wrote_outputs benv input_folder output_folder a b ->
  wrote_outputs benv input_folder output_folder b c ->
  wrote_outputs benv input_folder output_folder a c.
Proof.
  intros (o1 & E1 & F1) (o2 & E2 & F2). exists (o1 ++ o2)%list.
  split; [now rewrite E2, E1, app_assoc | now apply Forall_app].
Qed.

Lemma handled_paths_globbed p :
  p ∈ handled_paths benv input_folder -> p ∈ globbed benv input_folder.
Proof.
  intros H. eapply elem_of_sublist; [exact H |]. apply first_by_key_sublist.
Qed.

(** One image of the batch: what it saves is an output of the batch,
    and what it raises is an error of [os.path.relpath] or of the
    console. *)
Lemma process_image_frame image_path w r w' :
  image_path ∈ globbed benv input_folder ->
  body image_path w = (r, w') ->
  wrote_outputs benv input_folder output_folder w w'
  /\ match r with
     | Ok _ => True
     | Raise e => console_or_path_error benv input_folder e
     end.
Proof.
  intros Hp Eb.
  assert (Hone : forall rel final_image,
            os_path_relpath benv image_path input_folder = Ok rel ->
            saved w' = (saved w ++ [(os_path_join benv output_folder [rel],
                                     final_image)])%list ->
            wrote_outputs benv input_folder output_folder w w').
  { intros rel final_image Er Hs.
    exists [(os_path_join benv output_folder [rel], final_image)].
    split; [exact Hs |]. constructor; [| constructor]. exists image_path, rel.
    auto. }
  assert (Hnone : saved w' = saved w ->
                  wrote_outputs benv input_folder output_folder w w').
  { intros Hs. exists []. split; [now rewrite app_nil_r | constructor]. }
  destruct (os_path_relpath benv image_path input_folder) as [rel | e0] eqn:Er.
  - pose proof (process_image_outcome image_path rel w r w' Er Eb) as Ho.
    destruct r as [[] | e].
    + split; [| exact I].
      destruct Ho as [(final_image & Hs & _)
                     | [(e & Hs & _) | (final_image & e & Hs & _)]]; eauto.
    + destruct Ho as [(Hs & He) | (final_image & e0 & Hs & _ & He)].
      * split; [auto |]. right. exact He.
      * split; [eauto |]. right. right. eauto.
  - unfold process_image, bind at 1, lift at 1 in Eb. rewrite Er in Eb.
    injection Eb as <- <-. split; [apply wrote_outputs_refl |].
    left. eauto.
Qed.

(** X20: no exception of [apply_watermark] leaves [process_images]:
    the batch goes on to the next image.  What can stop the batch is
    an error of [os.path.relpath] on a path found or an error of the
    console ([print] of a text read from a file, of a path or of an
    error message); when every path found has a relative path and the
    console writes every text and every line, [process_images]
    returns.  Stopped or not, every file it has saved is at the output
    folder joined with the relative path of an image found. *)
Theorem X20_batch_survives_image_failures (w : World) :
  exists r w',
    process_images benv input_folder output_folder watermark_path scale_factor
      padding font_size text_color text_padding w = (r, w')
    /\ wrote_outputs benv input_folder output_folder w w'
    /\ match r with
       | Ok _ => True
       | Raise e => console_or_path_error benv input_folder e
       end
    /\ ((forall p, p ∈ globbed benv input_folder ->
           is_ok (os_path_relpath benv p input_folder) = true) ->
        (forall t, is_ok (stdout_encode benv t) = true) ->
        console_writes (machine benv) ->
        r = Ok tt).
Proof.
  destruct (process_images benv input_folder output_folder watermark_path
              scale_factor padding font_size text_color text_padding w)
    as [r w'] eqn:E.
  exists r, w'. split; [reflexivity |]. rewrite process_images_eq in E.
  destruct (for_each_inv (handled_paths benv input_folder) body
              (wrote_outputs benv input_folder output_folder)
              (console_or_path_error benv input_folder)
              wrote_outputs_refl wrote_outputs_trans
              (fun x Hx s r0 s' Eb =>
                 process_image_frame x s r0 s' (handled_paths_globbed x Hx) Eb)
              w r w' E) as [HR HP].
  split; [exact HR |]. split; [exact HP |].
  intros Hrel Henc Hcon. destruct r as [[] | e]; [reflexivity |].
  destruct HP as [(p & Hp & Hr) | [(t & Ht) | (line & Hl)]].
  - specialize (Hrel p Hp). rewrite Hr in Hrel. discriminate.
  - specialize (Henc t). rewrite Ht in Henc. discriminate.
  - rewrite (Hcon line) in Hl. discriminate.
Qed.

(** X21: one image of the batch, once its relative path is known.
    When the loop body returns, either it has saved one file, at the
    output folder joined with the relative path, and printed
    "Processed: <rel>" last; or it has saved nothing and printed
    "Error processing <rel>: <error>" last; or it has saved the file,
    the console has refused "Processed: <rel>" and the last line
    printed is "Error processing <rel>: <error>" for the error of the
    console.  When the body raises (the batch stops), either nothing
    is saved and the error is one of the console, on the text of the
    image or on a line; or the file is saved and the console has
    refused both "Processed: <rel>" and the error line for it. *)
Theorem X21_one_output_or_one_error_line
    (image_path rel_path : string) (w : World) :
  os_path_relpath benv image_path input_folder = Ok rel_path ->
  let r := body image_path w in
  let output_path := os_path_join benv output_folder [rel_path] in
  match fst r with
  | Ok _ =>
      (exists final_image,
         saved (snd r) = (saved w ++ [(output_path, final_image)])%list
         /\ last (stdout (snd r)) = Some ("Processed: " +:+ rel_path))
      \/ (exists e,
            saved (snd r) = saved w
            /\ last (stdout (snd r))
               = Some ("Error processing " +:+ rel_path +:+ ": " +:+ exn_str e))
      \/ (exists final_image e,
            saved (snd r) = (saved w ++ [(output_path, final_image)])%list
            /\ stdout_error (machine benv) ("Processed: " +:+ rel_path) = Some e
            /\ last (stdout (snd r))
               = Some ("Error processing " +:+ rel_path +:+ ": " +:+ exn_str e))
  | Raise e =>
      (saved (snd r) = saved w
       /\ ((exists t, stdout_encode benv t = Raise e)
           \/ (exists line, stdout_error (machine benv) line = Some e)))
      \/ (exists final_image e0,
            saved (snd r) = (saved w ++ [(output_path, final_image)])%list
            /\ stdout_error (machine benv) ("Processed: " +:+ rel_path) = Some e0
            /\ stdout_error (machine benv)
                 ("Error processing " +:+ rel_path +:+ ": " +:+ exn_str e0)
               = Some e)
  end.
Proof.
  intros Hrel. cbv zeta. destruct (body image_path w) as [r w'] eqn:Eb.
  cbn [fst snd]. eapply process_image_outcome; eassumption.
Qed.

(** X22: a text file whose text the console cannot encode stops the
    batch.  [print] raises outside the [try] of the loop: the error
    leaves [process_images], the image is not watermarked, and the
    images after it are not looked at. *)
Theorem X22_unprintable_text_stops_the_batch
    (pre post : list string) (image_path rel_path : string) (raw : pystr)
    (e : Exn) (w w1 : World) :
  handled_paths benv input_folder = (pre ++ image_path :: post)%list ->
  for_each pre body w = (Ok tt, w1) ->
  os_path_relpath benv image_path input_folder = Ok rel_path ->
  os_path_exists (machine benv) (sidecar_path benv image_path) = true ->
  read_text_utf8 (machine benv) (sidecar_path benv image_path) = Ok raw ->
  strip raw <> [] ->
  stdout_encode benv (strip raw) = Raise e ->
  process_images benv input_folder output_folder watermark_path scale_factor
    padding font_size text_color text_padding w
  = (Raise e,
     snd (record_probe (ProbeExists (sidecar_path benv image_path)) w1)).
Proof.
  intros Hh Hpre Hrel Hex Hraw Hne Henc. rewrite process_images_eq, Hh.
  eapply for_each_stops; [exact Hpre |].
  unfold process_image, bind at 1, lift at 1. rewrite Hrel. unfold bind at 1.
  rewrite sidecar_text_eq. cbv zeta. rewrite Hex. unfold bind at 1.
  rewrite read_watermark_text_cases. unfold read_decoded. rewrite Hraw.
  assert (Ht : str_truthy (strip raw) = true) by (now destruct (strip raw)).
  rewrite Ht. cbn [text_truthy]. rewrite Ht.
  change (default [] (Some (strip raw))) with (strip raw).
  unfold bind at 1, lift. now rewrite Henc.
Qed.

(** X23: the text that the batch hands to [apply_watermark] is never
    blank: it is [None] (no text file, an unreadable one, or one with
    nothing but whitespace) or a text that is not empty and neither
    starts nor ends with whitespace.  So the text stage runs exactly
    when a text is handed on. *)
Theorem X23_batch_text_is_trimmed
    (image_path rel_path : string) (w w' : World) (r : option pystr) :
  sidecar_text benv image_path rel_path w = (Ok r, w') ->
  stripped_or_none r
  /\ (text_truthy r = true <-> r <> None)
  /\ saved w' = saved w /\ font_cache w' = font_cache w.
Proof.
  intros E. destruct (sidecar_text_outcome _ _ _ _ _ E) as (Hs & Hf & Hst & Hne).
  repeat split; try assumption.
  - intros Ht ->. discriminate.
  - intros Hn.
    destruct r as [[| c t] |];
      [now destruct Hne | reflexivity | now destruct Hn].
Qed.
End BatchFacts.


(** X20 on the sample batch. *)
Lemma X20_batch_survives_image_failures_witness :
  exists w',
    process_images sample_batch "input" "output" (Some "watermark.png")
      float_0_18 300 40 (255, 255, 255) 20 empty_world = (Ok tt, w')
    /\ wrote_outputs sample_batch "input" "output" empty_world w'.
Proof.
  destruct (X20_batch_survives_image_failures sample_batch "input" "output"
              (Some "watermark.png") float_0_18 300 40 (255, 255, 255) 20
              empty_world) as (r & w' & E & W & _ & H).
  exists w'. split; [| exact W]. rewrite E.
  now rewrite (H (fun _ _ => eq_refl) (fun _ => eq_refl) (fun _ => eq_refl)).
Defined.

(** X21 on the photograph of the sample batch. *)
Lemma X21_one_output_or_one_error_line_witness :
  let r := process_image sample_batch "input" "output" (Some "watermark.png")
             float_0_18 300 40 (255, 255, 255) 20 "input/a.png" empty_world in
  match fst r with
  | Ok _ =>
      (exists final_image,
         saved (snd r) = [("output/a.png", final_image)]
         /\ last (stdout (snd r)) = Some "Processed: a.png")
      \/ (exists e,
            saved (snd r) = []
            /\ last (stdout (snd r))
               = Some ("Error processing a.png: " +:+ exn_str e))
      \/ (exists final_image e,
            saved (snd r) = [("output/a.png", final_image)]
            /\ stdout_error (machine sample_batch) "Processed: a.png" = Some e
            /\ last (stdout (snd r))
               = Some ("Error processing a.png: " +:+ exn_str e))
  | Raise e =>
      (saved (snd r) = []
       /\ ((exists t, stdout_encode sample_batch t = Raise e)
           \/ (exists line, stdout_error (machine sample_batch) line = Some e)))
      \/ (exists final_image e0,
            saved (snd r) = [("output/a.png", final_image)]
            /\ stdout_error (machine sample_batch) "Processed: a.png" = Some e0
            /\ stdout_error (machine sample_batch)
                 ("Error processing a.png: " +:+ exn_str e0)
               = Some e)
  end.
Proof.
  exact (X21_one_output_or_one_error_line sample_batch "input" "output"
           (Some "watermark.png") float_0_18 300 40 (255, 255, 255) 20
           "input/a.png" "a.png" empty_world eq_refl).
Defined.

(** X22 on the batch with the ASCII console: the text of
    "input/a.txt" starts with the copyright sign. *)
Lemma X22_unprintable_text_stops_the_batch_witness :
  process_images ascii_console_batch "input" "output" (Some "watermark.png")
    float_0_18 300 40 (255, 255, 255) 20 empty_world
  = (Raise (mkExn ValueError "'ascii' codec can't encode character"),
     {| font_cache := ∅; stdout := [];
        probes := [ProbeExists "input/a.txt"]; saved := [] |}).
Proof.
  refine (X22_unprintable_text_stops_the_batch ascii_console_batch "input"
            "output" (Some "watermark.png") float_0_18 300 40 (255, 255, 255) 20
            [] [] "input/a.png" "a.png" ([169; 32] ++ text_PROOF)%N%list
            (mkExn ValueError "'ascii' codec can't encode character")
            empty_world empty_world _ eq_refl eq_refl eq_refl eq_refl _ eq_refl).
  - vm_compute. reflexivity.
  - discriminate.
Defined.

(** X23 on the photograph of the sample batch: "input/a.txt" holds
    "  PROOF" and a newline. *)
Lemma X23_batch_text_is_trimmed_witness :
  stripped_or_none (Some text_PROOF)
  /\ (text_truthy (Some text_PROOF) = true <-> Some text_PROOF <> None).
Proof.
  refine (let H := X23_batch_text_is_trimmed sample_batch "input/a.png" "a.png"
                     empty_world
                     {| font_cache := ∅;
                        stdout := ["Found text watermark for a.png: PROOF"];
                        probes := [ProbeExists "input/a.txt"]; saved := [] |}
                     (Some text_PROOF) _ in
          conj (proj1 H) (proj1 (proj2 H))).
  vm_compute. reflexivity.
Defined.


(** ** The preview of [app.py] *)

Section AppFacts.
Variable env : Env.

(** With the anchor "bottom-right" the logo step of the page is the
    image watermark of [apply_watermark]. *)
Lemma apply_logo_bottom_right base_image watermark_path logo scale_factor
    padding :
  image_open env watermark_path = Ok logo ->
  apply_logo env (Ok logo) (width base_image) (height base_image) base_image
             scale_factor "bottom-right" padding
  = apply_image_watermark env base_image base_image watermark_path scale_factor
      padding.
Proof.
  intros Ho. unfold apply_logo, apply_image_watermark, load_watermark.
  rewrite Ho. cbn [obind].
  destruct (watermark_size _ _ _ _) as [[tw th] | e]; [| reflexivity].
  cbn [obind]. destruct (resize env logo tw th); reflexivity.
Qed.

(** On a console that writes every line the font that [load_font]
    returns depends on the cache and on the machine only. *)
Lemma load_font_same_font font_name font_size w1 w2 f1 f2 w1' w2' :
  console_writes env ->
  font_cache w1 = font_cache w2 ->
  load_font env font_name font_size w1 = (Ok f1, w1') ->
  load_font env font_name font_size w2 = (Ok f2, w2') ->
  f1 = f2.
Proof.
  intros Hw Hc H1 H2.
  destruct (font_cache w1 !! cache_key font_name font_size) as [g |] eqn:E.
  - rewrite (load_font_hit env _ _ _ _ E) in H1. rewrite Hc in E.
    rewrite (load_font_hit env _ _ _ _ E) in H2. congruence.
  - destruct (load_font_miss_resolves env _ _ _ Hw E) as (u1 & R1 & _).
    rewrite Hc in E.
    destruct (load_font_miss_resolves env _ _ _ Hw E) as (u2 & R2 & _).
    congruence.
Qed.

(** The text step of the page once the font is resolved. *)
Lemma preview_text_step_runs text_watermark font_size text_position
    text_padding text_color_rgb outline_color_rgb outline_width w image font w1 :
  load_font env "Times New Roman" font_size w = (Ok font, w1) ->
  let run := apply_text_watermark env text_watermark font text_position
               text_padding text_color_rgb outline_color_rgb outline_width
               image in
  preview_text_step env text_watermark font_size text_position text_padding
    text_color_rgb outline_color_rgb outline_width (w, image)
  = (Ok match fst run with
        | Ok _ => None
        | Raise e => Some ("Error applying text: " +:+ exn_str e)
        end,
     (w1, snd run)).
Proof.
  intros Hf run.
  unfold preview_text_step, try_except, bind, lift_world. rewrite Hf.
  unfold lift_image. fold run. destruct run as [[[] | e] image']; reflexivity.
Qed.

(** The text step of the page when [load_font] raises (the console
    refuses one of its lines): the error is the message of the page. *)
Lemma preview_text_step_font_fails text_watermark font_size text_position
    text_padding text_color_rgb outline_color_rgb outline_width w image e w1 :
  load_font env "Times New Roman" font_size w = (Raise e, w1) ->
  preview_text_step env text_watermark font_size text_position text_padding
    text_color_rgb outline_color_rgb outline_width (w, image)
  = (Ok (Some ("Error applying text: " +:+ exn_str e)), (w1, image)).
Proof.
  intros Hf.
  unfold preview_text_step, try_except, bind, lift_world. now rewrite Hf.
Qed.

(** The text step of the page returns, whatever the console does. *)
Lemma preview_text_step_total text_watermark font_size text_position
    text_padding text_color_rgb outline_color_rgb outline_width w image :
  exists message w1 image1,
    preview_text_step env text_watermark font_size text_position text_padding
      text_color_rgb outline_color_rgb outline_width (w, image)
    = (Ok message, (w1, image1)).
Proof.
  destruct (load_font env "Times New Roman" font_size w) as [[f | e] w1] eqn:Hf.
  - rewrite (preview_text_step_runs _ _ _ _ _ _ _ _ _ _ _ Hf).
    eexists _, _, _. reflexivity.
  - rewrite (preview_text_step_font_fails _ _ _ _ _ _ _ _ _ _ _ Hf).
    eexists _, _, _. reflexivity.
Qed.

(** The page never fails once the upload is opened. *)
Lemma watermarked_preview_total image uploaded_logo logo_scale logo_position
    logo_padding text_watermark font_size text_position text_padding
    text_color_rgb outline_color_rgb outline_width w :
  exists shown w',
    watermarked_preview env image uploaded_logo logo_scale logo_position
      logo_padding text_watermark font_size text_position text_padding
      text_color_rgb outline_color_rgb outline_width w = (Ok shown, w').
Proof.
  unfold watermarked_preview. cbv zeta.
  destruct (str_truthy text_watermark); [| eexists _, _; reflexivity].
  match goal with
  | |- context [preview_text_step env ?t ?s ?p ?d ?c ?o ?ow (w, ?im)] =>
      destruct (preview_text_step_total t s p d c o ow w im)
        as (message & w1 & image1 & ->)
  end.
  eexists _, _. reflexivity.
Qed.

(** X24: on the page a logo that cannot be applied (the upload is not
    an image, it falls on the picture and has no alpha channel, its
    computed size is empty or too large) does not stop the preview,
    unlike in [apply_watermark]: the page shows what it shows without
    a logo, after the message "Error applying logo: <error>". *)
Theorem X24_preview_contains_logo_failure
    (image : Image) (opened : Outcome Image) (logo_scale : spec_float)
    (logo_position : string) (logo_padding : Z) (text_watermark : pystr)
    (font_size : Z) (text_position : string) (text_padding : Z)
    (text_color_rgb outline_color_rgb : Color) (outline_width : Z)
    (w : World) (e : Exn) :
  apply_logo env opened (width image) (height image)
    (if mode_eqb (mode image) ModeRGBA then image else convert ModeRGBA image)
    logo_scale logo_position logo_padding = Raise e ->
  exists shown w',
    watermarked_preview env image None logo_scale logo_position logo_padding
      text_watermark font_size text_position text_padding text_color_rgb
      outline_color_rgb outline_width w = (Ok shown, w')
    /\ watermarked_preview env image (Some opened) logo_scale logo_position
         logo_padding text_watermark font_size text_position text_padding
         text_color_rgb outline_color_rgb outline_width w
       = (Ok (mkShown (preview_image shown)
                      (("Error applying logo: " +:+ exn_str e)
                       :: st_errors shown)), w').
Proof.
  intros Hl. unfold watermarked_preview. cbv zeta. rewrite Hl.
  destruct (str_truthy text_watermark); [| eexists _, _; split; reflexivity].
  cbn [preview_image st_errors].
  match goal with
  | |- context [preview_text_step env ?t ?s ?p ?d ?c ?o ?ow (w, ?im)] =>
      destruct (preview_text_step_total t s p d c o ow w im)
        as (message & w1 & image1 & ->)
  end.
  eexists _, _. split; reflexivity.
Qed.

(** X25: the page and the command line agree on a console that
    writes every line.  With the logo anchored bottom-right and the
    text bottom-left, on the same picture, logo and settings, and an
    output that is not a JPEG and can be written: when the logo step
    returns (also when the logo falls wholly off the picture and
    nothing is pasted), the file that [apply_watermark] saves is the
    image that the page shows; when it raises (also on a size beyond
    a C int), [apply_watermark] raises the error that the page
    displays and saves nothing. *)
Theorem X25_preview_agrees_with_command_line
    (image_path watermark_path output_path : string)
    (scale_factor : spec_float) (padding : Z) (text_watermark : pystr)
    (font_size : Z) (text_color : Color) (text_padding : Z)
    (text_outline_color : Color) (text_outline_width : Z) (w : World)
    (image logo : Image) :
  console_writes env ->
  image_open env image_path = Ok image ->
  watermark_path <> "" ->
  os_path_exists env watermark_path = true ->
  image_open env watermark_path = Ok logo ->
  str_in (lower (splitext_ext env output_path)) [".jpg"; ".jpeg"] = false ->
  makedirs_error env (dirname env output_path) = None ->
  (forall im, save_error env output_path im = None) ->
  exists shown w1,
    watermarked_preview env image (Some (Ok logo)) scale_factor "bottom-right"
      padding text_watermark font_size "bottom-left" text_padding text_color
      text_outline_color text_outline_width w = (Ok shown, w1)
    /\ let cli := apply_watermark env image_path (Some watermark_path)
                    output_path scale_factor padding (Some text_watermark)
                    font_size text_color text_padding text_outline_color
                    text_outline_width w in
       match apply_logo env (Ok logo) (width image) (height image)
               (if mode_eqb (mode image) ModeRGBA then image
                else convert ModeRGBA image)
               scale_factor "bottom-right" padding with
       | Ok _ =>
           fst cli = Ok tt
           /\ saved (snd cli)
              = (saved w ++ [(output_path, preview_image shown)])%list
       | Raise e =>
           fst cli = Raise e
           /\ saved (snd cli) = saved w
           /\ head (st_errors shown)
              = Some ("Error applying logo: " +:+ exn_str e)
       end.
Proof.
  intros Hcon Ho Hp Hx Hl Hext Hd Hs.
  set (base_image := if mode_eqb (mode image) ModeRGBA then image
                     else convert ModeRGBA image).
  assert (Hw : width base_image = width image) by apply width_base_image.
  assert (Hh : height base_image = height image)
    by (unfold base_image; now destruct (mode_eqb _ _)).
  assert (Hlogo : apply_logo env (Ok logo) (width image) (height image)
                    base_image scale_factor "bottom-right" padding
                  = apply_image_watermark env base_image base_image
                      watermark_path scale_factor padding).
  { rewrite <- Hw, <- Hh. now apply apply_logo_bottom_right. }
  cbv zeta. rewrite apply_watermark_stages, Ho. cbv zeta. fold base_image.
  rewrite image_stage_cases.
  destruct watermark_path as [| c p]; [congruence |].
  rewrite Hx, <- Hlogo.
  unfold watermarked_preview. cbv zeta. fold base_image.
  set (w0 := snd (record_probe (ProbeExists (String c p)) w)).
  destruct (apply_logo env (Ok logo) (width image) (height image) base_image
              scale_factor "bottom-right" padding) as [marked | e].
  - cbn [preview_image st_errors].
    destruct text_watermark as [| ch t].
    + cbn [str_truthy]. eexists _, _. split; [reflexivity |].
      cbn [preview_image]. unfold text_stage. cbn [text_truthy str_truthy].
      unfold ret at 1. unfold save_stage, bind. rewrite Hext. unfold ret at 1.
      unfold os_makedirs, Image_save. rewrite Hd. cbn. rewrite !Hs. cbn. auto.
    + cbn [str_truthy].
      destruct (load_font_ok env "Times New Roman" font_size w Hcon)
        as (f & w1 & Hf & _).
      destruct (load_font_ok env "Times New Roman" font_size w0 Hcon)
        as (f0 & w2 & Hf0 & _).
      assert (f0 = f) as -> by (eapply load_font_same_font;
                                [exact Hcon | | exact Hf0 | exact Hf];
                                reflexivity).
      rewrite (preview_text_step_runs _ _ _ _ _ _ _ _ _ _ _ Hf). cbv zeta.
      eexists _, _. split; [reflexivity |]. cbn [preview_image].
      rewrite (text_stage_runs env _ _ _ _ _ _ _ _ _ _ _ Hf0). cbv zeta.
      pose proof (load_font_saved _ _ _ _ _ _ Hf0) as Hsv.
      destruct (fst (apply_text_watermark env (ch :: t) f "bottom-left"
                       text_padding text_color text_outline_color
                       text_outline_width marked));
        unfold save_stage, bind; rewrite ?(print_ok _ _ _ (Hcon _));
        rewrite Hext; unfold ret;
        unfold os_makedirs, Image_save; rewrite Hd; unfold ret;
        cbn [raise fst snd]; rewrite !Hs; cbn [fst snd saved];
        (split; [reflexivity |]); now rewrite Hsv.
  - cbn [preview_image st_errors fst snd].
    destruct (watermarked_preview_total image (Some (Raise e)) scale_factor
                "bottom-right" padding text_watermark font_size "bottom-left"
                text_padding text_color text_outline_color text_outline_width w)
      as (shown & w1 & Hs1).
    unfold watermarked_preview in Hs1. cbv zeta in Hs1. cbn [apply_logo obind] in Hs1.
    fold base_image in Hs1.
    exists shown, w1. split; [exact Hs1 |]. split; [reflexivity |].
    split; [reflexivity |].
    destruct (str_truthy text_watermark).
    + cbn [preview_image st_errors] in Hs1.
      destruct (preview_text_step env text_watermark font_size "bottom-left"
                  text_padding text_color text_outline_color text_outline_width
                  (w, base_image)) as [[m | e'] [w' im]]; [| discriminate].
      injection Hs1 as <- _. reflexivity.
    + injection Hs1 as <- _. reflexivity.
Qed.
End AppFacts.

(** X24 on the sample machine: the upload of the logo is not an
    image. *)
Lemma X24_preview_contains_logo_failure_witness :
  exists shown w',
    watermarked_preview sample_env sample_base None float_0_15 "bottom-right" 10
      text_PROOF 40 "bottom-left" 20 white black 2 empty_world = (Ok shown, w')
    /\ watermarked_preview sample_env sample_base
         (Some (Raise (mkExn OSError "cannot identify image file")))
         float_0_15 "bottom-right" 10 text_PROOF 40 "bottom-left" 20 white black
         2 empty_world
       = (Ok (mkShown (preview_image shown)
                      ("Error applying logo: cannot identify image file"
                       :: st_errors shown)), w').
Proof.
  exact (X24_preview_contains_logo_failure sample_env sample_base
           (Raise (mkExn OSError "cannot identify image file")) float_0_15
           "bottom-right" 10 text_PROOF 40 "bottom-left" 20 white black 2
           empty_world (mkExn OSError "cannot identify image file") eq_refl).
Defined.

(** X25 on the sample machine. *)
Lemma X25_preview_agrees_with_command_line_witness :
  exists shown w1,
    watermarked_preview sample_env sample_base (Some (Ok sample_logo)) float_0_2
      "bottom-right" 10 text_PROOF 40 "bottom-left" 20 white black 2 empty_world
    = (Ok shown, w1)
    /\ saved (snd (apply_watermark sample_env "input/a.png"
                     (Some "watermark.png") "output/a.png" float_0_2 10
                     (Some text_PROOF) 40 white 20 black 2 empty_world))
       = [("output/a.png", preview_image shown)].
Proof.
  destruct (X25_preview_agrees_with_command_line sample_env "input/a.png"
              "watermark.png" "output/a.png" float_0_2 10 text_PROOF 40 white 20
              black 2 empty_world sample_base sample_logo (fun _ => eq_refl)
              eq_refl ltac:(discriminate) eq_refl eq_refl eq_refl eq_refl
              (fun _ => eq_refl))
    as (shown & w1 & Hp & Hc).
  exists shown, w1. split; [exact Hp |]. cbv zeta in Hc.
  destruct (apply_logo sample_env (Ok sample_logo) (width sample_base)
              (height sample_base)
              (if mode_eqb (mode sample_base) ModeRGBA then sample_base
               else convert ModeRGBA sample_base)
              float_0_2 "bottom-right" 10) as [marked | e] eqn:El.
  - exact (proj2 Hc).
  - apply (f_equal is_ok) in El. vm_compute in El. discriminate.
Defined.


(** X26: on the page, when the logo and twice the padding fit in the
    picture (and the padding is not negative), the logo lies wholly
    inside the picture, at least the padding away from every edge,
    for each of the four anchors and for any other string (which is
    placed as top-left). *)
Theorem X26_logo_box_inside_image
    (logo_position : string)
    (img_width img_height logo_width logo_height logo_padding : Z) :
  0 <= logo_padding ->
  logo_width + 2 * logo_padding <= img_width ->
  logo_height + 2 * logo_padding <= img_height ->
  let pos := logo_pos logo_position img_width img_height logo_width
               logo_height logo_padding in
  logo_padding <= fst pos
  /\ fst pos + logo_width <= img_width - logo_padding
  /\ logo_padding <= snd pos
  /\ snd pos + logo_height <= img_height - logo_padding.
Proof.
  intros Hp Hw Hh. unfold logo_pos.
  destruct (String.eqb logo_position "bottom-right");
    [cbn [fst snd]; lia |].
  destruct (String.eqb logo_position "bottom-left");
    [cbn [fst snd]; lia |].
  destruct (String.eqb logo_position "top-right"); cbn [fst snd]; lia.
Qed.

(** X26 for a logo of 150 x 112 at the top right of a picture of
    1000 x 800, with a padding of 16. *)
Lemma X26_logo_box_inside_image_witness :
  16 <= fst (logo_pos "top-right" 1000 800 150 112 16)
  /\ fst (logo_pos "top-right" 1000 800 150 112 16) + 150 <= 1000 - 16
  /\ 16 <= snd (logo_pos "top-right" 1000 800 150 112 16)
  /\ snd (logo_pos "top-right" 1000 800 150 112 16) + 112 <= 800 - 16.
Proof.
  apply (X26_logo_box_inside_image "top-right" 1000 800 150 112 16); lia.
Defined.
